(** * MidiMixer (PromptDJ MIDI): a shallow embedding of the prompt grid,
      its controllers and the bootstrap wiring, with the properties the
      design document states about them.

    Source modules embedded here:
    - the entry module ([main], [buildInitialPrompts], [GENRE_LIBRARY]);
    - [components/PromptDjMidi] (the grid, owner of the prompt map);
    - [components/PromptController] (one slot, bound to a MIDI CC).

    The modules [utils/LiveMusicHelper], [utils/AudioAnalyser],
    [utils/throttle] and [components/ToastMessage] are imported by these
    but are not among the sources; what the properties need of them is
    modelled from the design document and marked as such.

    JavaScript values are modelled as follows.
    - A [number] that the code computes with fractions (weight, density,
      audio level) is an IEEE-754 binary64 value: Rocq's primitive [float].
    - A [number] that is an integer by construction (slot index, controller
      number, MIDI data byte) is a [Z]; the result of [parseInt] is a
      [Js.number]: [NaN], an integer that is a binary64 value, -0 or an
      infinity.
    - A [string] is the sequence of bytes of its UTF-8 encoding.
    - A range input of a template is the element of the HTML standard
      with the [min], [max] and [step] the template gives it; what it
      delivers to its [input] listener is the value it settles at.
    - A [Map<string, Prompt>] is an insertion-ordered association list from
      keys to object references; the objects live in a [heap], because
      [handlePromptChanged] mutates a stored object in place before it
      copies it.
    - An event listener is a function from the state and the event detail to
      the new state and the list of events it dispatches. *)

From Stdlib Require Import ZArith List String Ascii Bool Arith Lia.
From Stdlib Require Import Floats Uint63.
From Stdlib Require Import QArith Qminmax Qround Lqa.
From Stdlib Require Import Permutation Sorted DecimalString DecimalNat.
Import ListNotations.

Local Open Scope string_scope.
Local Open Scope list_scope.
Local Open Scope nat_scope.

(* ================================================================== *)
(** * Part I. The embedding                                             *)
(* ================================================================== *)

(** ** JavaScript numbers and strings, [parseInt] and [parseFloat] *)

Module Js.

(** A string is held as the bytes of its UTF-8 encoding: a character of
    the Basic Latin block is one [ascii], any other character two to
    four. *)

(** The Number values that [parseInt] and the additions on its results
    give: [NaN], a finite value that is an integer ([Int 0] is +0), -0,
    and the two infinities ([Infinity true] is the negative one). The
    code only builds [Int z] for integers [z] that are binary64 values. *)
Inductive number : Type :=
| NaN : number
| Int : Z -> number
| NegZero : number
| Infinity : bool -> number.

(** The binary64 value nearest to the integer [z >= 0], ties to the even
    significand, as an integer: every integer below 2^53 is a binary64
    value; above, the 53 leading bits are kept and the rest is rounded. *)
Definition nearest (z : Z) : Z :=
  if (z <? 2 ^ 53)%Z then z
  else
    let e := (Z.log2 z - 52)%Z in
    let q := (z / 2 ^ e)%Z in
    let r := (z mod 2 ^ e)%Z in
    let half := (2 ^ (e - 1))%Z in
    let q' :=
      if (r <? half)%Z then q
      else if (half <? r)%Z then (q + 1)%Z
      else if Z.even q then q else (q + 1)%Z in
    (q' * 2 ^ e)%Z.

(** The Number value for the integer [z] (ECMAScript 6.1.6.1): the
    nearest binary64 value, an infinity when that would be 2^1024 or
    more. *)
Definition ofZ (z : Z) : number :=
  let m := nearest (Z.abs z) in
  if (2 ^ 1024 <=? m)%Z then Infinity (z <? 0)%Z
  else Int (Z.sgn z * m).

(** Conversion of an integer to binary64, as happens when a MIDI data byte
    enters a floating-point expression: the nearest value, ties to even. *)
Definition float_of_Z (z : Z) : float :=
  SF2Prim (binary_normalize prec emax z 0 false).

(** The Number value of a binary64 value that is an integer (used to
    compare [ofZ] with the rounding of the standard library). *)
Definition ofFloat (f : float) : number :=
  match Prim2SF f with
  | S754_zero s => if s then NegZero else Int 0
  | S754_infinity s => Infinity s
  | S754_nan => NaN
  | S754_finite s m e =>
      let sign := (if s then -1 else 1)%Z in
      if (0 <=? e)%Z then Int (sign * (Zpos m * 2 ^ e))
      else if (Zpos m mod 2 ^ (- e) =? 0)%Z
           then Int (sign * (Zpos m / 2 ^ (- e)))
           else NaN
  end.

(** [WhiteSpace] and [LineTerminator] of one byte: TAB, LF, VT, FF, CR
    and SPACE. *)
Definition isWhiteSpace (c : ascii) : bool :=
  let n := nat_of_ascii c in
  (n =? 9) || (n =? 10) || (n =? 11) || (n =? 12) || (n =? 13) || (n =? 32).

(** Of two bytes: U+00A0 NO-BREAK SPACE. *)
Definition isWhiteSpace2 (a b : ascii) : bool :=
  (nat_of_ascii a =? 194) && (nat_of_ascii b =? 160).

(** Of three bytes: U+1680, U+2000 to U+200A, U+2028, U+2029, U+202F,
    U+205F, U+3000 and U+FEFF. *)
Definition isWhiteSpace3 (a b c : ascii) : bool :=
  let x := nat_of_ascii a in
  let y := nat_of_ascii b in
  let z := nat_of_ascii c in
  ((x =? 225) && (y =? 154) && (z =? 128))
  || ((x =? 226) && (y =? 128)
      && (((128 <=? z) && (z <=? 138)) || (z =? 168) || (z =? 169) || (z =? 175)))
  || ((x =? 226) && (y =? 129) && (z =? 159))
  || ((x =? 227) && (y =? 128) && (z =? 128))
  || ((x =? 239) && (y =? 187) && (z =? 191)).

(** What follows the white-space character at the head of [s], when
    there is one. *)
Definition afterWhiteSpace (s : string) : option string :=
  match s with
  | EmptyString => None
  | String a r1 =>
      if isWhiteSpace a then Some r1
      else
        match r1 with
        | EmptyString => None
        | String b r2 =>
            if isWhiteSpace2 a b then Some r2
            else
              match r2 with
              | EmptyString => None
              | String c r3 => if isWhiteSpace3 a b c then Some r3 else None
              end
        end
  end.

(** [s.trimStart()] (ECMAScript [TrimString]): the white-space characters
    at the head are dropped. *)
Fixpoint trimStart (s : string) : string :=
  match s with
  | EmptyString => EmptyString
  | String a r1 =>
      if isWhiteSpace a then trimStart r1
      else
        match r1 with
        | EmptyString => s
        | String b r2 =>
            if isWhiteSpace2 a b then trimStart r2
            else
              match r2 with
              | EmptyString => s
              | String c r3 => if isWhiteSpace3 a b c then trimStart r3 else s
              end
        end
  end.

(** Value of a character as a digit, when it is one in some radix <= 36. *)
Definition digitValue (c : ascii) : option Z :=
  let n := nat_of_ascii c in
  if (48 <=? n) && (n <=? 57) then Some (Z.of_nat (n - 48))
  else if (97 <=? n) && (n <=? 122) then Some (Z.of_nat (n - 87))
  else if (65 <=? n) && (n <=? 90) then Some (Z.of_nat (n - 55))
  else None.

(** Reads the longest prefix of radix-[R] digits; [acc] is the value read
    so far and [seen] tells whether any digit was read. *)
Fixpoint readDigits (R : Z) (s : string) (acc : Z) (seen : bool) : option Z :=
  match s with
  | EmptyString => if seen then Some acc else None
  | String c rest =>
      match digitValue c with
      | Some d =>
          if (d <? R)%Z then readDigits R rest (acc * R + d)%Z true
          else if seen then Some acc else None
      | None => if seen then Some acc else None
      end
  end.

(** [parseInt(string)] with no radix argument (ECMAScript 19.2.5): leading
    white space, an optional sign, an optional [0x]/[0X] prefix, then the
    longest run of digits; [NaN] when there is no digit, -0 for a zero
    after a minus sign, otherwise the Number value for the integer read
    (all its digits are taken into account). *)
Definition parseInt (input : string) : number :=
  let S0 := trimStart input in
  let '(sign, S1) :=
    match S0 with
    | String "-" rest => ((-1)%Z, rest)
    | String "+" rest => (1%Z, rest)
    | _ => (1%Z, S0)
    end in
  let '(R, S2) :=
    match S1 with
    | String "0" (String "x" rest) => (16%Z, rest)
    | String "0" (String "X" rest) => (16%Z, rest)
    | _ => (10%Z, S1)
    end in
  match readDigits R S2 0%Z false with
  | Some mathInt =>
      if ((sign <? 0) && (mathInt =? 0))%Z then NegZero
      else ofZ (sign * mathInt)
  | None => NaN
  end.

(** Template-literal interpolation and [toString()] of a non-negative
    integer below 10^21: its decimal digits. *)
Definition toString (i : nat) : string :=
  NilZero.string_of_uint (Nat.to_uint i).

(** Reads the longest prefix of decimal digits: their value joined to
    [acc], their number joined to [count], and what follows them. *)
Fixpoint readDecimal (s : string) (acc count : Z) : Z * Z * string :=
  match s with
  | EmptyString => (acc, count, s)
  | String c rest =>
      match digitValue c with
      | Some d =>
          if (d <? 10)%Z then readDecimal rest (acc * 10 + d)%Z (count + 1)%Z
          else (acc, count, s)
      | None => (acc, count, s)
      end
  end.

(** The value of the [ExponentPart] at the head of [s], 0 when there is
    none: [e] or [E], an optional sign, at least one digit. *)
Definition readExponent (s : string) : Z :=
  match s with
  | String c rest =>
      if Ascii.eqb c "e" || Ascii.eqb c "E" then
        let '(sign, digits) :=
          match rest with
          | String "-" r => ((-1)%Z, r)
          | String "+" r => (1%Z, r)
          | _ => (1%Z, rest)
          end in
        let '(v, n, _) := readDecimal digits 0%Z 0%Z in
        if (n =? 0)%Z then 0%Z else (sign * v)%Z
      else 0%Z
  | EmptyString => 0%Z
  end.

(** The binary64 value nearest to [m * 10^e10] for [m > 0], ties to
    even: an integer is converted as it is; a quotient is first cut to
    at least 64 bits with a sticky bit, which rounds as the quotient
    does. Values from 10^400 on are infinite, values below 10^-400 are
    zero. *)
Definition roundDecimal (m e10 : Z) : float :=
  if (400 <? e10)%Z then infinity
  else if (0 <=? e10)%Z then float_of_Z (m * 10 ^ e10)
  else if (e10 + Z.log2 m + 1 <? -400)%Z then 0%float
  else
    let den := (10 ^ (- e10))%Z in
    let k := Z.max 0 (Z.log2 den - Z.log2 m + 66) in
    let q := ((m * 2 ^ k) / den)%Z in
    let sticky := if ((m * 2 ^ k) mod den =? 0)%Z then 0%Z else 1%Z in
    SF2Prim (binary_normalize prec emax (2 * q + sticky) (- (k + 1)) false).

(** [parseFloat(string)] (ECMAScript 19.2.4): leading white space, then
    the longest prefix that is a [StrDecimalLiteral]: an optional sign
    followed by [Infinity] or by digits with an optional fraction and an
    optional exponent; [NaN] when there is none. *)
Definition parseFloat (input : string) : float :=
  let S0 := trimStart input in
  let '(neg, S1) :=
    match S0 with
    | String "-" rest => (true, rest)
    | String "+" rest => (false, rest)
    | _ => (false, S0)
    end in
  let signed := fun x : float => if neg then PrimFloat.opp x else x in
  if String.prefix "Infinity" S1 then signed infinity
  else
    let '(intValue, intCount, S2) := readDecimal S1 0%Z 0%Z in
    let '(m, fracCount, S3) :=
      match S2 with
      | String "." rest =>
          let '(v, n, r) := readDecimal rest intValue 0%Z in (v, n, r)
      | _ => (intValue, 0%Z, S2)
      end in
    if ((intCount =? 0) && (fracCount =? 0))%Z then nan
    else if (m =? 0)%Z then signed 0%float
    else signed (roundDecimal m (readExponent S3 - fracCount)).

(** The digit [d] of 0 to 9 as a character. *)
Definition digitChar (d : Z) : ascii := ascii_of_nat (48 + Z.to_nat d).

(** The [scale] decimal digits of [r < 10^scale]. *)
Fixpoint fractionDigits (scale : nat) (r : Z) : string :=
  match scale with
  | O => EmptyString
  | S k =>
      String (digitChar (r / 10 ^ Z.of_nat k))
             (fractionDigits k (r mod 10 ^ Z.of_nat k))
  end.

Fixpoint dropTrailingZeros (s : string) : string :=
  match s with
  | EmptyString => EmptyString
  | String c rest =>
      match dropTrailingZeros rest with
      | EmptyString => if Ascii.eqb c "0" then EmptyString
                       else String c EmptyString
      | rest' => String c rest'
      end
  end.

(** The decimal numeral of [n / 10^scale], as [toString()] writes a
    number of this size: a minus sign if negative, the integer part, and
    the fraction, if any, without trailing zeros. *)
Definition numeral (scale : nat) (n : Z) : string :=
  let a := Z.abs n in
  let whole := toString (Z.to_nat (a / 10 ^ Z.of_nat scale)) in
  let fraction :=
    dropTrailingZeros (fractionDigits scale (a mod 10 ^ Z.of_nat scale)) in
  ((if (n <? 0)%Z then "-" else "")
   ++ whole
   ++ (match fraction with
       | EmptyString => ""
       | _ => String "." fraction
       end))%string.

End Js.

(** ** Range inputs of the templates *)

Module RangeInput.

(** An [<input type="range">] with its [min], [max] and [step]
    attributes (HTML standard, 4.10.5.1.13). The attributes are decimal
    numerals with at most [scale] digits after the point and are held in
    units of 10^-scale; [min <= max] and [0 < step], as in the two
    templates. *)
Record t : Type := mk {
  scale : nat;
  min : Z;
  max : Z;
  step : Z
}.

(** The last step that does not pass [max]. *)
Definition lastStep (el : t) : Z := ((max el - min el) / step el)%Z.

(** The number of steps above [min] at which the element settles when
    the user or a script asks for the value [request] ([None]: a string
    that is not a number). The value sanitization algorithm takes the
    default value [min + (max - min) / 2] for what is not a number,
    [min] on underflow, [max] on overflow, and on a step mismatch the
    nearest value of the form [min + k * step] that does not pass [max],
    the higher of two that are equally near. *)
Definition steps (el : t) (request : option Q) : Z :=
  let lo := inject_Z (min el) in
  let hi := inject_Z (max el) in
  let x :=
    match request with
    | Some q => (q * inject_Z (10 ^ Z.of_nat (scale el)))%Q
    | None => (lo + (hi - lo) / 2)%Q
    end in
  let c := Qmax lo (Qmin x hi) in
  Z.min (Qfloor ((c - lo) / inject_Z (step el) + (1 # 2))%Q) (lastStep el).

(** The element's number, in units of 10^-scale. *)
Definition number (el : t) (request : option Q) : Z :=
  (min el + steps el request * step el)%Z.

(** The element's [value]: the numeral of its number. *)
Definition value (el : t) (request : option Q) : string :=
  Js.numeral (scale el) (number el request).

End RangeInput.

(** ** Shared types ([types]) *)

(** [PlaybackState = 'stopped' | 'playing' | 'loading' | 'paused']. *)
Inductive PlaybackState : Type :=
| stopped | playing | loading | paused.

Definition PlaybackState_eqb (a b : PlaybackState) : bool :=
  match a, b with
  | stopped, stopped | playing, playing | loading, loading | paused, paused => true
  | _, _ => false
  end.

Module Prompt.

(** The [Prompt] interface. [selectedInstrument] is optional: [None] is
    [undefined]. *)
Record t : Type := mk {
  promptId : string;
  text : string;
  weight : float;
  cc : Z;
  color : string;
  density : float;
  instruments : list string;
  selectedInstrument : option string
}.

(** [Object.assign(target, source)] where [source] carries all eight
    properties of a [Prompt], as every event detail built by
    [dispatchPromptChange] does: every property of the target is
    overwritten by the source's, so nothing of the target survives. *)
Definition assign (target source : t) : t :=
  mk (promptId source) (text source) (weight source) (cc source)
     (color source) (density source) (instruments source)
     (selectedInstrument source).

(** [prompt.selectedInstrument = value], a one-field assignment. *)
Definition setSelectedInstrument (p : t) (v : string) : t :=
  mk (promptId p) (text p) (weight p) (cc p) (color p) (density p)
     (instruments p) (Some v).

End Prompt.

(** ** Object store and [Map] *)

Module Heap.

(** Object references are indices into the list of allocated objects. *)
Definition loc : Type := nat.
Definition t : Type := list Prompt.t.

Definition empty : t := [].

(** An object literal or spread copy: a fresh reference. *)
Definition alloc (h : t) (p : Prompt.t) : t * loc := (h ++ [p], List.length h).

Definition deref (h : t) (l : loc) : option Prompt.t := nth_error h l.

(** In-place mutation of the object at [l]; nothing happens to a
    reference that was never allocated. *)
Fixpoint store (h : t) (l : loc) (p : Prompt.t) : t :=
  match h, l with
  | [], _ => []
  | _ :: rest, O => p :: rest
  | q :: rest, S l' => q :: store rest l' p
  end.

End Heap.

Module JsMap.

(** [Map<string, Prompt>]: keys in insertion order, each bound to an
    object reference. *)
Definition t : Type := list (string * Heap.loc).

Fixpoint get (m : t) (k : string) : option Heap.loc :=
  match m with
  | [] => None
  | (k', l) :: rest => if String.eqb k' k then Some l else get rest k
  end.

(** [Map.prototype.set]: an existing key keeps its position, a new key
    goes last. *)
Fixpoint set (m : t) (k : string) (l : Heap.loc) : t :=
  match m with
  | [] => [(k, l)]
  | (k', l') :: rest =>
      if String.eqb k' k then (k', l) :: rest else (k', l') :: set rest k l
  end.

(** [new Map(m)]: a new map with the same bindings in the same order. *)
Definition copy (m : t) : t := fold_left (fun acc kl => set acc (fst kl) (snd kl)) m [].

Definition keys (m : t) : list string := map fst m.

(** [[...m.values()]] with every reference read through the heap. *)
Definition values (h : Heap.t) (m : t) : list (option Prompt.t) :=
  map (fun kl => Heap.deref h (snd kl)) m.

(** [[...m.entries()]] read through the heap. *)
Definition entries (h : Heap.t) (m : t) : list (string * option Prompt.t) :=
  map (fun kl => (fst kl, Heap.deref h (snd kl))) m.

(** [m.get(k)] followed by reading the object. *)
Definition lookup (h : Heap.t) (m : t) (k : string) : option Prompt.t :=
  match get m k with
  | Some l => Heap.deref h l
  | None => None
  end.

End JsMap.

(** ** The genre catalogue (entry module) *)

Module Genre.

(** [{text: string, color: string, instruments?: string[]}]: an absent
    [instruments] is [None]. *)
Record t : Type := mk {
  color : string;
  text : string;
  instruments : option (list string)
}.

Definition eqb (a b : t) : bool :=
  String.eqb (color a) (color b) && String.eqb (text a) (text b) &&
  match instruments a, instruments b with
  | Some x, Some y =>
      if list_eq_dec string_dec x y then true else false
  | None, None => true
  | _, _ => false
  end.

End Genre.

Definition GENRE_LIBRARY : list Genre.t := [
  Genre.mk "#9900ff" "Bossa Nova" (Some ["Acoustic Guitar"; "Nylon Strings"; "Piano"; "Flute"]);
  Genre.mk "#5200ff" "Chillwave" (Some ["Synth Pad"; "Soft Lead"; "Drum Machine"]);
  Genre.mk "#ff25f6" "Drum and Bass" (Some ["Sub Bass"; "Reese Bass"; "Sharp Synth"]);
  Genre.mk "#2af6de" "Post Punk" (Some ["Chorus Guitar"; "Driving Bass"; "Lo-fi Drums"]);
  Genre.mk "#ffdd28" "Shoegaze" (Some ["Distorted Guitar"; "Reverb Pad"; "Soft Vocals"]);
  Genre.mk "#2af6de" "Funk" (Some ["Slap Bass"; "Wah Guitar"; "Clavinet"; "Brass"]);
  Genre.mk "#9900ff" "Chiptune" (Some ["Square Wave"; "Pulse Wave"; "Noise Percursion"]);
  Genre.mk "#3dffab" "Lush Strings" (Some ["Cello"; "Violin Section"; "Harp"]);
  Genre.mk "#d8ff3e" "Sparkling Arpeggios" (Some ["Plucked Synth"; "Glockenspiel"; "Celesta"]);
  Genre.mk "#d9b2ff" "Staccato Rhythms" (Some ["Marimba"; "Pizzicato Strings"; "Woodblock"]);
  Genre.mk "#3dffab" "Punchy Kick" (Some ["808 Kick"; "909 Kick"; "Analog Kick"]);
  Genre.mk "#ffdd28" "Dubstep" (Some ["Wobble Bass"; "Gritty Lead"; "Heavy Snares"]);
  Genre.mk "#ff25f6" "K Pop" (Some ["Pop Synth"; "Bright Piano"; "Trap Beats"]);
  Genre.mk "#d8ff3e" "Neo Soul" (Some ["Rhodes Piano"; "Warm Bass"; "Clean Guitar"]);
  Genre.mk "#5200ff" "Trip Hop" (Some ["Jazz Trumpet"; "Vinyl Scratches"; "Upright Bass"]);
  Genre.mk "#d9b2ff" "Thrash" (Some ["Heavy Metal Guitar"; "Double Kick Drums"; "Raw Bass"]);
  Genre.mk "#ff4b2b" "Techno" (Some ["FM Lead"; "Industrial Percussion"; "Acid Synth"]);
  Genre.mk "#00d2ff" "Deep House" (Some ["Soulful Vocal"; "Muted Organ"; "Classic 909"]);
  Genre.mk "#ff0099" "Synthwave" (Some ["DX7 Bell"; "Analog Strings"; "Retro Drums"]);
  Genre.mk "#8e44ad" "Lo-Fi Hip Hop" (Some ["Muted Piano"; "Warm Pad"; "Lazy Drums"]);
  Genre.mk "#2ecc71" "Eurodance" (Some ["Trance Lead"; "Housetrance Piano"; "Snare Roll"]);
  Genre.mk "#34495e" "Grime" (Some ["Squelchy Bass"; "Dirty Lead"; "Aggressive Percussion"]);
  Genre.mk "#f1c40f" "Acid Jazz" (Some ["Hammond Organ"; "Tenor Sax"; "Walking Bass"]);
  Genre.mk "#ff79c6" "Vaporwave" (Some ["Saxophone"; "Pitch-shifted Pad"; "Electric Piano"]);
  Genre.mk "#7f8c8d" "Industrial" (Some ["Distorted Percussion"; "Metallic Pad"; "Noisy Lead"]);
  Genre.mk "#e67e22" "Reggaeton" (Some ["Dembow Rhythm"; "Sub Kick"; "Brass Hits"]);
  Genre.mk "#95a5a6" "Ska" (Some ["Upstroke Guitar"; "Walking Bassline"; "Trombone"]);
  Genre.mk "#ecf0f1" "Gospel" (Some ["Grand Piano"; "B3 Organ"; "Choral Vocals"]);
  Genre.mk "#d35400" "Bluegrass" (Some ["Banjo"; "Mandolin"; "Fiddle"; "Upright Bass"]);
  Genre.mk "#c0392b" "Hardstyle" (Some ["Distorted Kick"; "Screech Lead"; "Rave Pad"]);
  Genre.mk "#1abc9c" "Afrobeat" (Some ["Polyrythmic Drums"; "Funk Guitar"; "Baritone Sax"]);
  Genre.mk "#3498db" "Ambient" (Some ["Shimmer Pad"; "Ethereal Textures"; "Soft Piano"]);
  Genre.mk "#9b59b6" "Garage" (Some ["Skippy Beats"; "Warped Vocal"; "Organ Bass"]);
  Genre.mk "#f39c12" "Disco" (Some ["String Section"; "Octave Bass"; "Cowbell"]);
  Genre.mk "#e74c3c" "Heavy Metal" (Some ["Overdriven Guitar"; "Power Bass"; "Aggressive Drums"]);
  Genre.mk "#bdc3c7" "Minimal" (Some ["Clockwork Percussion"; "Sine Bass"; "Clicky Snares"]);
  Genre.mk "#2c3e50" "Trap" (Some ["Rapid Hats"; "Boomy 808"; "Dark Pluck"]);
  Genre.mk "#f1c40f" "Ragtime" (Some ["Honky Tonk Piano"; "Tack Piano"; "Banjo"])
].

(** Stands for [undefined] where an array is read; never reached, since
    the index [i % GENRE_LIBRARY.length] is always in range. *)
Definition noGenre : Genre.t := Genre.mk "" "" None.

(** ** [buildInitialPrompts] (entry module) *)

(** The object literal built by the loop body for slot [i].
    [startOn.includes(genre)] compares object references; the catalogue's
    entries are pairwise different records ([GENRE_LIBRARY_NoDup] below), so
    comparing the records gives the same answer. *)
Definition initialPrompt (startOn : list Genre.t) (i : nat) : Prompt.t :=
  let promptId := ("prompt-" ++ Js.toString i)%string in
  let genre := nth (i mod List.length GENRE_LIBRARY) GENRE_LIBRARY noGenre in
  Prompt.mk
    promptId
    (Genre.text genre)
    (if existsb (fun g => Genre.eqb g genre) startOn then 1%float else 0%float)
    (Z.of_nat i)
    (Genre.color genre)
    0.5%float
    (match Genre.instruments genre with Some l => l | None => [] end)
    (match Genre.instruments genre with Some l => hd_error l | None => None end).

(** [shuffled] is the array that
    [[...GENRE_LIBRARY].sort(() => Math.random() - 0.5)] returns: some
    rearrangement of the catalogue, chosen by the random comparator. The
    function returns the objects it allocated and the map that refers to
    them. *)
Definition buildInitialPrompts (shuffled : list Genre.t) : Heap.t * JsMap.t :=
  let startOn := firstn 3 shuffled in
  fold_left
    (fun (acc : Heap.t * JsMap.t) (i : nat) =>
       let '(h, prompts) := acc in
       let p := initialPrompt startOn i in
       let '(h', l) := Heap.alloc h p in
       (h', JsMap.set prompts (Prompt.promptId p) l))
    (seq 0 16) (Heap.empty, []).

(** ** [PromptDjMidi] ([components/PromptDjMidi]) *)

Module PromptDjMidi.

Record state : Type := mk {
  prompts : JsMap.t;
  showMidi : bool;
  playbackState : PlaybackState;
  audioLevel : float;
  tempoBpm : Js.number;
  filteredPrompts : list string
}.

(** Events the element dispatches to its listeners. *)
Inductive event : Type :=
| prompts_changed : JsMap.t -> event
| tempo_changed : Js.number -> event
| play_pause : event
| error : string -> event.

(** The constructor: the element keeps the very map it is given. *)
Definition new (initialPrompts : JsMap.t) : state :=
  mk initialPrompts false stopped 0%float (Js.Int 120) [].

Definition with_prompts (st : state) (m : JsMap.t) : state :=
  mk m (showMidi st) (playbackState st) (audioLevel st) (tempoBpm st)
     (filteredPrompts st).

Definition with_tempoBpm (st : state) (v : Js.number) : state :=
  mk (prompts st) (showMidi st) (playbackState st) (audioLevel st) v
     (filteredPrompts st).

Definition with_filteredPrompts (st : state) (s : list string) : state :=
  mk (prompts st) (showMidi st) (playbackState st) (audioLevel st)
     (tempoBpm st) s.

Definition with_playbackState (st : state) (p : PlaybackState) : state :=
  mk (prompts st) (showMidi st) p (audioLevel st) (tempoBpm st)
     (filteredPrompts st).

Definition with_audioLevel (st : state) (v : float) : state :=
  mk (prompts st) (showMidi st) (playbackState st) v (tempoBpm st)
     (filteredPrompts st).

(** [handlePromptChanged(e)], with [detail = e.detail]:
<<
    const prompt = this.prompts.get(promptId);
    if (!prompt) return;
    Object.assign(prompt, detail);
    const newPrompts = new Map(this.prompts);
    newPrompts.set(promptId, { ...prompt });
    this.prompts = newPrompts;
    this.dispatchEvent(new CustomEvent('prompts-changed', { detail: this.prompts }));
>>
    The stored object is mutated in place, then copied into a fresh object
    that the new map binds to the key. *)
Definition handlePromptChanged (h : Heap.t) (st : state) (detail : Prompt.t)
  : Heap.t * state * list event :=
  let promptId := Prompt.promptId detail in
  match JsMap.get (prompts st) promptId with
  | None => (h, st, [])
  | Some l =>
      match Heap.deref h l with
      | None => (h, st, [])
      | Some prompt =>
          let prompt' := Prompt.assign prompt detail in
          let h1 := Heap.store h l prompt' in
          let newPrompts := JsMap.copy (prompts st) in
          let '(h2, l') := Heap.alloc h1 prompt' in
          let newPrompts := JsMap.set newPrompts promptId l' in
          (h2, with_prompts st newPrompts, [prompts_changed newPrompts])
      end
  end.

(** In [render]:
    [<input id="tempo-slider" type="range" min="60" max="200" ...>]. *)
Definition tempoSlider : RangeInput.t := RangeInput.mk 0 60 200 1.

(** [handleTempoInput(e)], with [value = e.target.value]. *)
Definition handleTempoInput (st : state) (value : string)
  : state * list event :=
  let val := Js.parseInt value in
  (with_tempoBpm st val, [tempo_changed val]).

(** [handleInstrumentChange(promptId, event)], with
    [value = event.target.value]: the stored object is assigned to in
    place and then passed, itself, as the detail of a prompt-changed
    event. *)
Definition handleInstrumentChange (h : Heap.t) (st : state)
    (promptId value : string) : Heap.t * state * list event :=
  match JsMap.get (prompts st) promptId with
  | None => (h, st, [])
  | Some l =>
      match Heap.deref h l with
      | None => (h, st, [])
      | Some prompt =>
          let prompt' := Prompt.setSelectedInstrument prompt value in
          let h1 := Heap.store h l prompt' in
          handlePromptChanged h1 st prompt'
      end
  end.

(** [new Set([...s, x])]: [x] is added unless it is there already. *)
Definition Set_add (s : list string) (x : string) : list string :=
  if existsb (String.eqb x) s then s else s ++ [x].

(** [addFilteredPrompt(prompt)]. *)
Definition addFilteredPrompt (st : state) (prompt : string) : state :=
  with_filteredPrompts st (Set_add (filteredPrompts st) prompt).

End PromptDjMidi.

(** ** [PromptController] ([components/PromptController]) *)

Module PromptController.

(** The [ControlChange] detail of a [cc-message] event. *)
Record ControlChange : Type := mkCC {
  cc_channel : Z;
  cc_cc : Z;
  cc_value : Z
}.

Record state : Type := mk {
  promptId : string;
  text : string;
  weight : float;
  color : string;
  density : float;
  instruments : list string;
  selectedInstrument : string;
  filtered : bool;
  cc : Z;
  channel : Z;
  learnMode : bool;
  showCC : bool;
  audioLevel : float
}.

Definition with_weight (st : state) (w : float) : state :=
  mk (promptId st) (text st) w (color st) (density st) (instruments st)
     (selectedInstrument st) (filtered st) (cc st) (channel st)
     (learnMode st) (showCC st) (audioLevel st).

Definition with_density (st : state) (d : float) : state :=
  mk (promptId st) (text st) (weight st) (color st) d (instruments st)
     (selectedInstrument st) (filtered st) (cc st) (channel st)
     (learnMode st) (showCC st) (audioLevel st).

(** [this.cc = cc; this.channel = channel; this.learnMode = false]. *)
Definition learn (st : state) (c ch : Z) : state :=
  mk (promptId st) (text st) (weight st) (color st) (density st)
     (instruments st) (selectedInstrument st) (filtered st) c ch
     false (showCC st) (audioLevel st).

(** The detail of the [prompt-changed] event that [dispatchPromptChange]
    builds: all eight properties of a [Prompt]. *)
Definition dispatchPromptChange (st : state) : Prompt.t :=
  Prompt.mk (promptId st) (text st) (weight st) (cc st) (color st)
            (density st) (instruments st) (Some (selectedInstrument st)).

(** [(value / 127) * 2] in binary64. *)
Definition ccWeight (value : Z) : float :=
  ((Js.float_of_Z value / 127) * 2)%float.

(** The [cc-message] listener installed by [connectedCallback]; the
    second component is the list of [prompt-changed] details dispatched. *)
Definition onCcMessage (st : state) (m : ControlChange)
  : state * list Prompt.t :=
  if learnMode st then
    let st' := learn st (cc_cc m) (cc_channel m) in
    (st', [dispatchPromptChange st'])
  else if (cc_cc m =? cc st)%Z then
    let st' := with_weight st (ccWeight (cc_value m)) in
    (st', [dispatchPromptChange st'])
  else (st, []).


(** In [render]:
    [<input type="range" min="0" max="1" step="0.05" ...>]. *)
Definition densitySlider : RangeInput.t := RangeInput.mk 2 0 100 5.

(** [handleDensityChange(e)], with [value = e.target.value]. *)
Definition handleDensityChange (st : state) (value : string)
  : state * list Prompt.t :=
  let st' := with_density st (Js.parseFloat value) in
  (st', [dispatchPromptChange st']).

End PromptController.

(** ** Collaborators of [main] that are outside the embedded sources *)

Module AudioAnalyser.

(** Modelled from the spec: [utils/AudioAnalyser] is not among the
    sources. The design document says of the level analyzer that
    [start()]/[stop()] are idempotent; the analyser is modelled by whether
    its sampling loop is running. *)
Record t : Type := mk { running : bool }.

(** Modelled from the spec: the analyser is created idle. *)
Definition new : t := mk false.

(** Modelled from the spec: [start()] is idempotent; the loop runs
    afterwards whether or not it ran before. *)
Definition start (a : t) : t := mk true.

(** Modelled from the spec: [stop()] is idempotent; the loop does not run
    afterwards whether or not it ran before. *)
Definition stop (a : t) : t := mk false.

(** Calls made on the analyser, recorded by the embedding of [main]. *)
Inductive call : Type := call_start | call_stop.

Definition is_start (c : call) : bool :=
  match c with call_start => true | call_stop => false end.

Definition is_stop (c : call) : bool :=
  match c with call_start => false | call_stop => true end.

End AudioAnalyser.

Module LiveMusicHelper.

(** One prompt update as the remote service receives it: the entries of
    the weighted prompt set, by key. *)
Definition update : Type := list (string * Prompt.t).

(** Modelled from the spec: [utils/LiveMusicHelper] is not among the
    sources. The design document says that every key present in the set
    has a corresponding entry sent to the remote service exactly once per
    logical update and that entries with weight 0 are still transmitted:
    the update built from a map holds one entry per binding, whatever its
    weight. *)
Definition updatePrompts (h : Heap.t) (m : JsMap.t) : update :=
  flat_map
    (fun kl =>
       match Heap.deref h (snd kl) with
       | Some p => [(fst kl, p)]
       | None => []
       end) m.

(** Modelled from the spec: the helper as [main] sees it, [utils/LiveMusicHelper]
    not being among the sources: the map and tempo it was last given, the
    updates it was asked to forward, and the number of [playPause()]
    calls. *)
Record t : Type := mk {
  weightedPrompts : JsMap.t;
  tempoBpm : option Js.number;
  updates : list update;
  playPauseCalls : nat
}.

Definition new : t := mk [] None [] 0.

Definition setWeightedPrompts (h : Heap.t) (lm : t) (m : JsMap.t) : t :=
  mk m (tempoBpm lm) (updates lm ++ [updatePrompts h m]) (playPauseCalls lm).

Definition set_tempoBpm (lm : t) (v : Js.number) : t :=
  mk (weightedPrompts lm) (Some v) (updates lm) (playPauseCalls lm).

Definition playPause (lm : t) : t :=
  mk (weightedPrompts lm) (tempoBpm lm) (updates lm) (S (playPauseCalls lm)).

End LiveMusicHelper.

(** ** [main] (entry module): the wiring of the listeners *)

Module PromptDjMidiAccess.

(** The grid together with the two fields that [setShowMidi] writes
    besides [showMidi]. *)
Record t : Type := mk {
  grid : PromptDjMidi.state;
  midiInputIds : list string;
  activeMidiInputId : option string
}.

(** How [await this.midiDispatcher.getMidiAccess()] ends: with the input
    ids and the dispatcher's active input id, or with an exception and
    its message. [utils/MidiDispatcher] is not among the sources: the
    outcome is an argument of the embedding. *)
Inductive access : Type :=
| granted : list string -> option string -> access
| denied : string -> access.

Definition with_showMidi (st : PromptDjMidi.state) (b : bool)
  : PromptDjMidi.state :=
  PromptDjMidi.mk (PromptDjMidi.prompts st) b (PromptDjMidi.playbackState st)
                  (PromptDjMidi.audioLevel st) (PromptDjMidi.tempoBpm st)
                  (PromptDjMidi.filteredPrompts st).

(** [setShowMidi(show)], from the call to the end of its [try]/[catch],
    given the outcome of the request for MIDI access (not made when
    [show] is false). *)
Definition setShowMidi (g : t) (show : bool) (outcome : access)
  : t * list PromptDjMidi.event :=
  let g1 := mk (with_showMidi (grid g) show) (midiInputIds g)
               (activeMidiInputId g) in
  if negb show then (g1, [])
  else
    match outcome with
    | granted inputIds active => (mk (grid g1) inputIds active, [])
    | denied message =>
        (mk (with_showMidi (grid g1) false) (midiInputIds g1)
            (activeMidiInputId g1),
         [PromptDjMidi.error message])
    end.

End PromptDjMidiAccess.

Module Main.

(** [LiveMusicFilteredPrompt]: the text of the prompt and the reason the
    service gave. *)
Record FilteredPrompt : Type := mkFiltered {
  fp_text : string;
  filteredReason : string
}.

(** The objects [main] creates. [toastMessage] is the list of messages
    passed to [ToastMessage.show], oldest first; [analyserCalls] is the
    list of calls made on the analyser, oldest first. *)
Record app : Type := mk {
  heap : Heap.t;
  pdjMidi : PromptDjMidi.state;
  toastMessage : list string;
  liveMusicHelper : LiveMusicHelper.t;
  audioAnalyser : AudioAnalyser.t;
  analyserCalls : list AudioAnalyser.call
}.

(** What can happen to the application: the events of the page and of the
    helper that [main] or [PromptDjMidi] listens to, and a call of
    [setShowMidi] (the MIDI button calls it with [!this.showMidi]) with
    the outcome of its request for MIDI access. *)
Inductive input : Type :=
| prompt_changed : Prompt.t -> input
| instrument_change : string -> string -> input
| tempo_input : string -> input
| play_pause_click : input
| playback_state_changed : PlaybackState -> input
| filtered_prompt : FilteredPrompt -> input
| helper_error : string -> input
| audio_level_changed : float -> input
| show_midi : bool -> PromptDjMidiAccess.access -> input.

Definition with_pdjMidi (a : app) (h : Heap.t) (p : PromptDjMidi.state) : app :=
  mk h p (toastMessage a) (liveMusicHelper a) (audioAnalyser a)
     (analyserCalls a).

Definition with_helper (a : app) (lm : LiveMusicHelper.t) : app :=
  mk (heap a) (pdjMidi a) (toastMessage a) lm (audioAnalyser a)
     (analyserCalls a).

(** Modelled from the spec: [toastMessage.show(msg)], [components/ToastMessage]
    not being among the sources: the message is shown, that is, recorded. *)
Definition toast_show (a : app) (msg : string) : app :=
  mk (heap a) (pdjMidi a) (toastMessage a ++ [msg]) (liveMusicHelper a)
     (audioAnalyser a) (analyserCalls a).

(** The listeners [main] adds to [pdjMidi]. *)
Definition on_pdj_event (a : app) (e : PromptDjMidi.event) : app :=
  match e with
  | PromptDjMidi.prompts_changed prompts =>
      with_helper a
        (LiveMusicHelper.setWeightedPrompts (heap a) (liveMusicHelper a) prompts)
  | PromptDjMidi.tempo_changed v =>
      with_helper a (LiveMusicHelper.set_tempoBpm (liveMusicHelper a) v)
  | PromptDjMidi.play_pause =>
      with_helper a (LiveMusicHelper.playPause (liveMusicHelper a))
  | PromptDjMidi.error msg => toast_show a msg
  end.

(** The [playback-state-changed] listener:
<<
    pdjMidi.playbackState = playbackState;
    playbackState === 'playing' ? audioAnalyser.start() : audioAnalyser.stop();
>> *)
Definition on_playback_state_changed (a : app) (playbackState : PlaybackState)
  : app :=
  let p := PromptDjMidi.with_playbackState (pdjMidi a) playbackState in
  if PlaybackState_eqb playbackState playing then
    mk (heap a) p (toastMessage a) (liveMusicHelper a)
       (AudioAnalyser.start (audioAnalyser a))
       (analyserCalls a ++ [AudioAnalyser.call_start])
  else
    mk (heap a) p (toastMessage a) (liveMusicHelper a)
       (AudioAnalyser.stop (audioAnalyser a))
       (analyserCalls a ++ [AudioAnalyser.call_stop]).

(** The [filtered-prompt] listener:
<<
    toastMessage.show(filteredPrompt.filteredReason!)
    pdjMidi.addFilteredPrompt(filteredPrompt.text!);
>> *)
Definition on_filtered_prompt (a : app) (filteredPrompt : FilteredPrompt) : app :=
  let a1 := toast_show a (filteredReason filteredPrompt) in
  with_pdjMidi a1 (heap a1)
    (PromptDjMidi.addFilteredPrompt (pdjMidi a1) (fp_text filteredPrompt)).

(** One turn of the event loop. The application state keeps of the grid
    what [main] and the grid's own listeners read; the list of MIDI
    inputs that [setShowMidi] also stores is not part of it. *)
Definition step (a : app) (i : input) : app :=
  match i with
  | prompt_changed detail =>
      let '(h, p, evs) :=
        PromptDjMidi.handlePromptChanged (heap a) (pdjMidi a) detail in
      fold_left on_pdj_event evs (with_pdjMidi a h p)
  | instrument_change promptId value =>
      let '(h, p, evs) :=
        PromptDjMidi.handleInstrumentChange (heap a) (pdjMidi a) promptId value in
      fold_left on_pdj_event evs (with_pdjMidi a h p)
  | tempo_input value =>
      let '(p, evs) := PromptDjMidi.handleTempoInput (pdjMidi a) value in
      fold_left on_pdj_event evs (with_pdjMidi a (heap a) p)
  | play_pause_click => on_pdj_event a PromptDjMidi.play_pause
  | playback_state_changed s => on_playback_state_changed a s
  | filtered_prompt n => on_filtered_prompt a n
  | helper_error msg => toast_show a msg
  | audio_level_changed level =>
      with_pdjMidi a (heap a) (PromptDjMidi.with_audioLevel (pdjMidi a) level)
  | show_midi show outcome =>
      let r := PromptDjMidiAccess.setShowMidi
                 (PromptDjMidiAccess.mk (pdjMidi a) [] None) show outcome in
      fold_left on_pdj_event (snd r)
        (with_pdjMidi a (heap a) (PromptDjMidiAccess.grid (fst r)))
  end.

Definition run (a : app) (inputs : list input) : app := fold_left step inputs a.

(** The state [main] leaves behind: the initial prompts are built, given
    to the grid and to the helper; the analyser is created, not started. *)
Definition main (shuffled : list Genre.t) : app :=
  let '(h, initialPrompts) := buildInitialPrompts shuffled in
  let pdjMidi := PromptDjMidi.new initialPrompts in
  let liveMusicHelper :=
    LiveMusicHelper.setWeightedPrompts h LiveMusicHelper.new initialPrompts in
  mk h pdjMidi [] liveMusicHelper AudioAnalyser.new [].

End Main.

(** ** The rate limiter between the edits and the stream session *)

Module RateLimiter.

Section Limiter.

Variable V : Type.

(** The rate-limit interval (minimum time between forwarded updates), in
    milliseconds. *)
Variable interval : nat.

(** Modelled from the spec: [utils/throttle] and the helper that applies
    it to [setWeightedPrompts] are not among the sources. The design
    document describes a rate limiter holding only the most recent pending
    value and a scheduled flush: the state is the pending value with the
    time its flush is scheduled for, or nothing. *)
Definition t : Type := option (nat * V).

Definition idle : t := None.

(** An edit or a forwarded update: a time in milliseconds and a value. *)
Definition timed : Type := (nat * V)%type.

(** Modelled from the spec: the scheduled flush, looked at when the clock
    shows [now]: a pending value whose time has come is forwarded. *)
Definition flush (now : nat) (s : t) : t * list timed :=
  match s with
  | Some (due, v) => if due <=? now then (None, [(due, v)]) else (s, [])
  | None => (s, [])
  end.

(** Modelled from the spec: an edit at time [now]. A flush that is due
    runs first. The edit then replaces the pending value (an update
    superseded before being sent is dropped); with nothing pending it
    opens a window and schedules the flush one interval later. *)
Definition set (now : nat) (v : V) (s : t) : t * list timed :=
  let '(s1, out) := flush now s in
  match s1 with
  | Some (due, _) => (Some (due, v), out)
  | None => (Some (now + interval, v), out)
  end.

(** A sequence of timed edits, oldest first. *)
Fixpoint run (s : t) (edits : list timed) : t * list timed :=
  match edits with
  | [] => (s, [])
  | (now, v) :: rest =>
      let '(s1, o1) := set now v s in
      let '(s2, o2) := run s1 rest in
      (s2, o1 ++ o2)
  end.

(** After the last edit the scheduled flush still runs. *)
Definition drain (s : t) : list timed :=
  match s with
  | Some (due, v) => [(due, v)]
  | None => []
  end.

(** Everything that reaches the stream session, oldest first. *)
Definition forwarded_from (s : t) (edits : list timed) : list timed :=
  let '(s', out) := run s edits in out ++ drain s'.

Definition forwarded (edits : list timed) : list timed :=
  forwarded_from idle edits.

(** *** The intervals, in the design document's words

    The edits are cut into rate-limit intervals: an interval starts with
    the first edit that no earlier interval holds and takes the edits made
    less than [interval] milliseconds after it. *)

Fixpoint takeWindow (due : nat) (edits : list timed)
  : list timed * list timed :=
  match edits with
  | [] => ([], [])
  | (now, v) :: rest =>
      if now <? due then
        let '(w, r) := takeWindow due rest in ((now, v) :: w, r)
      else ([], edits)
  end.

(** An interval: the time it closes at and the values set in it, oldest
    first. [fuel] bounds the number of intervals. *)
Fixpoint windows (fuel : nat) (edits : list timed) : list (nat * list V) :=
  match fuel, edits with
  | S fuel', (now, v) :: rest =>
      let '(w, r) := takeWindow (now + interval) rest in
      (now + interval, v :: map snd w) :: windows fuel' r
  | _, _ => []
  end.

Definition intervals (edits : list timed) : list (nat * list V) :=
  windows (List.length edits) edits.

(** The last value set in an interval; [d] when there is none. *)
Definition lastValue (d : V) (w : nat * list V) : V := last (snd w) d.

End Limiter.

Arguments idle {V}.
Arguments flush {V} now s.
Arguments set {V} interval now v s.
Arguments run {V} interval s edits.
Arguments drain {V} s.
Arguments forwarded_from {V} interval s edits.
Arguments forwarded {V} interval edits.
Arguments takeWindow {V} due edits.
Arguments windows {V} interval fuel edits.
Arguments intervals {V} interval edits.
Arguments lastValue {V} d w.

(** [Subseq l1 l2]: [l1] is [l2] with some elements left out, the others
    in their order. *)
Inductive Subseq {A : Type} : list A -> list A -> Prop :=
| Subseq_nil : Subseq [] []
| Subseq_skip : forall x l1 l2, Subseq l1 l2 -> Subseq l1 (x :: l2)
| Subseq_take : forall x l1 l2, Subseq l1 l2 -> Subseq (x :: l1) (x :: l2).

End RateLimiter.

(** ** The playback scheduler *)

Module PlaybackScheduler.

Section Scheduler.

Variable Chunk : Type.

(** The buffering threshold: playback starts once this many chunks are
    buffered. *)
Variable threshold : nat.

(** Modelled from the spec: the scheduler lives in [utils/LiveMusicHelper],
    which is not among the sources. The design document gives its state
    machine and its underrun policy: the published state, the ordered
    buffer of chunks not played yet, and whether the output is currently
    starved. *)
Record t : Type := mk {
  state : PlaybackState;
  buffer : list Chunk;
  starving : bool
}.

Inductive event : Type :=
| enqueue : Chunk -> event
| clock : event
| pause : event
| resume : event
| stop : event.

Inductive output : Type :=
| audio : Chunk -> output
| silence : output
| UnderrunDiagnostic : output.

(** Modelled from the spec: one event of the scheduler. [enqueue]
    appends to the buffer and starts playback once the threshold is
    met; [clock] is the audio clock asking for the next chunk: with an
    empty buffer while [playing] the scheduler holds the state, plays
    silence, and reports the underrun when the starvation begins;
    [pause] keeps the buffer; [stop] discards it. *)
Definition step (s : t) (e : event) : t * list output :=
  match e with
  | enqueue c =>
      match state s with
      | stopped => (s, [])
      | loading =>
          let b := buffer s ++ [c] in
          if threshold <=? List.length b
          then (mk playing b (starving s), [])
          else (mk loading b (starving s), [])
      | st => (mk st (buffer s ++ [c]) (starving s), [])
      end
  | clock =>
      match state s with
      | playing =>
          match buffer s with
          | c :: rest => (mk playing rest false, [audio c])
          | [] =>
              if starving s then (s, [silence])
              else (mk playing [] true, [UnderrunDiagnostic; silence])
          end
      | _ => (s, [])
      end
  | pause =>
      match state s with
      | playing => (mk paused (buffer s) (starving s), [])
      | _ => (s, [])
      end
  | resume =>
      match state s with
      | paused => (mk playing (buffer s) (starving s), [])
      | _ => (s, [])
      end
  | stop => (mk stopped [] false, [])
  end.

Fixpoint run (s : t) (es : list event) : t * list output :=
  match es with
  | [] => (s, [])
  | e :: rest =>
      let '(s1, o1) := step s e in
      let '(s2, o2) := run s1 rest in
      (s2, o1 ++ o2)
  end.

Definition is_diagnostic (o : output) : bool :=
  match o with UnderrunDiagnostic => true | _ => false end.

Definition diagnostics (os : list output) : nat :=
  List.length (filter is_diagnostic os).

(** Starvation episodes heard in an output: the maximal runs of silence.
    [inSilence] tells whether the output is continuing a run. *)
Fixpoint episodes (inSilence : bool) (os : list output) : nat :=
  match os with
  | [] => 0
  | silence :: rest => (if inSilence then 0 else 1) + episodes true rest
  | audio _ :: rest => episodes false rest
  | UnderrunDiagnostic :: rest => episodes inSilence rest
  end.

(** The events the scheduler meets without the user: chunks arriving and
    the clock. *)
Definition autonomous (e : event) : bool :=
  match e with
  | enqueue _ | clock => true
  | _ => false
  end.

End Scheduler.

Arguments mk {Chunk} state buffer starving.
Arguments state {Chunk} t.
Arguments buffer {Chunk} t.
Arguments starving {Chunk} t.
Arguments enqueue {Chunk} c.
Arguments clock {Chunk}.
Arguments pause {Chunk}.
Arguments resume {Chunk}.
Arguments stop {Chunk}.
Arguments audio {Chunk} c.
Arguments silence {Chunk}.
Arguments UnderrunDiagnostic {Chunk}.
Arguments step {Chunk} threshold s e.
Arguments run {Chunk} threshold s es.
Arguments is_diagnostic {Chunk} o.
Arguments diagnostics {Chunk} os.
Arguments episodes {Chunk} inSilence os.
Arguments autonomous {Chunk} e.

End PlaybackScheduler.

(** ** The reconnect policy and its use by the orchestrator *)

Module ReconnectPolicy.

Section Policy.

(** Base delay, cap and maximum attempt count (the configuration). *)
Variables base cap : Q.
Variable maxAttempts : nat.

(** Modelled from the spec: no reconnect code is among the sources. The
    design document gives the policy as a pure function of the attempt
    count: delay = base * 2^attempt, capped at a maximum, plus random
    jitter in [0, delay*0.25]. [backoff] is the delay without jitter. *)
Definition backoff (attempt : nat) : Q :=
  Qmin (base * inject_Z (2 ^ Z.of_nat attempt)) cap.

(** Modelled from the spec: the jitter drawn for a delay [d] from a random
    sample [r] of [0,1], a fraction [r] of [d*0.25]. *)
Definition jitter (d r : Q) : Q := r * (d * (1 # 4)).

(** Modelled from the spec: the delay with its jitter. *)
Definition delay (attempt : nat) (r : Q) : Q :=
  backoff attempt + jitter (backoff attempt) r.

(** Modelled from the spec: shouldRetry is false once the attempt count
    exceeds the configured maximum. *)
Definition shouldRetry (attempt : nat) : bool := attempt <=? maxAttempts.

End Policy.

End ReconnectPolicy.

Module PlaybackOrchestrator.

Section Orchestrator.

Variables base cap : Q.
Variable maxAttempts : nat.

(** Modelled from the spec: the orchestrator's handling of stream errors.
    It owns the playback state and the count of reconnect attempts made
    since playback was last sustained. *)
Record t : Type := mk {
  playbackState : PlaybackState;
  attempts : nat
}.

(** [stream_error r]: the session reports an error or closes; [r] is the
    random sample for the jitter. [connected]: a reconnect succeeded.
    [sustained]: playback outlived the grace period. *)
Inductive event : Type :=
| stream_error : Q -> event
| connected : event
| sustained : event.

Inductive output : Type :=
| reconnect_after : Q -> output
| fatal_error : output.

(** Modelled from the spec: on an error the policy is consulted with the
    attempt count: retry after the delay, or stop and surface a fatal
    error. Once stopped the session is torn down and nothing more is
    handled. *)
Definition step (o : t) (e : event) : t * list output :=
  match playbackState o with
  | stopped => (o, [])
  | st =>
      match e with
      | stream_error r =>
          if ReconnectPolicy.shouldRetry maxAttempts (attempts o) then
            (mk loading (S (attempts o)),
             [reconnect_after (ReconnectPolicy.delay base cap (attempts o) r)])
          else (mk stopped (attempts o), [fatal_error])
      | connected =>
          match st with
          | loading => (mk playing (attempts o), [])
          | _ => (o, [])
          end
      | sustained =>
          match st with
          | playing => (mk playing 0, [])
          | _ => (o, [])
          end
      end
  end.

Fixpoint run (o : t) (es : list event) : t * list output :=
  match es with
  | [] => (o, [])
  | e :: rest =>
      let '(o1, out1) := step o e in
      let '(o2, out2) := run o1 rest in
      (o2, out1 ++ out2)
  end.

Definition is_fatal (x : output) : bool :=
  match x with fatal_error => true | _ => false end.

Definition fatals (xs : list output) : nat :=
  List.length (filter is_fatal xs).

End Orchestrator.

End PlaybackOrchestrator.

(** ** Vocabulary of the statements *)

(** The sixteen slot ids, in slot order. *)
Definition slotIds : list string :=
  map (fun i => ("prompt-" ++ Js.toString i)%string) (seq 0 16).

(** The genre that slot [i] starts with. *)
Definition slotGenre (i : nat) : Genre.t :=
  nth (i mod List.length GENRE_LIBRARY) GENRE_LIBRARY noGenre.

(** [weight === 1] on a stored object. *)
Definition isOn (o : option Prompt.t) : bool :=
  match o with
  | Some p => PrimFloat.eqb (Prompt.weight p) 1
  | None => false
  end.

(** Number of entries of a map whose weight is 1. *)
Definition onCount (h : Heap.t) (m : JsMap.t) : nat :=
  List.length (filter isOn (JsMap.values h m)).

(** A decision procedure for lists of strings without repetition. *)
Fixpoint nodupb (l : list string) : bool :=
  match l with
  | [] => true
  | x :: rest => negb (existsb (String.eqb x) rest) && nodupb rest
  end.

(** The invariant of the prompt map: keys are unique, no two keys share an
    object, and every reference is allocated. *)
Definition wf (h : Heap.t) (m : JsMap.t) : Prop :=
  NoDup (JsMap.keys m) /\
  NoDup (map snd m) /\
  Forall (fun kl => snd kl < List.length h) m.

(** What holds of the application after any inputs: the prompt map is
    well formed, its keys are the sixteen slot ids, and every update
    handed to the helper has exactly those keys. *)
Definition app_inv (a : Main.app) : Prop :=
  wf (Main.heap a) (PromptDjMidi.prompts (Main.pdjMidi a)) /\
  JsMap.keys (PromptDjMidi.prompts (Main.pdjMidi a)) = slotIds /\
  LiveMusicHelper.updates (Main.liveMusicHelper a) <> [] /\
  Forall (fun u => map fst u = slotIds)
         (LiveMusicHelper.updates (Main.liveMusicHelper a)).

(** A concrete state of the prompt map owner: the one [main] builds when
    the shuffle returns the catalogue in its own order. *)
Definition sampleHeap : Heap.t := fst (buildInitialPrompts GENRE_LIBRARY).

Definition sampleGrid : PromptDjMidi.state :=
  PromptDjMidi.new (snd (buildInitialPrompts GENRE_LIBRARY)).

(** A prompt-changed detail for slot 3: its weight turned up to 1.5. *)
Definition sampleDetail : Prompt.t :=
  Prompt.mk "prompt-3" "Post Punk" 1.5%float 3%Z "#2af6de" 0.5%float
            ["Chorus Guitar"; "Driving Bass"; "Lo-fi Drums"]
            (Some "Chorus Guitar").

(** [start()] calls and [stop()] calls among the calls made. *)
Definition starts (cs : list AudioAnalyser.call) : nat :=
  List.length (filter AudioAnalyser.is_start cs).

Definition stops (cs : list AudioAnalyser.call) : nat :=
  List.length (filter AudioAnalyser.is_stop cs).

(** Transitions into and out of [playing] along the states published
    after [prev]. *)
Fixpoint transitionsInto (prev : PlaybackState) (ss : list PlaybackState) : nat :=
  match ss with
  | [] => 0
  | s :: rest =>
      (if negb (PlaybackState_eqb prev playing) && PlaybackState_eqb s playing
       then 1 else 0) + transitionsInto s rest
  end.

Fixpoint transitionsOutOf (prev : PlaybackState) (ss : list PlaybackState) : nat :=
  match ss with
  | [] => 0
  | s :: rest =>
      (if PlaybackState_eqb prev playing && negb (PlaybackState_eqb s playing)
       then 1 else 0) + transitionsOutOf s rest
  end.

(** Published states that are [playing], and those that are not. *)
Definition playingEvents (ss : list PlaybackState) : nat :=
  List.length (filter (fun s => PlaybackState_eqb s playing) ss).

Definition otherEvents (ss : list PlaybackState) : nat :=
  List.length (filter (fun s => negb (PlaybackState_eqb s playing)) ss).

(** The playback states among the inputs, in order. *)
Definition published (inputs : list Main.input) : list PlaybackState :=
  flat_map (fun i => match i with
                     | Main.playback_state_changed s => [s]
                     | _ => []
                     end) inputs.

(** The tempo range of the configuration surface, [60,200] BPM. *)
Definition tempoInRange (n : Js.number) : bool :=
  match n with
  | Js.Int z => ((60 <=? z) && (z <=? 200))%Z
  | _ => false
  end.

(** [0 <= w <= 2] in binary64. *)
Definition weightInRange (w : float) : bool :=
  PrimFloat.leb 0 w && PrimFloat.leb w 2.



(** A slot bound to controller 3, learn mode off. *)
Definition sampleController : PromptController.state :=
  PromptController.mk "prompt-3" "Post Punk" 0%float "#2af6de" 0.5%float
    ["Chorus Guitar"; "Driving Bass"; "Lo-fi Drums"] "Chorus Guitar"
    false 3%Z 0%Z false true 0%float.

(** ** Further code of the same modules *)

Module JsText.

(** [s.split(sep)] for a one-character separator: the pieces between the
    occurrences of [sep], at least one piece. *)
Fixpoint split (sep : ascii) (s : string) : list string :=
  match s with
  | EmptyString => [EmptyString]
  | String c rest =>
      if Ascii.eqb c sep then EmptyString :: split sep rest
      else match split sep rest with
           | piece :: pieces => String c piece :: pieces
           | [] => [String c EmptyString]
           end
  end.

(** [parseInt(x)] where [x] may be [undefined]: the argument is first
    converted to a string. *)
Definition parseIntOf (x : option string) : Js.number :=
  match x with
  | Some s => Js.parseInt s
  | None => Js.parseInt "undefined"
  end.

(** [a + b] on these values: the Number value for the sum of two finite
    values, +0 unless both are -0 when the sum is zero. *)
Definition add (a b : Js.number) : Js.number :=
  match a, b with
  | Js.NaN, _ | _, Js.NaN => Js.NaN
  | Js.Infinity s, Js.Infinity t =>
      if Bool.eqb s t then Js.Infinity s else Js.NaN
  | Js.Infinity s, _ | _, Js.Infinity s => Js.Infinity s
  | Js.NegZero, Js.NegZero => Js.NegZero
  | Js.NegZero, Js.Int y => Js.Int y
  | Js.Int x, Js.NegZero => Js.Int x
  | Js.Int x, Js.Int y => Js.ofZ (x + y)
  end.

(** [!s] for a string: true exactly for the empty string. *)
Definition isEmpty (s : string) : bool :=
  match s with EmptyString => true | _ => false end.

(** [s.trimEnd()]: the string up to the first place from which only
    white-space characters follow. *)
Fixpoint trimEnd (s : string) : string :=
  match s with
  | EmptyString => EmptyString
  | String c rest =>
      if isEmpty (Js.trimStart s) then EmptyString
      else String c (trimEnd rest)
  end.

(** [s.trim()]. *)
Definition trim (s : string) : string := trimEnd (Js.trimStart s).

End JsText.

Module PromptDjMidiView.

(** In [render]: [[...this.prompts.values()].filter(p => p.weight > 0)]. *)
Definition activePrompts (h : Heap.t) (st : PromptDjMidi.state)
  : list Prompt.t :=
  flat_map
    (fun o => match o with
              | Some p => if PrimFloat.ltb 0 (Prompt.weight p) then [p] else []
              | None => []
              end)
    (JsMap.values h (PromptDjMidi.prompts st)).

(** In [render], for an active prompt:
    [parseInt(p.promptId.split('-')[1]) + 1]. *)
Definition slotIndex (p : Prompt.t) : Js.number :=
  JsText.add
    (JsText.parseIntOf (nth_error (JsText.split "-" (Prompt.promptId p)) 1))
    (Js.Int 1).

(** In [renderPrompts]: [this.filteredPrompts.has(prompt.text)]. *)
Definition filteredFlag (st : PromptDjMidi.state) (p : Prompt.t) : bool :=
  existsb (String.eqb (Prompt.text p)) (PromptDjMidi.filteredPrompts st).

End PromptDjMidiView.

Module PromptControllerEdit.

(** [toggleLearnMode()]. *)
Definition toggleLearnMode (st : PromptController.state)
  : PromptController.state :=
  PromptController.mk
    (PromptController.promptId st) (PromptController.text st)
    (PromptController.weight st) (PromptController.color st)
    (PromptController.density st) (PromptController.instruments st)
    (PromptController.selectedInstrument st) (PromptController.filtered st)
    (PromptController.cc st) (PromptController.channel st)
    (negb (PromptController.learnMode st)) (PromptController.showCC st)
    (PromptController.audioLevel st).

Definition with_learnMode (st : PromptController.state) (b : bool)
  : PromptController.state :=
  PromptController.mk
    (PromptController.promptId st) (PromptController.text st)
    (PromptController.weight st) (PromptController.color st)
    (PromptController.density st) (PromptController.instruments st)
    (PromptController.selectedInstrument st) (PromptController.filtered st)
    (PromptController.cc st) (PromptController.channel st)
    b (PromptController.showCC st) (PromptController.audioLevel st).

Definition with_showCC (st : PromptController.state) (b : bool)
  : PromptController.state :=
  PromptController.mk
    (PromptController.promptId st) (PromptController.text st)
    (PromptController.weight st) (PromptController.color st)
    (PromptController.density st) (PromptController.instruments st)
    (PromptController.selectedInstrument st) (PromptController.filtered st)
    (PromptController.cc st) (PromptController.channel st)
    (PromptController.learnMode st) b (PromptController.audioLevel st).

Definition with_text (st : PromptController.state) (s : string)
  : PromptController.state :=
  PromptController.mk
    (PromptController.promptId st) s
    (PromptController.weight st) (PromptController.color st)
    (PromptController.density st) (PromptController.instruments st)
    (PromptController.selectedInstrument st) (PromptController.filtered st)
    (PromptController.cc st) (PromptController.channel st)
    (PromptController.learnMode st) (PromptController.showCC st)
    (PromptController.audioLevel st).

(** [this.text = ...; this.color = ...; this.instruments = ...;
    this.selectedInstrument = ...] in [handleGenreSelect]. *)
Definition with_genre (st : PromptController.state)
    (text color : string) (instruments : list string)
    (selectedInstrument : string) : PromptController.state :=
  PromptController.mk
    (PromptController.promptId st) text
    (PromptController.weight st) color
    (PromptController.density st) instruments
    selectedInstrument (PromptController.filtered st)
    (PromptController.cc st) (PromptController.channel st)
    (PromptController.learnMode st) (PromptController.showCC st)
    (PromptController.audioLevel st).

(** The element with the part of its DOM the text handlers use: the
    [#text] span's [textContent], whether the span has the focus, and the
    private field [lastValidText]. *)
Record t : Type := mk {
  host : PromptController.state;
  textContent : string;
  focused : bool;
  lastValidText : string
}.

(** [firstUpdated()] (the [contenteditable] attribute is not modelled). *)
Definition firstUpdated (c : t) : t :=
  mk (host c) (PromptController.text (host c)) (focused c)
     (PromptController.text (host c)).

(** [update(changedProperties)], before [super.update]: hiding the CC
    display leaves learn mode; a changed [text] is copied into the span
    unless the span has the focus. *)
Definition update (c : t) (changedProperties : list string) : t :=
  let has := fun name => existsb (String.eqb name) changedProperties in
  let h1 :=
    if has "showCC" && negb (PromptController.showCC (host c))
    then with_learnMode (host c) false
    else host c in
  let tc :=
    if has "text" && negb (focused c)
    then PromptController.text h1
    else textContent c in
  mk h1 tc (focused c) (lastValidText c).

(** [resetText()]. *)
Definition resetText (c : t) : t :=
  mk (with_text (host c) (lastValidText c)) (lastValidText c) (focused c)
     (lastValidText c).

(** [updateText()], the span's blur listener ([scrollLeft] is not
    modelled). *)
Definition updateText (c : t) : t * list Prompt.t :=
  let newText := JsText.trim (textContent c) in
  let c' :=
    if JsText.isEmpty newText then resetText c
    else mk (with_text (host c) newText) (textContent c) (focused c) newText in
  (c', [PromptController.dispatchPromptChange (host c')]).

(** [this.textInput.blur()]: a span that has the focus loses it and its
    blur listener runs; otherwise nothing happens. *)
Definition blur (c : t) : t * list Prompt.t :=
  if focused c
  then updateText (mk (host c) (textContent c) false (lastValidText c))
  else (c, []).

(** The span's focus listener [onFocus()] only selects its contents; the
    span has the focus afterwards. *)
Definition focus (c : t) : t :=
  mk (host c) (textContent c) true (lastValidText c).

(** The user's typing: the span's contents become [s]. *)
Definition typeText (c : t) (s : string) : t :=
  mk (host c) s (focused c) (lastValidText c).

(** [onKeyDown(e)], with [key = e.key]. *)
Definition onKeyDown (c : t) (key : string) : t * list Prompt.t :=
  let '(c1, e1) :=
    if String.eqb key "Enter" then blur c else (c, []) in
  let '(c2, e2) :=
    if String.eqb key "Escape" then blur (resetText c1) else (c1, []) in
  (c2, e1 ++ e2).

(** [handleGenreSelect(e)], with [selectedText = e.target.value] (the
    reset of the [select] element is not modelled). *)
Definition handleGenreSelect (genreLibrary : list Genre.t) (c : t)
    (selectedText : string) : t * list Prompt.t :=
  match find (fun g => String.eqb (Genre.text g) selectedText) genreLibrary with
  | Some genre =>
      let instruments :=
        match Genre.instruments genre with Some l => l | None => [] end in
      let selectedInstrument :=
        match hd_error instruments with Some s => s | None => "" end in
      let h := with_genre (host c) (Genre.text genre) (Genre.color genre)
                          instruments selectedInstrument in
      (mk h (Genre.text genre) (focused c) (Genre.text genre),
       [PromptController.dispatchPromptChange h])
  | None => (c, [])
  end.

End PromptControllerEdit.

(** ** Vocabulary of the further statements *)

(** The last record among [details] whose promptId is [k]. *)
Definition lastFor (k : string) (details : list Prompt.t) : option Prompt.t :=
  find (fun d => String.eqb (Prompt.promptId d) k) (rev details).

(** Each entry of the map is an object whose [promptId] is its key. *)
Definition keyed (h : Heap.t) (m : JsMap.t) : Prop :=
  Forall (fun kl => exists p, Heap.deref h (snd kl) = Some p /\
                              Prompt.promptId p = fst kl) m.

(** The texts of the filtered-prompt notices among the inputs. *)
Definition filteredTexts (inputs : list Main.input) : list string :=
  flat_map (fun i => match i with
                     | Main.filtered_prompt n => [Main.fp_text n]
                     | _ => []
                     end) inputs.

(** The messages that [main] passes to the toast for the inputs: the
    reason of each filtered-prompt notice and the message of each error,
    of the helper or of the grid (a request for MIDI access that fails). *)
Definition toasted (inputs : list Main.input) : list string :=
  flat_map (fun i => match i with
                     | Main.filtered_prompt n => [Main.filteredReason n]
                     | Main.helper_error msg => [msg]
                     | Main.show_midi true (PromptDjMidiAccess.denied msg) =>
                         [msg]
                     | _ => []
                     end) inputs.

(** Inputs that edit a prompt. *)
Definition isEdit (i : Main.input) : bool :=
  match i with
  | Main.prompt_changed _ | Main.instrument_change _ _ => true
  | _ => false
  end.

(** The invariant of the application, with what the further properties
    need: the entries are keyed, the helper holds the grid's current map,
    its last update was made from the current map and store, and its
    tempo, once given, is the grid's. *)
Definition app_inv2 (a : Main.app) : Prop :=
  wf (Main.heap a) (PromptDjMidi.prompts (Main.pdjMidi a)) /\
  keyed (Main.heap a) (PromptDjMidi.prompts (Main.pdjMidi a)) /\
  JsMap.keys (PromptDjMidi.prompts (Main.pdjMidi a)) = slotIds /\
  LiveMusicHelper.weightedPrompts (Main.liveMusicHelper a)
  = PromptDjMidi.prompts (Main.pdjMidi a) /\
  last (LiveMusicHelper.updates (Main.liveMusicHelper a)) []
  = LiveMusicHelper.updatePrompts (Main.heap a)
      (PromptDjMidi.prompts (Main.pdjMidi a)) /\
  match LiveMusicHelper.tempoBpm (Main.liveMusicHelper a) with
  | Some v => PromptDjMidi.tempoBpm (Main.pdjMidi a) = v
  | None => PromptDjMidi.tempoBpm (Main.pdjMidi a) = Js.Int 120
  end.

(** A string that [trim] leaves alone. *)
Definition trimmed (s : string) : Prop := JsText.trim s = s.

(* ================================================================== *)
(** * Part II. Properties                                               *)
(* ================================================================== *)

(** ** The initial prompts *)

Lemma Genre_eqb_eq (a b : Genre.t) : Genre.eqb a b = true <-> a = b.
Proof.
  destruct a as [c1 t1 i1], b as [c2 t2 i2]; unfold Genre.eqb; simpl.
  rewrite !andb_true_iff, !String.eqb_eq.
  split.
  - intros [[-> ->] H]. destruct i1 as [x|], i2 as [y|]; try discriminate.
    + destruct (list_eq_dec string_dec x y); [subst; reflexivity | discriminate].
    + reflexivity.
  - intros E; injection E as -> -> ->. repeat split.
    destruct i2 as [y|]; [|reflexivity].
    destruct (list_eq_dec string_dec y y); [reflexivity | contradiction].
Qed.

Lemma nodupb_NoDup (l : list string) : nodupb l = true -> NoDup l.
Proof.
  induction l as [|x rest IH]; simpl; intros H; constructor.
  - apply andb_true_iff in H. destruct H as [H _].
    intros Hin. apply negb_true_iff in H.
    assert (E : existsb (String.eqb x) rest = true).
    { apply existsb_exists. exists x. split; [exact Hin | apply String.eqb_refl]. }
    congruence.
  - apply IH. apply andb_true_iff in H. apply H.
Qed.

(** The catalogue holds 38 pairwise different genres: comparing two of its
    records is comparing their references. *)
Lemma GENRE_LIBRARY_NoDup : NoDup GENRE_LIBRARY /\ List.length GENRE_LIBRARY = 38.
Proof.
  split; [|reflexivity].
  apply (NoDup_map_inv Genre.text).
  apply nodupb_NoDup. vm_compute. reflexivity.
Qed.

Lemma buildInitialPrompts_eq (shuffled : list Genre.t) :
  buildInitialPrompts shuffled =
  (map (initialPrompt (firstn 3 shuffled)) (seq 0 16),
   combine slotIds (seq 0 16)).
Proof. reflexivity. Qed.

Lemma float_one_neq_zero : 1%float <> 0%float.
Proof.
  intros E. assert (H : PrimFloat.eqb 1 1 = PrimFloat.eqb 1 0) by (rewrite <- E; reflexivity).
  vm_compute in H. discriminate.
Qed.

Lemma includes_In (s : list Genre.t) (g : Genre.t) :
  existsb (fun x => Genre.eqb x g) s = true <-> In g s.
Proof.
  rewrite existsb_exists. split.
  - intros [x [Hin E]]. apply Genre_eqb_eq in E. subst. exact Hin.
  - intros Hin. exists g. split; [exact Hin | apply Genre_eqb_eq; reflexivity].
Qed.

(** Among pairwise different genres, those that a list [s] includes are at
    most as many as [s] is long. *)
Lemma included_count_le (l s : list Genre.t) :
  NoDup l ->
  List.length (filter (fun g => existsb (fun x => Genre.eqb x g) s) l)
  <= List.length s.
Proof.
  intros ND. apply NoDup_incl_length.
  - apply NoDup_filter. exact ND.
  - intros g Hg. apply filter_In in Hg. apply includes_In. apply Hg.
Qed.

Lemma isOn_initialPrompt (startOn : list Genre.t) (i : nat) :
  isOn (Some (initialPrompt startOn i))
  = existsb (fun x => Genre.eqb x (slotGenre i)) startOn.
Proof.
  unfold isOn, initialPrompt, Prompt.weight. fold (slotGenre i).
  destruct (existsb (fun x => Genre.eqb x (slotGenre i)) startOn); reflexivity.
Qed.

Lemma onCount_initial (shuffled : list Genre.t) :
  onCount (fst (buildInitialPrompts shuffled)) (snd (buildInitialPrompts shuffled))
  = List.length
      (filter (fun g => existsb (fun x => Genre.eqb x g) (firstn 3 shuffled))
              (firstn 16 GENRE_LIBRARY)).
Proof.
  rewrite buildInitialPrompts_eq. unfold onCount.
  change (firstn 16 GENRE_LIBRARY) with (map slotGenre (seq 0 16)).
  generalize (firstn 3 shuffled) as startOn. intros startOn.
  change (JsMap.values _ _)
    with (map (fun i => Some (initialPrompt startOn i)) (seq 0 16)).
  induction (seq 0 16) as [|i l IH]; [reflexivity|].
  cbn [map filter]. rewrite isOn_initialPrompt.
  destruct (existsb (fun x => Genre.eqb x (slotGenre i)) startOn);
    cbn [List.length]; rewrite IH; reflexivity.
Qed.

Lemma initialPrompt_weight (startOn : list Genre.t) (i : nat) :
  (Prompt.weight (initialPrompt startOn i) = 1%float \/
   Prompt.weight (initialPrompt startOn i) = 0%float) /\
  (Prompt.weight (initialPrompt startOn i) = 1%float <->
   In (slotGenre i) startOn).
Proof.
  unfold initialPrompt, Prompt.weight. fold (slotGenre i).
  destruct (existsb (fun x => Genre.eqb x (slotGenre i)) startOn) eqn:E.
  - apply includes_In in E. split; [left; reflexivity | tauto].
  - split; [right; reflexivity|]. split.
    + intros H. symmetry in H. contradiction (float_one_neq_zero H).
    + intros H. apply includes_In in H. congruence.
Qed.

(** C10. [buildInitialPrompts] returns sixteen entries keyed [prompt-0] to
    [prompt-15] in slot order; entry [i] has cc [i], density 0.5, the text,
    color and instruments of genre [i] of the catalogue, and weight 0 or 1,
    the weight being 1 exactly when genre [i] is one of the three genres
    drawn; at most three entries have weight 1; and since the three are
    drawn from all 38 genres while only the first 16 fill slots, some draw
    leaves no entry with weight 1. *)
Theorem buildInitialPrompts_sixteen_slots :
  (forall shuffled : list Genre.t,
      let h := fst (buildInitialPrompts shuffled) in
      let prompts := snd (buildInitialPrompts shuffled) in
      let startOn := firstn 3 shuffled in
      List.length prompts = 16 /\
      JsMap.keys prompts =
        ["prompt-0"; "prompt-1"; "prompt-2"; "prompt-3"; "prompt-4";
         "prompt-5"; "prompt-6"; "prompt-7"; "prompt-8"; "prompt-9";
         "prompt-10"; "prompt-11"; "prompt-12"; "prompt-13"; "prompt-14";
         "prompt-15"] /\
      (forall i : nat, i < 16 ->
         exists p : Prompt.t,
           nth_error (JsMap.entries h prompts) i
             = Some (("prompt-" ++ Js.toString i)%string, Some p) /\
           Prompt.promptId p = ("prompt-" ++ Js.toString i)%string /\
           Prompt.cc p = Z.of_nat i /\
           Prompt.density p = 0.5%float /\
           Prompt.text p = Genre.text (nth i GENRE_LIBRARY noGenre) /\
           Prompt.color p = Genre.color (nth i GENRE_LIBRARY noGenre) /\
           Genre.instruments (nth i GENRE_LIBRARY noGenre)
             = Some (Prompt.instruments p) /\
           Prompt.selectedInstrument p = hd_error (Prompt.instruments p) /\
           (Prompt.weight p = 1%float \/ Prompt.weight p = 0%float) /\
           (Prompt.weight p = 1%float <->
            In (nth i GENRE_LIBRARY noGenre) startOn)) /\
      onCount h prompts <= 3) /\
  (exists shuffled : list Genre.t,
      Permutation GENRE_LIBRARY shuffled /\
      onCount (fst (buildInitialPrompts shuffled))
              (snd (buildInitialPrompts shuffled)) = 0).
Proof.
  split.
  - intros shuffled h prompts startOn.
    split; [reflexivity|]. split; [reflexivity|]. split.
    + intros i Hi.
      exists (initialPrompt startOn i).
      assert (W := initialPrompt_weight startOn i).
      assert (G : slotGenre i = nth i GENRE_LIBRARY noGenre).
      { unfold slotGenre. rewrite Nat.mod_small; [reflexivity|].
        change (List.length GENRE_LIBRARY) with 38. lia. }
      rewrite G in W. destruct W as [W1 W2].
      repeat (destruct i as [|i]; [repeat split; solve [reflexivity | exact W1 | apply W2] |]).
      lia.
    + unfold h, prompts. rewrite onCount_initial.
      etransitivity.
      * apply included_count_le.
        apply (NoDup_map_inv Genre.text). apply nodupb_NoDup.
        vm_compute. reflexivity.
      * unfold startOn. rewrite length_firstn. lia.
  - exists (rev GENRE_LIBRARY). split.
    + apply Permutation_rev.
    + vm_compute. reflexivity.
Qed.

(** ** The object store and the map *)

Lemma deref_store_same (h : Heap.t) (l : Heap.loc) (p : Prompt.t) :
  l < List.length h -> Heap.deref (Heap.store h l p) l = Some p.
Proof.
  revert l. induction h as [|q h IH]; intros [|l] H; simpl in *; try lia.
  - reflexivity.
  - apply IH. lia.
Qed.

Lemma deref_store_other (h : Heap.t) (l l' : Heap.loc) (p : Prompt.t) :
  l <> l' -> Heap.deref (Heap.store h l p) l' = Heap.deref h l'.
Proof.
  revert l l'. induction h as [|q h IH]; intros [|l] [|l'] H; simpl;
    try reflexivity; try congruence.
  apply IH. congruence.
Qed.

Lemma length_store (h : Heap.t) (l : Heap.loc) (p : Prompt.t) :
  List.length (Heap.store h l p) = List.length h.
Proof.
  revert l. induction h as [|q h IH]; intros [|l]; simpl; auto.
Qed.

Lemma deref_alloc_new (h : Heap.t) (p : Prompt.t) :
  Heap.deref (fst (Heap.alloc h p)) (snd (Heap.alloc h p)) = Some p.
Proof.
  unfold Heap.alloc, Heap.deref; simpl.
  rewrite nth_error_app2 by lia. rewrite Nat.sub_diag. reflexivity.
Qed.

Lemma deref_alloc_old (h : Heap.t) (p : Prompt.t) (l : Heap.loc) :
  l < List.length h -> Heap.deref (fst (Heap.alloc h p)) l = Heap.deref h l.
Proof.
  intros H. unfold Heap.alloc, Heap.deref; simpl.
  apply nth_error_app1. exact H.
Qed.

Lemma get_Some_In (m : JsMap.t) (k : string) (l : Heap.loc) :
  JsMap.get m k = Some l -> In (k, l) m.
Proof.
  induction m as [|[k' l'] m IH]; simpl; [discriminate|].
  destruct (String.eqb_spec k' k) as [->|N].
  - intros E; injection E as ->. left; reflexivity.
  - intros E. right. apply IH, E.
Qed.

Lemma get_None_keys (m : JsMap.t) (k : string) :
  JsMap.get m k = None <-> ~ In k (JsMap.keys m).
Proof.
  induction m as [|[k' l'] m IH]; simpl; [tauto|].
  destruct (String.eqb_spec k' k) as [->|N].
  - split; [discriminate | intros H; exfalso; apply H; left; reflexivity].
  - rewrite IH. tauto.
Qed.

Lemma get_set_same (m : JsMap.t) (k : string) (l : Heap.loc) :
  JsMap.get (JsMap.set m k l) k = Some l.
Proof.
  induction m as [|[k' l'] m IH]; simpl.
  - rewrite String.eqb_refl. reflexivity.
  - destruct (String.eqb_spec k' k) as [->|N]; simpl.
    + rewrite String.eqb_refl. reflexivity.
    + destruct (String.eqb_spec k' k); [contradiction | exact IH].
Qed.

Lemma get_set_other (m : JsMap.t) (k k' : string) (l : Heap.loc) :
  k' <> k -> JsMap.get (JsMap.set m k l) k' = JsMap.get m k'.
Proof.
  intros N. induction m as [|[k0 l0] m IH]; simpl.
  - destruct (String.eqb_spec k k'); [congruence | reflexivity].
  - destruct (String.eqb_spec k0 k) as [->|N0]; simpl.
    + destruct (String.eqb_spec k k'); [congruence | reflexivity].
    + rewrite IH. reflexivity.
Qed.

Lemma keys_set_present (m : JsMap.t) (k : string) (l : Heap.loc) :
  In k (JsMap.keys m) -> JsMap.keys (JsMap.set m k l) = JsMap.keys m.
Proof.
  induction m as [|[k0 l0] m IH]; simpl; [tauto|].
  destruct (String.eqb_spec k0 k) as [->|N0]; simpl; [reflexivity|].
  intros [E|H]; [congruence|]. rewrite IH by exact H. reflexivity.
Qed.

Lemma set_fresh (m : JsMap.t) (k : string) (l : Heap.loc) :
  ~ In k (JsMap.keys m) -> JsMap.set m k l = m ++ [(k, l)].
Proof.
  induction m as [|[k0 l0] m IH]; simpl; [reflexivity|].
  intros H. destruct (String.eqb_spec k0 k) as [->|N0]; [tauto|].
  rewrite IH by tauto. reflexivity.
Qed.

Lemma In_snd_set (m : JsMap.t) (k : string) (l x : Heap.loc) :
  In x (map snd (JsMap.set m k l)) -> In x (map snd m) \/ x = l.
Proof.
  induction m as [|[k0 l0] m IH]; simpl.
  - intros [E|[]]. right; congruence.
  - destruct (String.eqb_spec k0 k) as [->|N0]; simpl.
    + intros [E|H]; [right; congruence | left; right; exact H].
    + intros [E|H]; [left; left; exact E|].
      destruct (IH H) as [H'|H']; [left; right; exact H' | right; exact H'].
Qed.

Lemma NoDup_snd_set (m : JsMap.t) (k : string) (l : Heap.loc) :
  NoDup (map snd m) -> ~ In l (map snd m) ->
  NoDup (map snd (JsMap.set m k l)).
Proof.
  induction m as [|[k0 l0] m IH]; simpl; intros ND NI.
  - constructor; [intros [] | constructor].
  - inversion ND as [|? ? Hl0 ND']; subst.
    destruct (String.eqb_spec k0 k) as [->|N0]; simpl.
    + constructor; [tauto | exact ND'].
    + constructor.
      * intros H. apply In_snd_set in H. destruct H as [H|H]; [tauto|].
        apply NI. left. congruence.
      * apply IH; [exact ND' | tauto].
Qed.

Lemma Forall_set (P : string * Heap.loc -> Prop) (m : JsMap.t)
    (k : string) (l : Heap.loc) :
  Forall P m -> (forall k0, P (k0, l)) -> Forall P (JsMap.set m k l).
Proof.
  intros F Pl. induction m as [|[k0 l0] m IH]; simpl.
  - constructor; [apply Pl | constructor].
  - inversion F; subst.
    destruct (String.eqb_spec k0 k) as [->|N0]; constructor; auto.
Qed.

Lemma NoDup_snd_inj (m : JsMap.t) (k1 k2 : string) (l : Heap.loc) :
  NoDup (map snd m) -> In (k1, l) m -> In (k2, l) m -> k1 = k2.
Proof.
  induction m as [|[k0 l0] m IH]; simpl; intros ND H1 H2; [tauto|].
  inversion ND as [|? ? Hl0 ND']; subst.
  assert (S : forall k, In (k, l0) m -> In l0 (map snd m)).
  { intros k H. apply (in_map snd) in H. exact H. }
  destruct H1 as [E1|H1], H2 as [E2|H2].
  - congruence.
  - injection E1 as -> ->. exfalso. eauto.
  - injection E2 as -> ->. exfalso. eauto.
  - eauto.
Qed.

(** [new Map(m)] of a map (whose keys are unique, as a [Map]'s are) has
    the same bindings in the same order. *)
Lemma copy_id (m : JsMap.t) : NoDup (JsMap.keys m) -> JsMap.copy m = m.
Proof.
  unfold JsMap.copy.
  assert (G : forall acc,
             NoDup (JsMap.keys (acc ++ m)) ->
             fold_left (fun a kl => JsMap.set a (fst kl) (snd kl)) m acc
             = acc ++ m).
  { induction m as [|[k l] m IH]; intros acc ND; simpl.
    - rewrite app_nil_r. reflexivity.
    - rewrite set_fresh.
      + rewrite IH; rewrite <- app_assoc; [reflexivity | exact ND].
      + unfold JsMap.keys in ND. rewrite map_app in ND. simpl in ND.
        apply NoDup_remove_2 in ND. intros H. apply ND.
        apply in_or_app. left. exact H. }
  intros ND. apply (G []). exact ND.
Qed.

Lemma wf_store (h : Heap.t) (m : JsMap.t) (l : Heap.loc) (p : Prompt.t) :
  wf h m -> wf (Heap.store h l p) m.
Proof.
  intros (K & S & B). repeat split; auto.
  rewrite length_store. exact B.
Qed.

(** ** [handlePromptChanged] *)

Lemma assign_whole (target source : Prompt.t) :
  Prompt.assign target source = source.
Proof. destruct source; reflexivity. Qed.

Lemma handlePromptChanged_missing (h : Heap.t) (st : PromptDjMidi.state)
    (detail : Prompt.t) :
  JsMap.get (PromptDjMidi.prompts st) (Prompt.promptId detail) = None ->
  PromptDjMidi.handlePromptChanged h st detail = (h, st, []).
Proof.
  intros E. unfold PromptDjMidi.handlePromptChanged. rewrite E. reflexivity.
Qed.

Lemma handlePromptChanged_found (h : Heap.t) (st : PromptDjMidi.state)
    (detail : Prompt.t) (l : Heap.loc) :
  wf h (PromptDjMidi.prompts st) ->
  JsMap.get (PromptDjMidi.prompts st) (Prompt.promptId detail) = Some l ->
  PromptDjMidi.handlePromptChanged h st detail =
  let m' := JsMap.set (PromptDjMidi.prompts st) (Prompt.promptId detail)
                      (List.length h) in
  (Heap.store h l detail ++ [detail],
   PromptDjMidi.with_prompts st m',
   [PromptDjMidi.prompts_changed m']).
Proof.
  intros (K & S & B) E. unfold PromptDjMidi.handlePromptChanged. rewrite E.
  assert (Hl : l < List.length h).
  { apply get_Some_In in E. rewrite Forall_forall in B. apply (B _ E). }
  unfold Heap.deref.
  destruct (nth_error h l) as [prompt|] eqn:D.
  - rewrite assign_whole, copy_id by exact K.
    unfold Heap.alloc. rewrite length_store. reflexivity.
  - apply nth_error_None in D. lia.
Qed.

Lemma wf_handlePromptChanged (h : Heap.t) (st : PromptDjMidi.state)
    (detail : Prompt.t) :
  wf h (PromptDjMidi.prompts st) ->
  wf (fst (fst (PromptDjMidi.handlePromptChanged h st detail)))
     (PromptDjMidi.prompts
        (snd (fst (PromptDjMidi.handlePromptChanged h st detail)))) /\
  JsMap.keys (PromptDjMidi.prompts
                (snd (fst (PromptDjMidi.handlePromptChanged h st detail))))
  = JsMap.keys (PromptDjMidi.prompts st).
Proof.
  intros W.
  destruct (JsMap.get (PromptDjMidi.prompts st) (Prompt.promptId detail))
    as [l|] eqn:E.
  - rewrite (handlePromptChanged_found h st detail l W E). simpl.
    destruct W as (K & S & B).
    assert (Hin : In (Prompt.promptId detail) (JsMap.keys (PromptDjMidi.prompts st))).
    { destruct (in_dec string_dec (Prompt.promptId detail)
                  (JsMap.keys (PromptDjMidi.prompts st))) as [i|n]; [exact i|].
      apply get_None_keys in n. congruence. }
    assert (KS := keys_set_present _ _ (List.length h) Hin).
    split; [|exact KS].
    repeat split.
    + rewrite KS. exact K.
    + apply NoDup_snd_set; [exact S|].
      intros H. apply in_map_iff in H. destruct H as [[k0 l0] [E0 H0]].
      rewrite Forall_forall in B. apply B in H0. simpl in *. lia.
    + apply Forall_set.
      * eapply Forall_impl; [|exact B]. intros a Ha.
        rewrite length_app, length_store. simpl in *. lia.
      * intros k0. rewrite length_app, length_store. simpl. lia.
  - rewrite (handlePromptChanged_missing h st detail E). simpl. tauto.
Qed.

(** C4. In a state of the prompt map owner (unique keys, one object per
    key), a prompt-changed event whose promptId is not a key leaves the
    store, the element and its map as they are and dispatches nothing; one
    whose promptId is a key makes that entry equal to the event's record,
    keeps every other entry, and dispatches the new map; in both cases the
    keys of the map, and their order, are the same as before. *)
Theorem handlePromptChanged_whole_record
    (h : Heap.t) (st : PromptDjMidi.state) (detail : Prompt.t)
    (W : wf h (PromptDjMidi.prompts st)) :
  let '(h', st', evs) := PromptDjMidi.handlePromptChanged h st detail in
  let promptId := Prompt.promptId detail in
  let before := PromptDjMidi.prompts st in
  let after := PromptDjMidi.prompts st' in
  (~ In promptId (JsMap.keys before) -> h' = h /\ st' = st /\ evs = []) /\
  (In promptId (JsMap.keys before) ->
     JsMap.lookup h' after promptId = Some detail /\
     (forall k : string, k <> promptId ->
        JsMap.lookup h' after k = JsMap.lookup h before k) /\
     evs = [PromptDjMidi.prompts_changed after]) /\
  JsMap.keys after = JsMap.keys before /\
  wf h' after.
Proof.
  assert (P := wf_handlePromptChanged h st detail W).
  destruct (JsMap.get (PromptDjMidi.prompts st) (Prompt.promptId detail))
    as [l|] eqn:E.
  - rewrite (handlePromptChanged_found h st detail l W E) in *.
    cbn zeta. simpl in P. destruct P as [W' KS].
    assert (Hl : l < List.length h).
    { destruct W as (_ & _ & B). apply get_Some_In in E.
      rewrite Forall_forall in B. apply (B _ E). }
    split; [|split; [|split; [exact KS | exact W']]].
    + intros N. apply get_None_keys in N. congruence.
    + intros _. simpl. split; [|split; [|reflexivity]].
      * unfold JsMap.lookup. rewrite get_set_same.
        unfold Heap.deref. rewrite nth_error_app2; rewrite length_store; [|lia].
        rewrite Nat.sub_diag. reflexivity.
      * intros k Nk. unfold JsMap.lookup. rewrite get_set_other by exact Nk.
        destruct (JsMap.get (PromptDjMidi.prompts st) k) as [l0|] eqn:E0;
          [|reflexivity].
        destruct W as (_ & S & B).
        assert (Hl0 : l0 < List.length h).
        { apply get_Some_In in E0. rewrite Forall_forall in B. apply (B _ E0). }
        assert (Nl : l <> l0).
        { intros ->. apply Nk.
          apply (NoDup_snd_inj _ _ _ l0 S);
            [apply get_Some_In, E0 | apply get_Some_In, E]. }
        unfold Heap.deref. rewrite nth_error_app1 by (rewrite length_store; lia).
        apply deref_store_other. exact Nl.
  - rewrite (handlePromptChanged_missing h st detail E) in *.
    cbn zeta. simpl in P. destruct P as [W' KS].
    split; [|split; [|split; [reflexivity | exact W]]].
    + intros _. repeat split.
    + intros Hin. apply get_None_keys in E. contradiction.
Qed.

(** The map that was current before the event shares the edited object:
    read through the store after the event, its entry for the key shows the
    event's record too. *)
Remark old_map_sees_edit (h : Heap.t) (st : PromptDjMidi.state)
    (detail : Prompt.t) :
  wf h (PromptDjMidi.prompts st) ->
  In (Prompt.promptId detail) (JsMap.keys (PromptDjMidi.prompts st)) ->
  JsMap.lookup (fst (fst (PromptDjMidi.handlePromptChanged h st detail)))
               (PromptDjMidi.prompts st) (Prompt.promptId detail)
  = Some detail.
Proof.
  intros W Hin.
  destruct (JsMap.get (PromptDjMidi.prompts st) (Prompt.promptId detail))
    as [l|] eqn:E.
  - rewrite (handlePromptChanged_found h st detail l W E). cbn [fst].
    unfold JsMap.lookup. rewrite E.
    assert (Hl : l < List.length h).
    { destruct W as (_ & _ & B). apply get_Some_In in E.
      rewrite Forall_forall in B. apply (B _ E). }
    unfold Heap.deref. rewrite nth_error_app1 by (rewrite length_store; lia).
    apply deref_store_same. exact Hl.
  - apply get_None_keys in E. contradiction.
Qed.

Lemma handlePromptChanged_cases (h : Heap.t) (st : PromptDjMidi.state)
    (detail : Prompt.t) :
  wf h (PromptDjMidi.prompts st) ->
  let '(h', st', evs) := PromptDjMidi.handlePromptChanged h st detail in
  (h' = h /\ st' = st /\ evs = []) \/
  (evs = [PromptDjMidi.prompts_changed (PromptDjMidi.prompts st')] /\
   wf h' (PromptDjMidi.prompts st') /\
   JsMap.keys (PromptDjMidi.prompts st') = JsMap.keys (PromptDjMidi.prompts st)).
Proof.
  intros W. assert (P := wf_handlePromptChanged h st detail W).
  destruct (JsMap.get (PromptDjMidi.prompts st) (Prompt.promptId detail))
    as [l|] eqn:E.
  - rewrite (handlePromptChanged_found h st detail l W E) in *.
    cbn zeta. simpl in P. right. split; [reflexivity | exact P].
  - rewrite (handlePromptChanged_missing h st detail E). left. tauto.
Qed.

Lemma handleInstrumentChange_cases (h : Heap.t) (st : PromptDjMidi.state)
    (promptId value : string) :
  wf h (PromptDjMidi.prompts st) ->
  let '(h', st', evs) :=
    PromptDjMidi.handleInstrumentChange h st promptId value in
  (st' = st /\ evs = [] /\ wf h' (PromptDjMidi.prompts st')) \/
  (evs = [PromptDjMidi.prompts_changed (PromptDjMidi.prompts st')] /\
   wf h' (PromptDjMidi.prompts st') /\
   JsMap.keys (PromptDjMidi.prompts st') = JsMap.keys (PromptDjMidi.prompts st)).
Proof.
  intros W. unfold PromptDjMidi.handleInstrumentChange.
  destruct (JsMap.get (PromptDjMidi.prompts st) promptId) as [l|];
    [|left; tauto].
  destruct (Heap.deref h l) as [prompt|]; [|left; tauto].
  set (p' := Prompt.setSelectedInstrument prompt value).
  assert (W1 := wf_store h _ l p' W).
  assert (C := handlePromptChanged_cases (Heap.store h l p') st p' W1).
  destruct (PromptDjMidi.handlePromptChanged (Heap.store h l p') st p')
    as [[h' st'] evs].
  destruct C as [(-> & -> & ->) | C]; [left; tauto | right; exact C].
Qed.

(** ** The updates handed to the helper *)

Lemma updatePrompts_keys (h : Heap.t) (m : JsMap.t) :
  wf h m -> map fst (LiveMusicHelper.updatePrompts h m) = JsMap.keys m.
Proof.
  intros (_ & _ & B). unfold LiveMusicHelper.updatePrompts.
  induction m as [|[k l] m IH]; [reflexivity|].
  inversion B as [|? ? Hl B']; subst. simpl in Hl.
  cbn [flat_map JsMap.keys map fst snd].
  unfold Heap.deref at 1.
  destruct (nth_error h l) as [p|] eqn:D.
  - simpl. f_equal. apply IH, B'.
  - apply nth_error_None in D. lia.
Qed.

Lemma updatePrompts_complete (h : Heap.t) (m : JsMap.t) (k : string)
    (p : Prompt.t) :
  JsMap.lookup h m k = Some p -> In (k, p) (LiveMusicHelper.updatePrompts h m).
Proof.
  unfold JsMap.lookup. destruct (JsMap.get m k) as [l|] eqn:E; [|discriminate].
  intros D. apply get_Some_In in E.
  unfold LiveMusicHelper.updatePrompts. apply in_flat_map.
  exists (k, l). split; [exact E|]. simpl. rewrite D. left. reflexivity.
Qed.

Lemma slotIds_NoDup : NoDup slotIds.
Proof. apply nodupb_NoDup. vm_compute. reflexivity. Qed.

Lemma main_wf (shuffled : list Genre.t) :
  wf (fst (buildInitialPrompts shuffled)) (snd (buildInitialPrompts shuffled)).
Proof.
  rewrite buildInitialPrompts_eq. cbn [fst snd]. repeat split.
  - change (JsMap.keys (combine slotIds (seq 0 16))) with slotIds.
    exact slotIds_NoDup.
  - change (map snd (combine slotIds (seq 0 16))) with (seq 0 16).
    apply seq_NoDup.
  - rewrite length_map, length_seq.
    apply Forall_forall. intros [k l] H. apply in_combine_r in H.
    apply in_seq in H. simpl. lia.
Qed.

Lemma main_inv (shuffled : list Genre.t) : app_inv (Main.main shuffled).
Proof.
  assert (W := main_wf shuffled). unfold Main.main.
  destruct (buildInitialPrompts shuffled) as [h m] eqn:E.
  assert (K : JsMap.keys m = slotIds).
  { rewrite buildInitialPrompts_eq in E. injection E as <- <-. reflexivity. }
  simpl in W. unfold app_inv; simpl. repeat split; try apply W; try exact K.
  - discriminate.
  - constructor; [|constructor]. rewrite updatePrompts_keys by exact W. exact K.
Qed.

Lemma app_eta (a : Main.app) :
  Main.with_pdjMidi a (Main.heap a) (Main.pdjMidi a) = a.
Proof. destruct a; reflexivity. Qed.

Lemma inv_dispatch (a : Main.app) (h' : Heap.t) (st' : PromptDjMidi.state) :
  app_inv a ->
  wf h' (PromptDjMidi.prompts st') ->
  JsMap.keys (PromptDjMidi.prompts st')
  = JsMap.keys (PromptDjMidi.prompts (Main.pdjMidi a)) ->
  app_inv (Main.on_pdj_event (Main.with_pdjMidi a h' st')
             (PromptDjMidi.prompts_changed (PromptDjMidi.prompts st'))).
Proof.
  intros (W & K & N & U) W' K'. unfold app_inv; simpl.
  repeat split; try apply W'.
  - congruence.
  - intros H. apply app_eq_nil in H. destruct H; discriminate.
  - apply Forall_app. split; [exact U|].
    constructor; [|constructor].
    rewrite updatePrompts_keys by exact W'. congruence.
Qed.

Lemma step_inv (a : Main.app) (i : Main.input) :
  app_inv a -> app_inv (Main.step a i).
Proof.
  intros I. assert (I' := I). destruct I' as (W & K & N & U).
  destruct i as [detail|promptId value|value| |s|n|msg|level|show outcome]; simpl.
  - assert (C := handlePromptChanged_cases (Main.heap a) (Main.pdjMidi a) detail W).
    destruct (PromptDjMidi.handlePromptChanged (Main.heap a) (Main.pdjMidi a) detail)
      as [[h' st'] evs].
    destruct C as [(-> & -> & ->) | (-> & W' & K')].
    + simpl. rewrite app_eta. exact I.
    + apply inv_dispatch; assumption.
  - assert (C := handleInstrumentChange_cases (Main.heap a) (Main.pdjMidi a)
                   promptId value W).
    destruct (PromptDjMidi.handleInstrumentChange (Main.heap a) (Main.pdjMidi a)
                promptId value) as [[h' st'] evs].
    destruct C as [(-> & -> & W') | (-> & W' & K')].
    + simpl. unfold app_inv; simpl. tauto.
    + apply inv_dispatch; assumption.
  - unfold app_inv; simpl. tauto.
  - unfold app_inv; simpl. tauto.
  - unfold Main.on_playback_state_changed.
    destruct (PlaybackState_eqb s playing); unfold app_inv; simpl; tauto.
  - unfold app_inv; simpl. tauto.
  - unfold app_inv; simpl. tauto.
  - unfold app_inv; simpl. tauto.
  - destruct show, outcome; unfold app_inv; simpl; tauto.
Qed.

Lemma run_inv (a : Main.app) (inputs : list Main.input) :
  app_inv a -> app_inv (Main.run a inputs).
Proof.
  revert a. induction inputs as [|i inputs IH]; intros a I; simpl.
  - exact I.
  - apply IH, step_inv, I.
Qed.

(** C6. After any inputs, every update that [main] has handed to the
    helper for the remote service (the initial one and one per
    prompts-changed event) has exactly one entry for each of the sixteen
    keys of the prompt map, in order; and the update made from a map
    leaves out no entry, whatever its weight, 0 included. *)
Theorem every_update_has_every_key :
  (forall (shuffled : list Genre.t) (inputs : list Main.input),
      let a := Main.run (Main.main shuffled) inputs in
      let updates := LiveMusicHelper.updates (Main.liveMusicHelper a) in
      updates <> [] /\
      forall u : LiveMusicHelper.update, In u updates ->
        map fst u = JsMap.keys (PromptDjMidi.prompts (Main.pdjMidi a)) /\
        NoDup (map fst u) /\
        List.length u = 16) /\
  (forall (h : Heap.t) (m : JsMap.t) (k : string) (p : Prompt.t),
      JsMap.lookup h m k = Some p ->
      Prompt.weight p = 0%float ->
      In (k, p) (LiveMusicHelper.updatePrompts h m)).
Proof.
  split.
  - intros shuffled inputs a updates.
    destruct (run_inv _ inputs (main_inv shuffled)) as (W & K & N & U).
    fold a in W, K, N, U. fold updates in N, U.
    split; [exact N|]. intros u Hu.
    rewrite Forall_forall in U. specialize (U u Hu). cbv beta in U.
    rewrite K. split; [exact U|]. split.
    + rewrite U. exact slotIds_NoDup.
    + rewrite <- (length_map fst), U. reflexivity.
  - intros h m k p L _. apply updatePrompts_complete, L.
Qed.

Lemma handlePromptChanged_whole_record_witness :
  wf sampleHeap (PromptDjMidi.prompts sampleGrid) /\
  In (Prompt.promptId sampleDetail)
     (JsMap.keys (PromptDjMidi.prompts sampleGrid)) /\
  let '(h', st', evs) :=
    PromptDjMidi.handlePromptChanged sampleHeap sampleGrid sampleDetail in
  let promptId := Prompt.promptId sampleDetail in
  let before := PromptDjMidi.prompts sampleGrid in
  let after := PromptDjMidi.prompts st' in
  (~ In promptId (JsMap.keys before) ->
   h' = sampleHeap /\ st' = sampleGrid /\ evs = []) /\
  (In promptId (JsMap.keys before) ->
     JsMap.lookup h' after promptId = Some sampleDetail /\
     (forall k : string, k <> promptId ->
        JsMap.lookup h' after k = JsMap.lookup sampleHeap before k) /\
     evs = [PromptDjMidi.prompts_changed after]) /\
  JsMap.keys after = JsMap.keys before /\
  wf h' after.
Proof.
  assert (W : wf sampleHeap (PromptDjMidi.prompts sampleGrid)).
  { unfold wf. split; [|split].
    - apply nodupb_NoDup. vm_compute. reflexivity.
    - vm_compute. repeat (constructor; [simpl; lia|]). constructor.
    - vm_compute. repeat (constructor; [lia|]). constructor. }
  split; [exact W|]. split.
  - vm_compute. tauto.
  - exact (handlePromptChanged_whole_record sampleHeap sampleGrid sampleDetail W).
Defined.

(** ** Filtered prompts *)

(** C7. Handling a filtered-prompt notice shows the notice's reason, as
    it is, in the toast and adds the notice's text, as it is, to the
    grid's set of filtered prompts; the object store and the prompt map
    are the same afterwards, so every field of every prompt is unchanged;
    the playback state, the tempo, the helper (no update is sent) and the
    analyser are unchanged too. *)
Theorem filtered_prompt_leaves_prompts (a : Main.app) (n : Main.FilteredPrompt) :
  let a' := Main.step a (Main.filtered_prompt n) in
  Main.toastMessage a' = Main.toastMessage a ++ [Main.filteredReason n] /\
  In (Main.fp_text n) (PromptDjMidi.filteredPrompts (Main.pdjMidi a')) /\
  (forall x : string,
      In x (PromptDjMidi.filteredPrompts (Main.pdjMidi a')) <->
      In x (PromptDjMidi.filteredPrompts (Main.pdjMidi a)) \/ x = Main.fp_text n) /\
  Main.heap a' = Main.heap a /\
  PromptDjMidi.prompts (Main.pdjMidi a') = PromptDjMidi.prompts (Main.pdjMidi a) /\
  (forall k : string,
      JsMap.lookup (Main.heap a') (PromptDjMidi.prompts (Main.pdjMidi a')) k
      = JsMap.lookup (Main.heap a) (PromptDjMidi.prompts (Main.pdjMidi a)) k) /\
  PromptDjMidi.playbackState (Main.pdjMidi a')
  = PromptDjMidi.playbackState (Main.pdjMidi a) /\
  PromptDjMidi.tempoBpm (Main.pdjMidi a') = PromptDjMidi.tempoBpm (Main.pdjMidi a) /\
  Main.liveMusicHelper a' = Main.liveMusicHelper a /\
  Main.audioAnalyser a' = Main.audioAnalyser a.
Proof.
  assert (S : forall x : string,
             In x (PromptDjMidi.Set_add
                     (PromptDjMidi.filteredPrompts (Main.pdjMidi a)) (Main.fp_text n)) <->
             In x (PromptDjMidi.filteredPrompts (Main.pdjMidi a)) \/ x = Main.fp_text n).
  { intros x. unfold PromptDjMidi.Set_add.
    destruct (existsb (String.eqb (Main.fp_text n))
                (PromptDjMidi.filteredPrompts (Main.pdjMidi a))) eqn:E.
    - split; [tauto|]. intros [H | ->]; [exact H|].
      apply existsb_exists in E. destruct E as [y [Hy E]].
      apply String.eqb_eq in E. subst y. exact Hy.
    - rewrite in_app_iff. simpl. intuition congruence. }
  simpl. repeat split; try reflexivity.
  - apply S. right. reflexivity.
  - apply S.
  - apply S.
Qed.

(** ** The analyser and the playback state *)

(** The first press of play: the helper publishes [loading], and [stop()]
    is called although the state was never [playing]. *)
Lemma stop_called_without_leaving_playing :
  let a := Main.run (Main.main GENRE_LIBRARY)
                    [Main.playback_state_changed loading] in
  Main.analyserCalls a = [AudioAnalyser.call_stop] /\
  stops (Main.analyserCalls a) = 1 /\
  transitionsOutOf stopped [loading] = 0.
Proof. vm_compute. repeat split. Qed.

Lemma fold_on_pdj_event_analyser (evs : list PromptDjMidi.event) (a : Main.app) :
  let a' := fold_left Main.on_pdj_event evs a in
  Main.audioAnalyser a' = Main.audioAnalyser a /\
  Main.analyserCalls a' = Main.analyserCalls a /\
  PromptDjMidi.playbackState (Main.pdjMidi a')
  = PromptDjMidi.playbackState (Main.pdjMidi a).
Proof.
  revert a. induction evs as [|e evs IH]; intros a; simpl; [tauto|].
  specialize (IH (Main.on_pdj_event a e)). simpl in IH.
  destruct IH as (-> & -> & ->). destruct e; simpl; tauto.
Qed.

Lemma playbackState_handlePromptChanged (h : Heap.t) (st : PromptDjMidi.state)
    (detail : Prompt.t) :
  PromptDjMidi.playbackState (snd (fst (PromptDjMidi.handlePromptChanged h st detail)))
  = PromptDjMidi.playbackState st.
Proof.
  unfold PromptDjMidi.handlePromptChanged.
  destruct (JsMap.get (PromptDjMidi.prompts st) (Prompt.promptId detail));
    [|reflexivity].
  destruct (Heap.deref h l); reflexivity.
Qed.

(** A step that is not a playback-state change leaves the analyser, the
    calls made on it and the grid's playback state alone. *)
Lemma step_other_analyser (a : Main.app) (i : Main.input) :
  (forall s, i <> Main.playback_state_changed s) ->
  Main.audioAnalyser (Main.step a i) = Main.audioAnalyser a /\
  Main.analyserCalls (Main.step a i) = Main.analyserCalls a /\
  PromptDjMidi.playbackState (Main.pdjMidi (Main.step a i))
  = PromptDjMidi.playbackState (Main.pdjMidi a).
Proof.
  intros N.
  destruct i as [detail|promptId value|value| |s|n|msg|level|show outcome];
    try (simpl; tauto).
  - simpl.
    assert (P := playbackState_handlePromptChanged (Main.heap a) (Main.pdjMidi a) detail).
    destruct (PromptDjMidi.handlePromptChanged (Main.heap a) (Main.pdjMidi a) detail)
      as [[h' st'] evs]. simpl in P.
    destruct (fold_on_pdj_event_analyser evs (Main.with_pdjMidi a h' st'))
      as (-> & -> & ->). simpl. tauto.
  - simpl. unfold PromptDjMidi.handleInstrumentChange.
    destruct (JsMap.get (PromptDjMidi.prompts (Main.pdjMidi a)) promptId) as [l|];
      [|simpl; tauto].
    destruct (Heap.deref (Main.heap a) l) as [prompt|]; [|simpl; tauto].
    match goal with
    | |- context [PromptDjMidi.handlePromptChanged ?h ?s ?d] =>
        assert (P := playbackState_handlePromptChanged h s d);
        destruct (PromptDjMidi.handlePromptChanged h s d) as [[h' st'] evs]
    end.
    simpl in P.
    destruct (fold_on_pdj_event_analyser evs (Main.with_pdjMidi a h' st'))
      as (-> & -> & ->). simpl. tauto.
  - exfalso. apply (N s). reflexivity.
  - destruct show, outcome; simpl; tauto.
Qed.

Lemma run_analyser (inputs : list Main.input) (a : Main.app) :
  (AudioAnalyser.running (Main.audioAnalyser a) = true <->
   PromptDjMidi.playbackState (Main.pdjMidi a) = playing) ->
  let a' := Main.run a inputs in
  (AudioAnalyser.running (Main.audioAnalyser a') = true <->
   PromptDjMidi.playbackState (Main.pdjMidi a') = playing) /\
  starts (Main.analyserCalls a')
  = starts (Main.analyserCalls a) + playingEvents (published inputs) /\
  stops (Main.analyserCalls a')
  = stops (Main.analyserCalls a) + otherEvents (published inputs).
Proof.
  revert a. induction inputs as [|i inputs IH]; intros a R.
  - simpl. unfold playingEvents, otherEvents. simpl. repeat split; try apply R; lia.
  - cbn [Main.run fold_left]. change (fold_left Main.step inputs (Main.step a i))
      with (Main.run (Main.step a i) inputs).
    destruct i as [detail|promptId value|value| |s|n|msg|level|show outcome].
    5: {
      assert (R' : AudioAnalyser.running
                     (Main.audioAnalyser (Main.step a (Main.playback_state_changed s))) = true <->
                   PromptDjMidi.playbackState
                     (Main.pdjMidi (Main.step a (Main.playback_state_changed s))) = playing).
      { simpl. unfold Main.on_playback_state_changed.
        destruct s; simpl; split; congruence. }
      destruct (IH _ R') as (I1 & I2 & I3).
      split; [exact I1|].
      rewrite I2, I3. unfold starts, stops, playingEvents, otherEvents.
      simpl. unfold Main.on_playback_state_changed.
      destruct s; simpl; rewrite !filter_app, !length_app; simpl; lia. }
    all: match goal with
         | |- context [Main.step ?a0 ?i] =>
             assert (F : forall s, i <> Main.playback_state_changed s)
               by (intros s0; discriminate);
             destruct (step_other_analyser a0 i F) as (F1 & F2 & F3);
             assert (R' : AudioAnalyser.running (Main.audioAnalyser (Main.step a0 i)) = true <->
                          PromptDjMidi.playbackState (Main.pdjMidi (Main.step a0 i)) = playing)
               by (rewrite F1, F3; exact R);
             destruct (IH _ R') as (I1 & I2 & I3);
             split; [exact I1|]; rewrite I2, I3, F2; simpl; tauto
         end.
Qed.

Lemma transitions_le_events (ss : list PlaybackState) (prev : PlaybackState) :
  transitionsInto prev ss <= playingEvents ss /\
  transitionsOutOf prev ss <= otherEvents ss.
Proof.
  revert prev. induction ss as [|s ss IH]; intros prev; [simpl; split; lia|].
  destruct (IH s) as [I O]. unfold playingEvents, otherEvents in *.
  destruct prev, s; simpl in *; split; lia.
Qed.

(** C9, as the code has it. [start()] and [stop()] are idempotent.
    After any inputs the analyser is running exactly when the grid's
    playback state is [playing]; [start()] has been called once for every
    published state that is [playing] and [stop()] once for every
    published state that is not, whether or not the state before it was
    [playing]; so every transition into [playing] has its [start()] and
    every transition out of [playing] its [stop()]. *)
Theorem analyser_follows_playback_state :
  (forall x : AudioAnalyser.t,
      AudioAnalyser.start (AudioAnalyser.start x) = AudioAnalyser.start x /\
      AudioAnalyser.stop (AudioAnalyser.stop x) = AudioAnalyser.stop x) /\
  (forall (shuffled : list Genre.t) (inputs : list Main.input),
      let a := Main.run (Main.main shuffled) inputs in
      (AudioAnalyser.running (Main.audioAnalyser a) = true <->
       PromptDjMidi.playbackState (Main.pdjMidi a) = playing) /\
      starts (Main.analyserCalls a) = playingEvents (published inputs) /\
      stops (Main.analyserCalls a) = otherEvents (published inputs) /\
      transitionsInto stopped (published inputs) <= starts (Main.analyserCalls a) /\
      transitionsOutOf stopped (published inputs) <= stops (Main.analyserCalls a)).
Proof.
  split.
  - intros x. split; reflexivity.
  - intros shuffled inputs.
    assert (R : AudioAnalyser.running (Main.audioAnalyser (Main.main shuffled)) = true <->
                PromptDjMidi.playbackState (Main.pdjMidi (Main.main shuffled)) = playing).
    { unfold Main.main. destruct (buildInitialPrompts shuffled). simpl.
      split; discriminate. }
    destruct (run_analyser inputs _ R) as (I1 & I2 & I3).
    assert (C : Main.analyserCalls (Main.main shuffled) = []).
    { unfold Main.main. destruct (buildInitialPrompts shuffled). reflexivity. }
    rewrite C in I2, I3. simpl in I2, I3. cbv zeta.
    destruct (transitions_le_events (published inputs) stopped) as [T1 T2].
    rewrite I2, I3. tauto.
Qed.

(** ** Numbers, printing and parsing *)

(** An integer below 2^53 in absolute value is its own Number value. *)
Lemma ofZ_small (z : Z) : (Z.abs z < 2 ^ 53)%Z -> Js.ofZ z = Js.Int z.
Proof.
  intros H. unfold Js.ofZ, Js.nearest.
  destruct (Z.ltb_spec (Z.abs z) (2 ^ 53)) as [_|L]; [|lia].
  destruct (Z.leb_spec (2 ^ 1024) (Z.abs z)) as [L|_].
  - exfalso. assert (2 ^ 53 < 2 ^ 1024)%Z by (apply Z.pow_lt_mono_r; lia). lia.
  - f_equal. destruct z; simpl; lia.
Qed.

(** From 2^53 on, the nearest binary64 value is 2^53 or more. *)
Lemma nearest_large (z : Z) : (2 ^ 53 <= z)%Z -> (2 ^ 53 <= Js.nearest z)%Z.
Proof.
  intros H. unfold Js.nearest.
  destruct (Z.ltb_spec z (2 ^ 53)) as [L|_]; [lia|].
  assert (P : (0 < z)%Z) by lia.
  destruct (Z.log2_spec z P) as [L1 L2].
  assert (L53 : (53 <= Z.log2 z)%Z).
  { apply Z.log2_le_pow2; lia. }
  set (e := (Z.log2 z - 52)%Z) in *.
  assert (E : (1 <= e)%Z) by (unfold e; lia).
  assert (P2 : (0 < 2 ^ e)%Z) by (apply Z.pow_pos_nonneg; lia).
  assert (Q : (2 ^ 52 <= z / 2 ^ e)%Z).
  { apply Z.div_le_lower_bound; [exact P2|].
    replace (2 ^ e * 2 ^ 52)%Z with (2 ^ Z.log2 z)%Z; [exact L1|].
    rewrite <- Z.pow_add_r by lia. f_equal. unfold e. lia. }
  assert (T : (2 <= 2 ^ e)%Z).
  { change 2%Z with (2 ^ 1)%Z at 1. apply Z.pow_le_mono_r; lia. }
  assert (K : forall q', (z / 2 ^ e <= q')%Z -> (2 ^ 53 <= q' * 2 ^ e)%Z).
  { intros q' Hq. change (2 ^ 53)%Z with (2 ^ 52 * 2)%Z.
    apply Z.mul_le_mono_nonneg; lia. }
  destruct (_ <? _)%Z; [apply K; lia|].
  destruct (_ <? _)%Z; [apply K; lia|].
  destruct (Z.even _); apply K; lia.
Qed.

(** The Number value for a natural number is within [60,200] exactly
    when the number is. *)
Lemma tempoInRange_ofZ (n : nat) :
  tempoInRange (Js.ofZ (Z.of_nat n)) = true <-> 60 <= n <= 200.
Proof.
  destruct (Z.lt_ge_cases (Z.of_nat n) (2 ^ 53)) as [S|L].
  - rewrite ofZ_small by lia. unfold tempoInRange.
    rewrite andb_true_iff, !Z.leb_le. lia.
  - unfold Js.ofZ. rewrite Z.abs_eq by lia.
    assert (N := nearest_large _ L).
    split.
    + destruct (_ <=? _)%Z; [discriminate|].
      unfold tempoInRange. rewrite andb_true_iff, !Z.leb_le.
      rewrite Z.sgn_pos by lia. lia.
    + intros [_ H]. exfalso. 
      assert (Z.of_nat n <= 200)%Z by lia. lia.
Qed.

(** The rounding of [ofZ] is that of the standard library's binary64
    conversion: around 2^53 and 2^54, at ties, at the largest finite
    value and at the overflow threshold. *)
Example ofZ_rounds_as_binary64 :
  forallb
    (fun z =>
       match Js.ofZ z, Js.ofFloat (Js.float_of_Z z) with
       | Js.Int a, Js.Int b => (a =? b)%Z
       | Js.Infinity a, Js.Infinity b => Bool.eqb a b
       | _, _ => false
       end)
    [0; 1; -1; 200; 2 ^ 53 - 1; 2 ^ 53; 2 ^ 53 + 1; 2 ^ 53 + 2; 2 ^ 53 + 3;
     2 ^ 54 + 2; 2 ^ 54 + 5; 2 ^ 54 + 6; 2 ^ 54 + 7; - (2 ^ 53 + 1);
     - (2 ^ 53 + 3); 10 ^ 21; 10 ^ 22 + 1; 10 ^ 23;
     123456789012345678901234567890; 2 ^ 100 + 2 ^ 47;
     2 ^ 100 + 2 ^ 47 + 1; 2 ^ 100 + 3 * 2 ^ 47; 2 ^ 1023 + 2 ^ 970;
     2 ^ 1024 - 2 ^ 970 - 1; 2 ^ 1024 - 2 ^ 970; 2 ^ 1024; 10 ^ 400;
     - (10 ^ 400)]%Z
  = true.
Proof. vm_compute. reflexivity. Qed.

(** [parseInt] on some strings: rounding above 2^53, a sign, a zero after
    a minus sign, the hexadecimal prefix, a trailing unit, no digit, and
    a number too large to be finite. *)
Example parseInt_samples :
  Js.parseInt "9007199254740993" = Js.Int 9007199254740992 /\
  Js.parseInt "  -42px" = Js.Int (-42) /\
  Js.parseInt "-0" = Js.NegZero /\
  Js.parseInt "0x1F" = Js.Int 31 /\
  Js.parseInt "0x" = Js.NaN /\
  Js.parseInt "" = Js.NaN /\
  Js.parseInt ("1" ++ "00000000000000000000000000000000000000000000000000000000000000000000000000000"
                   ++ "00000000000000000000000000000000000000000000000000000000000000000000000000000"
                   ++ "00000000000000000000000000000000000000000000000000000000000000000000000000000"
                   ++ "000000000000000000000000000000000000000000000000000000000000000000000000000000")%string
  = Js.Infinity false.
Proof. vm_compute. repeat split. Qed.

(** [parseFloat] on some strings, against the binary64 literals. *)
Example parseFloat_samples :
  Js.parseFloat "0.1" = 0x1.999999999999ap-4%float /\
  Js.parseFloat " 3.14abc" = 0x1.91eb851eb851fp+1%float /\
  Js.parseFloat "-.5e1" = (-5)%float /\
  Js.parseFloat "5." = 5%float /\
  Js.parseFloat "1e3" = 1000%float /\
  Js.parseFloat "0x10" = 0%float /\
  Js.parseFloat "9007199254740993" = 9007199254740992%float /\
  Js.parseFloat "5e-324" = 0x1p-1074%float /\
  Js.parseFloat "2e-324" = 0%float /\
  Js.parseFloat "1.7976931348623157e308" = 0x1.fffffffffffffp+1023%float /\
  Js.parseFloat "1.7976931348623159e308" = infinity /\
  Js.parseFloat "-Infinity" = neg_infinity /\
  Js.parseFloat "." = nan /\
  Js.parseFloat "abc" = nan.
Proof. vm_compute. repeat split. Qed.

Lemma readDigits_uint (d : Decimal.uint) (acc : nat) :
  Js.readDigits 10 (NilEmpty.string_of_uint d) (Z.of_nat acc) true
  = Some (Z.of_nat (Nat.of_uint_acc d acc)).
Proof.
  revert acc. induction d; intros acc; cbn [NilEmpty.string_of_uint Nat.of_uint_acc];
    [reflexivity | ..];
    cbn [Js.readDigits];
    match goal with
    | |- context [Js.digitValue ?c] =>
        let v := eval vm_compute in (Js.digitValue c) in
        change (Js.digitValue c) with v
    end;
    cbv iota;
    match goal with
    | |- context [(?k <? 10)%Z] => change (k <? 10)%Z with true
    end;
    cbv iota;
    match goal with
    | |- Js.readDigits 10 _ ?z true = Some (Z.of_nat (Nat.of_uint_acc _ ?n)) =>
        replace z with (Z.of_nat n)
          by (rewrite ?Nat2Z.inj_succ, Nat.tail_mul_spec, Nat2Z.inj_mul;
              simpl Z.of_nat; lia)
    end;
    apply IHd.
Qed.

(** A string whose first byte is neither a white-space character nor
    the first byte of one is left alone by [trimStart]. *)
Lemma trimStart_head (a : ascii) (r : string) :
  Js.isWhiteSpace a = false ->
  (nat_of_ascii a <? 194) = true ->
  Js.trimStart (String a r) = String a r.
Proof.
  intros W L. apply Nat.ltb_lt in L.
  assert (E2 : forall b, Js.isWhiteSpace2 a b = false).
  { intros b. unfold Js.isWhiteSpace2.
    destruct (Nat.eqb_spec (nat_of_ascii a) 194); [lia | reflexivity]. }
  assert (E3 : forall b c, Js.isWhiteSpace3 a b c = false).
  { intros b c. unfold Js.isWhiteSpace3.
    destruct (Nat.eqb_spec (nat_of_ascii a) 225); [lia|].
    destruct (Nat.eqb_spec (nat_of_ascii a) 226); [lia|].
    destruct (Nat.eqb_spec (nat_of_ascii a) 227); [lia|].
    destruct (Nat.eqb_spec (nat_of_ascii a) 239); [lia|]. reflexivity. }
  cbn [Js.trimStart]. rewrite W.
  destruct r as [|b [|c r]]; rewrite ?E2, ?E3; reflexivity.
Qed.

Lemma trimStart_uint (d : Decimal.uint) :
  Js.trimStart (NilEmpty.string_of_uint d) = NilEmpty.string_of_uint d.
Proof.
  destruct d; cbn [NilEmpty.string_of_uint]; [reflexivity | ..];
    apply trimStart_head; reflexivity.
Qed.

Lemma parseInt_uint (d : Decimal.uint) :
  d <> Decimal.Nil ->
  Js.parseInt (NilEmpty.string_of_uint d) = Js.ofZ (Z.of_nat (Nat.of_uint d)).
Proof.
  intros N. unfold Nat.of_uint.
  assert (R : Js.parseInt (NilEmpty.string_of_uint d)
              = match Js.readDigits 10 (NilEmpty.string_of_uint d) 0%Z false with
                | Some mathInt => Js.ofZ (1 * mathInt)
                | None => Js.NaN
                end).
  { unfold Js.parseInt. rewrite trimStart_uint.
    destruct d as [|d'|d'|d'|d'|d'|d'|d'|d'|d'|d']; try contradiction;
      try reflexivity.
    destruct d'; reflexivity. }
  rewrite R.
  assert (S : Js.readDigits 10 (NilEmpty.string_of_uint d) 0%Z false
              = Js.readDigits 10 (NilEmpty.string_of_uint d) 0%Z true).
  { destruct d; try contradiction; reflexivity. }
  rewrite S. change 0%Z with (Z.of_nat 0).
  rewrite readDigits_uint. f_equal. lia.
Qed.

(** [parseInt] of the decimal digits of [n] is the Number value for
    [n]. *)
Lemma parseInt_toString (n : nat) :
  Js.parseInt (Js.toString n) = Js.ofZ (Z.of_nat n).
Proof.
  unfold Js.toString, NilZero.string_of_uint.
  rewrite <- (DecimalNat.Unsigned.of_to n) at 2.
  destruct (Nat.to_uint n) eqn:E; try (rewrite <- E; apply parseInt_uint; rewrite E; discriminate).
  reflexivity.
Qed.

(** ** Range inputs *)



Section RangeInputFacts.

Variable el : RangeInput.t.
Hypothesis min_le_max : (RangeInput.min el <= RangeInput.max el)%Z.
Hypothesis step_pos : (0 < RangeInput.step el)%Z.









End RangeInputFacts.

(** ** What each input leaves alone *)

Lemma with_prompts_eta (st : PromptDjMidi.state) :
  PromptDjMidi.with_prompts st (PromptDjMidi.prompts st) = st.
Proof. destruct st; reflexivity. Qed.

Lemma handlePromptChanged_shape (h : Heap.t) (st : PromptDjMidi.state)
    (detail : Prompt.t) :
  let '(h', st', evs) := PromptDjMidi.handlePromptChanged h st detail in
  exists m', st' = PromptDjMidi.with_prompts st m' /\
             (evs = [] \/ evs = [PromptDjMidi.prompts_changed m']).
Proof.
  unfold PromptDjMidi.handlePromptChanged.
  destruct (JsMap.get (PromptDjMidi.prompts st) (Prompt.promptId detail)) as [l|].
  - destruct (Heap.deref h l).
    + cbn zeta. eexists. split; [reflexivity | right; reflexivity].
    + exists (PromptDjMidi.prompts st). rewrite with_prompts_eta. tauto.
  - exists (PromptDjMidi.prompts st). rewrite with_prompts_eta. tauto.
Qed.

Lemma handleInstrumentChange_shape (h : Heap.t) (st : PromptDjMidi.state)
    (promptId value : string) :
  let '(h', st', evs) :=
    PromptDjMidi.handleInstrumentChange h st promptId value in
  exists m', st' = PromptDjMidi.with_prompts st m' /\
             (evs = [] \/ evs = [PromptDjMidi.prompts_changed m']).
Proof.
  unfold PromptDjMidi.handleInstrumentChange.
  destruct (JsMap.get (PromptDjMidi.prompts st) promptId) as [l|].
  - destruct (Heap.deref h l).
    + apply handlePromptChanged_shape.
    + exists (PromptDjMidi.prompts st). rewrite with_prompts_eta. tauto.
  - exists (PromptDjMidi.prompts st). rewrite with_prompts_eta. tauto.
Qed.

(** An edit changes at most the store, the grid's map and what the helper
    was given of the prompts. *)
Lemma step_edit_frame (a : Main.app) (i : Main.input) :
  isEdit i = true ->
  exists h' m' lm',
    Main.step a i
    = Main.mk h' (PromptDjMidi.with_prompts (Main.pdjMidi a) m')
              (Main.toastMessage a) lm' (Main.audioAnalyser a)
              (Main.analyserCalls a) /\
    LiveMusicHelper.tempoBpm lm' = LiveMusicHelper.tempoBpm (Main.liveMusicHelper a) /\
    LiveMusicHelper.playPauseCalls lm'
    = LiveMusicHelper.playPauseCalls (Main.liveMusicHelper a).
Proof.
  intros E. destruct i as [detail|promptId value| | | | | | |]; try discriminate.
  - simpl.
    assert (S := handlePromptChanged_shape (Main.heap a) (Main.pdjMidi a) detail).
    destruct (PromptDjMidi.handlePromptChanged (Main.heap a) (Main.pdjMidi a) detail)
      as [[h' st'] evs].
    destruct S as [m' [-> [-> | ->]]]; simpl; repeat eexists.
  - simpl.
    assert (S := handleInstrumentChange_shape (Main.heap a) (Main.pdjMidi a)
                   promptId value).
    destruct (PromptDjMidi.handleInstrumentChange (Main.heap a) (Main.pdjMidi a)
                promptId value) as [[h' st'] evs].
    destruct S as [m' [-> [-> | ->]]]; simpl; repeat eexists.
Qed.

(** An input that is not an edit leaves the store, the grid's map and
    what the helper was given of the prompts alone. *)
Lemma step_other_frame (a : Main.app) (i : Main.input) :
  isEdit i = false ->
  Main.heap (Main.step a i) = Main.heap a /\
  PromptDjMidi.prompts (Main.pdjMidi (Main.step a i))
  = PromptDjMidi.prompts (Main.pdjMidi a) /\
  LiveMusicHelper.updates (Main.liveMusicHelper (Main.step a i))
  = LiveMusicHelper.updates (Main.liveMusicHelper a) /\
  LiveMusicHelper.weightedPrompts (Main.liveMusicHelper (Main.step a i))
  = LiveMusicHelper.weightedPrompts (Main.liveMusicHelper a).
Proof.
  intros E.
  destruct i as [| | | |s| | | |show outcome]; try discriminate;
    try (simpl; tauto).
  - simpl. unfold Main.on_playback_state_changed.
    destruct (PlaybackState_eqb s playing); simpl; tauto.
  - destruct show, outcome; simpl; tauto.
Qed.

(** The toast, the set of filtered prompts, the tempo and the play/pause
    count after one input. *)
Lemma step_effects (a : Main.app) (i : Main.input) :
  Main.toastMessage (Main.step a i) = Main.toastMessage a ++ toasted [i] /\
  PromptDjMidi.filteredPrompts (Main.pdjMidi (Main.step a i))
  = match i with
    | Main.filtered_prompt n =>
        PromptDjMidi.Set_add (PromptDjMidi.filteredPrompts (Main.pdjMidi a))
                             (Main.fp_text n)
    | _ => PromptDjMidi.filteredPrompts (Main.pdjMidi a)
    end /\
  LiveMusicHelper.playPauseCalls (Main.liveMusicHelper (Main.step a i))
  = LiveMusicHelper.playPauseCalls (Main.liveMusicHelper a)
    + match i with Main.play_pause_click => 1 | _ => 0 end /\
  PromptDjMidi.tempoBpm (Main.pdjMidi (Main.step a i))
  = match i with
    | Main.tempo_input value => Js.parseInt value
    | _ => PromptDjMidi.tempoBpm (Main.pdjMidi a)
    end /\
  LiveMusicHelper.tempoBpm (Main.liveMusicHelper (Main.step a i))
  = match i with
    | Main.tempo_input value => Some (Js.parseInt value)
    | _ => LiveMusicHelper.tempoBpm (Main.liveMusicHelper a)
    end.
Proof.
  destruct (isEdit i) eqn:E.
  - destruct (step_edit_frame a i E) as (h' & m' & lm' & -> & T & P).
    destruct i; try discriminate; simpl; rewrite ?app_nil_r, T, P;
      repeat split; lia.
  - destruct i as [| | | |s| | | |show outcome]; try discriminate.
    7: { destruct show, outcome; simpl; rewrite ?app_nil_r; repeat split; lia. }
    3: { simpl. unfold Main.on_playback_state_changed.
         destruct (PlaybackState_eqb s playing); simpl; rewrite ?app_nil_r;
           repeat split; lia. }
    all: simpl; rewrite ?app_nil_r; repeat split; lia.
Qed.

(** ** Control-change messages *)

Lemma ccWeight_in_range (value : Z) :
  (0 <= value <= 127)%Z ->
  weightInRange (PromptController.ccWeight value) = true.
Proof.
  intros H.
  assert (A : forallb (fun n => weightInRange (PromptController.ccWeight (Z.of_nat n)))
                      (seq 0 128) = true) by (vm_compute; reflexivity).
  rewrite forallb_forall in A.
  specialize (A (Z.to_nat value)). rewrite Z2Nat.id in A by lia.
  apply A. apply in_seq. lia.
Qed.

(** C5. With learn mode off, a control-change message whose controller
    number is the slot's cc and whose value is an integer of [0,127] sets
    the slot's weight to [(value / 127) * 2], computed in binary64, and
    dispatches a prompt-changed event carrying that weight; the weight
    lies in [0,2]; value 0 gives 0 and value 127 gives 2. *)
Theorem cc_message_sets_weight
    (st : PromptController.state) (m : PromptController.ControlChange)
    (Hlearn : PromptController.learnMode st = false)
    (Hcc : PromptController.cc_cc m = PromptController.cc st)
    (Hvalue : (0 <= PromptController.cc_value m <= 127)%Z) :
  let '(st', evs) := PromptController.onCcMessage st m in
  PromptController.weight st'
  = ((Js.float_of_Z (PromptController.cc_value m) / 127) * 2)%float /\
  evs = [PromptController.dispatchPromptChange st'] /\
  map Prompt.weight evs = [PromptController.weight st'] /\
  PrimFloat.leb 0 (PromptController.weight st') = true /\
  PrimFloat.leb (PromptController.weight st') 2 = true /\
  (PromptController.cc_value m = 0%Z -> PromptController.weight st' = 0%float) /\
  (PromptController.cc_value m = 127%Z -> PromptController.weight st' = 2%float).
Proof.
  unfold PromptController.onCcMessage. rewrite Hlearn, Hcc, Z.eqb_refl.
  assert (R := ccWeight_in_range _ Hvalue).
  unfold weightInRange in R. apply andb_true_iff in R. destruct R as [R1 R2].
  simpl. repeat split; try assumption.
  - intros ->. reflexivity.
  - intros ->. reflexivity.
Qed.

Lemma cc_message_sets_weight_witness :
  let m := PromptController.mkCC 0%Z 3%Z 64%Z in
  let '(st', evs) := PromptController.onCcMessage sampleController m in
  PromptController.weight st'
  = ((Js.float_of_Z (PromptController.cc_value m) / 127) * 2)%float /\
  evs = [PromptController.dispatchPromptChange st'] /\
  map Prompt.weight evs = [PromptController.weight st'] /\
  PrimFloat.leb 0 (PromptController.weight st') = true /\
  PrimFloat.leb (PromptController.weight st') 2 = true /\
  (PromptController.cc_value m = 0%Z -> PromptController.weight st' = 0%float) /\
  (PromptController.cc_value m = 127%Z -> PromptController.weight st' = 2%float).
Proof.
  apply (cc_message_sets_weight sampleController
           (PromptController.mkCC 0%Z 3%Z 64%Z)).
  - reflexivity.
  - reflexivity.
  - simpl. lia.
Defined.

(** ** Configuration values *)






(** A tempo of 250 asked of the slider reaches the helper as 200, one of
    3 as 60; 0.33 asked of the density slider is stored as 0.35. *)
Example slider_requests :
  let a := Main.run (Main.main GENRE_LIBRARY)
             [Main.tempo_input
                (RangeInput.value PromptDjMidi.tempoSlider (Some (250 # 1)))] in
  let b := Main.run (Main.main GENRE_LIBRARY)
             [Main.tempo_input
                (RangeInput.value PromptDjMidi.tempoSlider (Some (3 # 1)))] in
  let r := PromptController.handleDensityChange sampleController
             (RangeInput.value PromptController.densitySlider (Some (33 # 100))) in
  RangeInput.value PromptDjMidi.tempoSlider (Some (250 # 1)) = "200" /\
  LiveMusicHelper.tempoBpm (Main.liveMusicHelper a) = Some (Js.Int 200) /\
  LiveMusicHelper.tempoBpm (Main.liveMusicHelper b) = Some (Js.Int 60) /\
  RangeInput.value PromptController.densitySlider (Some (33 # 100)) = "0.35" /\
  PromptController.density (fst r) = (7 / 20)%float.
Proof. vm_compute. repeat split. Qed.

(** ** The rate limiter *)

Section LimiterFacts.

Variable V : Type.
Variable interval : nat.


Lemma last_cons_default (a d : V) (l : list V) : last (a :: l) d = last l a.
Proof.
  revert a d. induction l as [|b l IH]; intros a d; [reflexivity|].
  change (last (a :: b :: l) d) with (last (b :: l) d).
  rewrite (IH b d), (IH b a). reflexivity.
Qed.

Lemma forwarded_from_nil (s : RateLimiter.t V) :
  RateLimiter.forwarded_from interval s [] = RateLimiter.drain s.
Proof. reflexivity. Qed.

Lemma forwarded_from_idle (now : nat) (v : V) (rest : list (RateLimiter.timed V)) :
  RateLimiter.forwarded_from interval None ((now, v) :: rest)
  = RateLimiter.forwarded_from interval (Some (now + interval, v)) rest.
Proof.
  unfold RateLimiter.forwarded_from. simpl.
  destruct (RateLimiter.run interval (Some (now + interval, v)) rest).
  reflexivity.
Qed.

Lemma forwarded_from_pending (due : nat) (v : V) (now : nat) (v' : V)
    (rest : list (RateLimiter.timed V)) :
  RateLimiter.forwarded_from interval (Some (due, v)) ((now, v') :: rest)
  = if due <=? now
    then (due, v) :: RateLimiter.forwarded_from interval (Some (now + interval, v')) rest
    else RateLimiter.forwarded_from interval (Some (due, v')) rest.
Proof.
  unfold RateLimiter.forwarded_from. simpl.
  unfold RateLimiter.set, RateLimiter.flush.
  destruct (due <=? now).
  - destruct (RateLimiter.run interval (Some (now + interval, v')) rest).
    reflexivity.
  - destruct (RateLimiter.run interval (Some (due, v')) rest).
    reflexivity.
Qed.

(** A pending value is superseded by the edits made before its flush is
    due; the flush forwards the last of them. *)
Lemma forwarded_from_window (edits : list (RateLimiter.timed V)) (due : nat) (v : V) :
  RateLimiter.forwarded_from interval (Some (due, v)) edits
  = (due, last (map snd (fst (RateLimiter.takeWindow due edits))) v)
      :: RateLimiter.forwarded_from interval None (snd (RateLimiter.takeWindow due edits)).
Proof.
  revert v. induction edits as [|[now v'] rest IH]; intros v.
  - reflexivity.
  - rewrite forwarded_from_pending. cbn [RateLimiter.takeWindow].
    destruct (Nat.leb_spec due now) as [L|L].
    + destruct (Nat.ltb_spec now due) as [L'|L']; [lia|].
      cbn [fst snd map]. rewrite forwarded_from_idle. reflexivity.
    + destruct (Nat.ltb_spec now due) as [L'|L']; [|lia].
      rewrite IH.
      destruct (RateLimiter.takeWindow due rest) as [w r]. cbn [fst snd map].
      rewrite last_cons_default. reflexivity.
Qed.

Lemma takeWindow_length (due : nat) (edits : list (RateLimiter.timed V)) :
  List.length (snd (RateLimiter.takeWindow due edits)) <= List.length edits.
Proof.
  induction edits as [|[now v] rest IH]; simpl; [lia|].
  destruct (now <? due); simpl; [|lia].
  destruct (RateLimiter.takeWindow due rest); simpl in *. lia.
Qed.

Lemma forwarded_windows (v0 : V) (fuel : nat) (edits : list (RateLimiter.timed V)) :
  List.length edits <= fuel ->
  RateLimiter.forwarded_from interval None edits
  = map (fun w => (fst w, RateLimiter.lastValue v0 w)) (RateLimiter.windows interval fuel edits).
Proof.
  revert edits. induction fuel as [|fuel IH]; intros edits L.
  - destruct edits; [reflexivity | simpl in L; lia].
  - destruct edits as [|[now v] rest]; [reflexivity|].
    rewrite forwarded_from_idle, forwarded_from_window.
    cbn [RateLimiter.windows].
    assert (T := takeWindow_length (now + interval) rest).
    destruct (RateLimiter.takeWindow (now + interval) rest) as [w r].
    cbn [fst snd map] in *. unfold RateLimiter.lastValue at 1. cbn [snd].
    rewrite last_cons_default. f_equal.
    apply IH. simpl in L. lia.
Qed.

(** Forwarded values come in the order they were set. *)
Lemma forwarded_from_subseq (edits : list (RateLimiter.timed V)) (due : nat) (v : V) :
  RateLimiter.Subseq (map snd (RateLimiter.forwarded_from interval (Some (due, v)) edits))
                     (v :: map snd edits).
Proof.
  revert due v. induction edits as [|[now v'] rest IH]; intros due v.
  - simpl. apply RateLimiter.Subseq_take, RateLimiter.Subseq_nil.
  - rewrite forwarded_from_pending. destruct (due <=? now).
    + cbn [map snd]. apply RateLimiter.Subseq_take. apply IH.
    + cbn [map snd]. apply RateLimiter.Subseq_skip. apply IH.
Qed.

(** The last value set is the last value RateLimiter.forwarded interval. *)
Lemma forwarded_from_last (edits : list (RateLimiter.timed V)) (due : nat) (v v0 : V) :
  last (map snd (RateLimiter.forwarded_from interval (Some (due, v)) edits)) v0
  = last (map snd edits) v.
Proof.
  revert due v v0. induction edits as [|[now v'] rest IH]; intros due v v0.
  - reflexivity.
  - rewrite forwarded_from_pending. cbn [map snd].
    rewrite (last_cons_default v' v).
    destruct (due <=? now).
    + cbn [map snd]. rewrite last_cons_default. apply IH.
    + apply IH.
Qed.

(** Two RateLimiter.forwarded interval updates are at least one interval apart. *)
Lemma forwarded_from_spaced (edits : list (RateLimiter.timed V)) (due : nat) (v : V) :
  exists rest : list nat,
    map fst (RateLimiter.forwarded_from interval (Some (due, v)) edits) = due :: rest /\
    Sorted (fun a b => a + interval <= b) (due :: rest).
Proof.
  revert due v. induction edits as [|[now v'] tl IH]; intros due v.
  - exists []. split; [reflexivity|]. repeat constructor.
  - rewrite forwarded_from_pending.
    destruct (Nat.leb_spec due now) as [L|L].
    + destruct (IH (now + interval) v') as [rest [E S]].
      exists ((now + interval) :: rest). cbn [map fst]. rewrite E.
      split; [reflexivity|]. constructor; [exact S|]. constructor. lia.
    + apply IH.
Qed.

(** C1. Whatever the edits (times in milliseconds, oldest first), the
    limiter forwards one update per rate-limit interval, namely the last
    value set in that interval, at the time the interval closes; the
    RateLimiter.forwarded interval values keep the order in which they were set, so no earlier
    value follows a later one; the last value set is the last value
    RateLimiter.forwarded interval, so it is always sent; two RateLimiter.forwarded interval updates are at least
    one interval apart; and a burst of edits that all fall within one
    interval of the first yields a single update, the last value of the
    burst. *)
Theorem rate_limiter_latest_wins (edits : list (RateLimiter.timed V)) (v0 : V) :
  RateLimiter.forwarded interval edits
  = map (fun w => (fst w, RateLimiter.lastValue v0 w)) (RateLimiter.intervals interval edits) /\
  List.length (RateLimiter.forwarded interval edits) = List.length (RateLimiter.intervals interval edits) /\
  RateLimiter.Subseq (map snd (RateLimiter.forwarded interval edits)) (map snd edits) /\
  (edits <> [] ->
   last (map snd (RateLimiter.forwarded interval edits)) v0 = last (map snd edits) v0) /\
  Sorted (fun a b => a + interval <= b) (map fst (RateLimiter.forwarded interval edits)) /\
  (forall (now : nat) (v : V) (rest : list (RateLimiter.timed V)),
      edits = (now, v) :: rest ->
      Forall (fun e => fst e < now + interval) rest ->
      RateLimiter.forwarded interval edits = [(now + interval, last (map snd rest) v)]).
Proof.
  assert (W : RateLimiter.forwarded interval edits
              = map (fun w => (fst w, RateLimiter.lastValue v0 w)) (RateLimiter.intervals interval edits)).
  { apply forwarded_windows. unfold RateLimiter.intervals. lia. }
  split; [exact W|]. split; [rewrite W; apply length_map|].
  unfold RateLimiter.forwarded, RateLimiter.idle.
  destruct edits as [|[now v] rest].
  - split; [constructor|]. split; [intros H; contradiction|].
    split; [constructor|]. intros ? ? ? E; discriminate.
  - rewrite forwarded_from_idle. split; [|split; [|split]].
    + cbn [map snd]. apply forwarded_from_subseq.
    + intros _. rewrite forwarded_from_last. cbn [map snd].
      rewrite last_cons_default. reflexivity.
    + destruct (forwarded_from_spaced rest (now + interval) v) as [r [E S]].
      rewrite E. exact S.
    + intros now' v' rest' E F. injection E as <- <- <-.
      rewrite forwarded_from_window.
      assert (T : RateLimiter.takeWindow (now + interval) rest = (rest, [])).
      { clear W. induction rest as [|[t x] tl IH]; [reflexivity|].
        inversion F as [|? ? Ht F']; subst. simpl in Ht.
        cbn [RateLimiter.takeWindow].
        destruct (Nat.ltb_spec t (now + interval)) as [L|L]; [|lia].
        rewrite (IH F'). reflexivity. }
      rewrite T. reflexivity.
Qed.

End LimiterFacts.

(** The design document's scenario: tempo set to 140, then 90, then 130
    within 10 ms with a 30 ms rate limit; a single update, 130. *)
Example limiter_tempo_scenario :
  RateLimiter.forwarded 30 [(0, 140%Z); (4, 90%Z); (9, 130%Z)] = [(30, 130%Z)].
Proof. reflexivity. Qed.

(** A longer drag: three intervals, three updates. *)
Example limiter_three_intervals :
  RateLimiter.forwarded 30 [(0, 1); (10, 2); (40, 3); (45, 4); (100, 5)]
  = [(30, 2); (70, 4); (130, 5)] /\
  RateLimiter.intervals 30 [(0, 1); (10, 2); (40, 3); (45, 4); (100, 5)]
  = [(30, [1; 2]); (70, [3; 4]); (130, [5])].
Proof. split; reflexivity. Qed.

(** ** The scheduler's underrun policy *)

Section SchedulerFacts.

Variable Chunk : Type.
Variable threshold : nat.

Lemma scheduler_stopped_silent (es : list (PlaybackScheduler.event Chunk))
    (s : PlaybackScheduler.t Chunk) :
  PlaybackScheduler.state s = stopped ->
  PlaybackScheduler.state (fst (PlaybackScheduler.run threshold s es)) = stopped /\
  snd (PlaybackScheduler.run threshold s es) = [].
Proof.
  revert s. induction es as [|e es IH]; intros s St; [simpl; tauto|].
  cbn [PlaybackScheduler.run].
  assert (E : exists s1, PlaybackScheduler.step threshold s e = (s1, []) /\
                         PlaybackScheduler.state s1 = stopped).
  { destruct e; simpl; rewrite ?St; eauto. }
  destruct E as [s1 [E St1]]. rewrite E.
  destruct (IH s1 St1) as [I1 I2].
  destruct (PlaybackScheduler.run threshold s1 es). simpl in *. subst. tauto.
Qed.

Lemma diagnostics_app (o1 o2 : list (PlaybackScheduler.output Chunk)) :
  PlaybackScheduler.diagnostics (o1 ++ o2)
  = PlaybackScheduler.diagnostics o1 + PlaybackScheduler.diagnostics o2.
Proof.
  unfold PlaybackScheduler.diagnostics. rewrite filter_app, length_app.
  reflexivity.
Qed.

(** One step that is not [stop]: the diagnostics it emits account for the
    change of the starvation flag. *)
Lemma step_episodes (s : PlaybackScheduler.t Chunk)
    (e : PlaybackScheduler.event Chunk)
    (tail : list (PlaybackScheduler.output Chunk)) :
  e <> PlaybackScheduler.stop ->
  PlaybackScheduler.diagnostics (snd (PlaybackScheduler.step threshold s e))
  + PlaybackScheduler.episodes
      (PlaybackScheduler.starving (fst (PlaybackScheduler.step threshold s e))) tail
  = PlaybackScheduler.episodes (PlaybackScheduler.starving s)
      (snd (PlaybackScheduler.step threshold s e) ++ tail).
Proof.
  intros N. destruct s as [st buf sv]. destruct e as [c| | | |]; simpl.
  - destruct st; simpl; try reflexivity.
    destruct (threshold <=? List.length (buf ++ [c])); reflexivity.
  - destruct st; simpl; try reflexivity.
    destruct buf as [|c rest]; simpl; [|reflexivity].
    destruct sv; reflexivity.
  - destruct st; reflexivity.
  - destruct st; reflexivity.
  - contradiction.
Qed.

Lemma run_episodes (es : list (PlaybackScheduler.event Chunk))
    (s : PlaybackScheduler.t Chunk) :
  PlaybackScheduler.diagnostics (snd (PlaybackScheduler.run threshold s es))
  = PlaybackScheduler.episodes (PlaybackScheduler.starving s)
      (snd (PlaybackScheduler.run threshold s es)).
Proof.
  revert s. induction es as [|e es IH]; intros s; [reflexivity|].
  cbn [PlaybackScheduler.run].
  destruct e as [c| | | |].
  5: {
    cbn [PlaybackScheduler.step].
    destruct (scheduler_stopped_silent es
                (PlaybackScheduler.mk stopped (@nil Chunk) false) eq_refl) as [_ O].
    destruct (PlaybackScheduler.run threshold
                (PlaybackScheduler.mk stopped (@nil Chunk) false) es).
    simpl in *. subst. reflexivity. }
  all: match goal with
       | |- context [PlaybackScheduler.step threshold ?s0 ?e] =>
           assert (N : e <> PlaybackScheduler.stop) by discriminate;
           assert (S := fun tail => step_episodes s0 e tail N);
           specialize (IH (fst (PlaybackScheduler.step threshold s0 e)));
           destruct (PlaybackScheduler.step threshold s0 e) as [s1 o1];
           cbn [fst snd] in *;
           destruct (PlaybackScheduler.run threshold s1 es) as [s2 o2];
           cbn [fst snd] in *;
           rewrite diagnostics_app, IH; apply S
       end.
Qed.

Lemma run_autonomous (es : list (PlaybackScheduler.event Chunk))
    (s : PlaybackScheduler.t Chunk) :
  PlaybackScheduler.state s = playing ->
  forallb (PlaybackScheduler.autonomous) es = true ->
  PlaybackScheduler.state (fst (PlaybackScheduler.run threshold s es)) = playing.
Proof.
  revert s. induction es as [|e es IH]; intros s St A; [exact St|].
  cbn [PlaybackScheduler.run]. simpl in A. apply andb_true_iff in A.
  destruct A as [Ae A].
  assert (St1 : PlaybackScheduler.state
                  (fst (PlaybackScheduler.step threshold s e)) = playing).
  { destruct s as [st buf sv]. simpl in St. subst st.
    destruct e; try discriminate; simpl.
    - reflexivity.
    - destruct buf; [destruct sv|]; reflexivity. }
  specialize (IH _ St1 A).
  destruct (PlaybackScheduler.step threshold s e) as [s1 o1].
  cbn [fst] in IH.
  destruct (PlaybackScheduler.run threshold s1 es) as [s2 o2]. exact IH.
Qed.

Lemma run_stopped_by_stop (es : list (PlaybackScheduler.event Chunk))
    (s : PlaybackScheduler.t Chunk) :
  PlaybackScheduler.state s <> stopped ->
  PlaybackScheduler.state (fst (PlaybackScheduler.run threshold s es)) = stopped ->
  In (PlaybackScheduler.stop) es.
Proof.
  revert s. induction es as [|e es IH]; intros s St F; [contradiction|].
  cbn [PlaybackScheduler.run] in F.
  destruct e as [c| | | |]; [| | | |left; reflexivity]; right.
  all: match type of F with
       | context [PlaybackScheduler.step threshold ?s0 ?e] =>
           assert (St1 : PlaybackScheduler.state
                           (fst (PlaybackScheduler.step threshold s0 e)) <> stopped)
             by (destruct s0 as [st buf sv]; simpl in St |- *;
                 destruct st; simpl; try congruence;
                 try (destruct (threshold <=? _); simpl; congruence);
                 try (destruct buf; [destruct sv|]; simpl; congruence));
           specialize (IH _ St1);
           destruct (PlaybackScheduler.step threshold s0 e) as [s1 o1];
           cbn [fst] in IH;
           destruct (PlaybackScheduler.run threshold s1 es) as [s2 o2];
           apply IH; exact F
       end.
Qed.

(** C2. When the clock asks for a chunk while the scheduler is playing
    with an empty buffer, the state stays [playing], silence is output,
    and an [UnderrunDiagnostic] is emitted if the starvation is just
    beginning; a chunk that then arrives is the next thing played and ends
    the starvation; chunks and clock ticks never take the scheduler out of
    [playing], and it is [stopped] only after a [stop]; over any events,
    the diagnostics emitted are as many as the starvation episodes in the
    output. *)
Theorem underrun_keeps_playing :
  (forall s : PlaybackScheduler.t Chunk,
      PlaybackScheduler.state s = playing ->
      PlaybackScheduler.buffer s = [] ->
      let r := PlaybackScheduler.step threshold s (PlaybackScheduler.clock) in
      PlaybackScheduler.state (fst r) = playing /\
      PlaybackScheduler.starving (fst r) = true /\
      snd r = (if PlaybackScheduler.starving s
               then [PlaybackScheduler.silence]
               else [PlaybackScheduler.UnderrunDiagnostic;
                     PlaybackScheduler.silence])) /\
  (forall (s : PlaybackScheduler.t Chunk) (c : Chunk),
      PlaybackScheduler.state s = playing ->
      PlaybackScheduler.buffer s = [] ->
      let r := PlaybackScheduler.run threshold s
                 [PlaybackScheduler.enqueue c; PlaybackScheduler.clock] in
      snd r = [PlaybackScheduler.audio c] /\
      PlaybackScheduler.state (fst r) = playing /\
      PlaybackScheduler.starving (fst r) = false) /\
  (forall (s : PlaybackScheduler.t Chunk) (es : list (PlaybackScheduler.event Chunk)),
      PlaybackScheduler.state s = playing ->
      forallb (PlaybackScheduler.autonomous) es = true ->
      PlaybackScheduler.state (fst (PlaybackScheduler.run threshold s es)) = playing) /\
  (forall (s : PlaybackScheduler.t Chunk) (es : list (PlaybackScheduler.event Chunk)),
      PlaybackScheduler.state s = playing ->
      PlaybackScheduler.state (fst (PlaybackScheduler.run threshold s es)) = stopped ->
      In (PlaybackScheduler.stop) es) /\
  (forall (s : PlaybackScheduler.t Chunk) (es : list (PlaybackScheduler.event Chunk)),
      let out := snd (PlaybackScheduler.run threshold s es) in
      PlaybackScheduler.diagnostics out
      = PlaybackScheduler.episodes (PlaybackScheduler.starving s) out).
Proof.
  split; [|split; [|split; [|split]]].
  - intros [st buf sv]; simpl. intros -> ->. destruct sv; simpl; tauto.
  - intros [st buf sv] c; simpl. intros -> ->. simpl. tauto.
  - intros s es. apply run_autonomous.
  - intros s es St. apply run_stopped_by_stop. congruence.
  - intros s es. apply run_episodes.
Qed.

End SchedulerFacts.

(** A starved stretch heard once: chunk, two silent ticks, chunk, one
    silent tick; two episodes, two diagnostics, state still [playing]. *)
Example scheduler_two_episodes :
  let s := PlaybackScheduler.mk playing [7] false in
  let r := PlaybackScheduler.run 2 s
             [PlaybackScheduler.clock; PlaybackScheduler.clock;
              PlaybackScheduler.clock; PlaybackScheduler.enqueue 8;
              PlaybackScheduler.clock; PlaybackScheduler.clock] in
  snd r = [PlaybackScheduler.audio 7;
           PlaybackScheduler.UnderrunDiagnostic; PlaybackScheduler.silence;
           PlaybackScheduler.silence;
           PlaybackScheduler.audio 8;
           PlaybackScheduler.UnderrunDiagnostic; PlaybackScheduler.silence] /\
  PlaybackScheduler.state (fst r) = playing /\
  PlaybackScheduler.diagnostics (snd r) = 2.
Proof. repeat split. Qed.

(** ** The reconnect policy *)

Section PolicyFacts.

Variables base cap : Q.
Variable maxAttempts : nat.
Hypothesis base_nonneg : (0 <= base)%Q.
Hypothesis cap_nonneg : (0 <= cap)%Q.

Lemma pow2_nonneg (n : nat) : (0 <= inject_Z (2 ^ Z.of_nat n))%Q.
Proof.
  change 0%Q with (inject_Z 0). rewrite <- Zle_Qle.
  apply Z.pow_nonneg. lia.
Qed.

Lemma backoff_nonneg (attempt : nat) :
  (0 <= ReconnectPolicy.backoff base cap attempt)%Q.
Proof.
  unfold ReconnectPolicy.backoff. apply Q.min_glb; [|exact cap_nonneg].
  apply Qmult_le_0_compat; [exact base_nonneg | apply pow2_nonneg].
Qed.

Lemma backoff_monotone (a b : nat) :
  a <= b ->
  (ReconnectPolicy.backoff base cap a <= ReconnectPolicy.backoff base cap b)%Q.
Proof.
  intros L. unfold ReconnectPolicy.backoff. apply Q.min_le_compat_r.
  rewrite !(Qmult_comm base). apply Qmult_le_compat_r; [|exact base_nonneg].
  rewrite <- Zle_Qle. apply Z.pow_le_mono_r; lia.
Qed.

Lemma jitter_bounds (d r : Q) :
  (0 <= d)%Q -> (0 <= r)%Q -> (r <= 1)%Q ->
  (0 <= ReconnectPolicy.jitter d r)%Q /\
  (ReconnectPolicy.jitter d r <= d * (1 # 4))%Q.
Proof.
  intros D R0 R1. unfold ReconnectPolicy.jitter. split.
  - apply Qmult_le_0_compat; [exact R0|].
    apply Qmult_le_0_compat; [exact D | discriminate].
  - rewrite <- (Qmult_1_l (d * (1 # 4))) at 2.
    apply Qmult_le_compat_r; [exact R1|].
    apply Qmult_le_0_compat; [exact D | discriminate].
Qed.

Lemma orchestrator_stopped_silent (es : list PlaybackOrchestrator.event)
    (o : PlaybackOrchestrator.t) :
  PlaybackOrchestrator.playbackState o = stopped ->
  PlaybackOrchestrator.run base cap maxAttempts o es = (o, []).
Proof.
  revert o. induction es as [|e es IH]; intros o St; [reflexivity|].
  cbn [PlaybackOrchestrator.run]. unfold PlaybackOrchestrator.step.
  rewrite St. rewrite (IH o St). reflexivity.
Qed.

(** A step from a state that is not [stopped] either stays out of
    [stopped] and emits no fatal error, or stops and emits exactly one. *)
Lemma orchestrator_step_cases (o : PlaybackOrchestrator.t)
    (e : PlaybackOrchestrator.event) :
  PlaybackOrchestrator.playbackState o <> stopped ->
  let r := PlaybackOrchestrator.step base cap maxAttempts o e in
  (PlaybackOrchestrator.playbackState (fst r) <> stopped /\
   PlaybackOrchestrator.fatals (snd r) = 0) \/
  (PlaybackOrchestrator.playbackState (fst r) = stopped /\
   snd r = [PlaybackOrchestrator.fatal_error]).
Proof.
  intros St. destruct o as [st a]. simpl in St. unfold PlaybackOrchestrator.step.
  cbn [PlaybackOrchestrator.playbackState PlaybackOrchestrator.attempts].
  destruct st; try contradiction;
    destruct e as [r| |]; simpl;
    try (destruct (ReconnectPolicy.shouldRetry maxAttempts a); simpl);
    try (left; split; [discriminate | reflexivity]);
    try (right; split; reflexivity).
Qed.

Lemma fatals_app (x y : list PlaybackOrchestrator.output) :
  PlaybackOrchestrator.fatals (x ++ y)
  = PlaybackOrchestrator.fatals x + PlaybackOrchestrator.fatals y.
Proof.
  unfold PlaybackOrchestrator.fatals. rewrite filter_app, length_app.
  reflexivity.
Qed.

Lemma orchestrator_fatal_once (es : list PlaybackOrchestrator.event)
    (o : PlaybackOrchestrator.t) :
  PlaybackOrchestrator.playbackState o <> stopped ->
  let r := PlaybackOrchestrator.run base cap maxAttempts o es in
  (PlaybackOrchestrator.playbackState (fst r) = stopped /\
   PlaybackOrchestrator.fatals (snd r) = 1) \/
  (PlaybackOrchestrator.playbackState (fst r) <> stopped /\
   PlaybackOrchestrator.fatals (snd r) = 0).
Proof.
  revert o. induction es as [|e es IH]; intros o St.
  - right. simpl. split; [exact St | reflexivity].
  - cbn zeta. cbn [PlaybackOrchestrator.run].
    assert (C := orchestrator_step_cases o e St). cbn zeta in C.
    destruct (PlaybackOrchestrator.step base cap maxAttempts o e) as [o1 out1].
    cbn [fst snd] in C. destruct C as [[St1 F1] | [St1 ->]].
    + specialize (IH o1 St1). cbn zeta in IH.
      destruct (PlaybackOrchestrator.run base cap maxAttempts o1 es) as [o2 out2].
      cbn [fst snd] in *. rewrite fatals_app, F1. exact IH.
    + rewrite (orchestrator_stopped_silent es o1 St1). left.
      split; [exact St1 | reflexivity].
Qed.

(** Errors in a row, with no sustained playback in between: while the
    attempt count has not passed the maximum each error is retried; the
    error that finds it past the maximum is fatal. *)
Lemma orchestrator_errors_in_a_row (rs : list Q) (o : PlaybackOrchestrator.t) :
  PlaybackOrchestrator.playbackState o <> stopped ->
  PlaybackOrchestrator.attempts o <= S maxAttempts ->
  let r := PlaybackOrchestrator.run base cap maxAttempts o
             (map PlaybackOrchestrator.stream_error rs) in
  let n := PlaybackOrchestrator.attempts o + List.length rs in
  (n <= S maxAttempts ->
   PlaybackOrchestrator.fatals (snd r) = 0 /\
   fst r = match rs with
           | [] => o
           | _ => PlaybackOrchestrator.mk loading n
           end) /\
  (S maxAttempts < n ->
   PlaybackOrchestrator.fatals (snd r) = 1 /\
   PlaybackOrchestrator.playbackState (fst r) = stopped).
Proof.
  revert o. induction rs as [|x rs IH]; intros o St A.
  - cbn zeta. simpl. rewrite Nat.add_0_r. split.
    + intros _. split; reflexivity.
    + intros H. lia.
  - cbn zeta. cbn [map PlaybackOrchestrator.run List.length].
    destruct o as [st a]. simpl in St, A.
    cbn [PlaybackOrchestrator.attempts].
    destruct (Nat.leb_spec a maxAttempts) as [L|L].
    + assert (E : PlaybackOrchestrator.step base cap maxAttempts
                    (PlaybackOrchestrator.mk st a)
                    (PlaybackOrchestrator.stream_error x)
                  = (PlaybackOrchestrator.mk loading (S a),
                     [PlaybackOrchestrator.reconnect_after
                        (ReconnectPolicy.delay base cap a x)])).
      { unfold PlaybackOrchestrator.step, ReconnectPolicy.shouldRetry. simpl.
        apply Nat.leb_le in L. rewrite L.
        destruct st; try reflexivity. contradiction. }
      rewrite E. clear E.
      specialize (IH (PlaybackOrchestrator.mk loading (S a))).
      cbn zeta in IH. simpl in IH.
      destruct IH as [I1 I2]; [discriminate | lia |].
      destruct (PlaybackOrchestrator.run base cap maxAttempts
                  (PlaybackOrchestrator.mk loading (S a))
                  (map PlaybackOrchestrator.stream_error rs)) as [o2 out2].
      cbn [fst snd] in *. rewrite fatals_app. simpl.
      split.
      * intros H. destruct I1 as (F & E); [lia|].
        split; [exact F|]. rewrite E.
        destruct rs; simpl; f_equal; lia.
      * intros H. apply I2. lia.
    + assert (E : PlaybackOrchestrator.step base cap maxAttempts
                    (PlaybackOrchestrator.mk st a)
                    (PlaybackOrchestrator.stream_error x)
                  = (PlaybackOrchestrator.mk stopped a,
                     [PlaybackOrchestrator.fatal_error])).
      { unfold PlaybackOrchestrator.step, ReconnectPolicy.shouldRetry. simpl.
        apply Nat.leb_gt in L. rewrite L.
        destruct st; try reflexivity. contradiction. }
      rewrite E. clear E.
      rewrite orchestrator_stopped_silent by reflexivity.
      cbn [fst snd]. split; [intros H; lia|]. intros _. split; reflexivity.
Qed.

(** C3. With a non-negative base delay and cap: the delay for an attempt
    is [min (base * 2^attempt) cap] plus a jitter that lies between 0 and
    a quarter of that value; without the jitter the delays do not
    decrease as the attempt count grows, and never pass the cap;
    [shouldRetry] is false exactly when the attempt count exceeds the
    maximum; an error that arrives then makes the playback state
    [stopped] and emits a fatal error; over any events the fatal error is
    emitted at most once, and exactly once when the state ends
    [stopped]; errors in a row from a fresh playback are retried
    [maxAttempts + 1] times and the next one is fatal. *)
Theorem reconnect_policy_backoff :
  (forall (attempt : nat) (r : Q),
      (0 <= r)%Q -> (r <= 1)%Q ->
      let d := Qmin (base * inject_Z (2 ^ Z.of_nat attempt)) cap in
      (ReconnectPolicy.delay base cap attempt r
       == d + ReconnectPolicy.jitter d r)%Q /\
      (0 <= ReconnectPolicy.jitter d r)%Q /\
      (ReconnectPolicy.jitter d r <= d * (1 # 4))%Q) /\
  (forall a b : nat,
      a <= b ->
      (ReconnectPolicy.backoff base cap a <= ReconnectPolicy.backoff base cap b)%Q /\
      (ReconnectPolicy.backoff base cap b <= cap)%Q) /\
  (forall attempt : nat,
      ReconnectPolicy.shouldRetry maxAttempts attempt = false <->
      maxAttempts < attempt) /\
  (forall (o : PlaybackOrchestrator.t) (r : Q),
      PlaybackOrchestrator.playbackState o <> stopped ->
      maxAttempts < PlaybackOrchestrator.attempts o ->
      PlaybackOrchestrator.step base cap maxAttempts o
        (PlaybackOrchestrator.stream_error r)
      = (PlaybackOrchestrator.mk stopped (PlaybackOrchestrator.attempts o),
         [PlaybackOrchestrator.fatal_error])) /\
  (forall (o : PlaybackOrchestrator.t) (es : list PlaybackOrchestrator.event),
      PlaybackOrchestrator.playbackState o <> stopped ->
      let r := PlaybackOrchestrator.run base cap maxAttempts o es in
      PlaybackOrchestrator.fatals (snd r) <= 1 /\
      (PlaybackOrchestrator.fatals (snd r) = 1 <->
       PlaybackOrchestrator.playbackState (fst r) = stopped)) /\
  (forall rs : list Q,
      let r := PlaybackOrchestrator.run base cap maxAttempts
                 (PlaybackOrchestrator.mk playing 0)
                 (map PlaybackOrchestrator.stream_error rs) in
      (List.length rs <= S maxAttempts ->
       PlaybackOrchestrator.fatals (snd r) = 0 /\
       PlaybackOrchestrator.playbackState (fst r) <> stopped) /\
      (S maxAttempts < List.length rs ->
       PlaybackOrchestrator.fatals (snd r) = 1 /\
       PlaybackOrchestrator.playbackState (fst r) = stopped)).
Proof.
  split; [|split; [|split; [|split; [|split]]]].
  - intros attempt r R0 R1 d.
    split; [reflexivity|].
    apply jitter_bounds; [apply (backoff_nonneg attempt) | exact R0 | exact R1].
  - intros a b L. split; [apply backoff_monotone, L|].
    unfold ReconnectPolicy.backoff. apply Q.le_min_r.
  - intros attempt. unfold ReconnectPolicy.shouldRetry.
    rewrite Nat.leb_gt. tauto.
  - intros [st a] r St L. simpl in *.
    unfold PlaybackOrchestrator.step, ReconnectPolicy.shouldRetry. simpl.
    apply Nat.leb_gt in L. rewrite L.
    destruct st; try reflexivity. contradiction.
  - intros o es St.
    destruct (orchestrator_fatal_once es o St) as [[S1 F1] | [S0 F0]];
      cbn zeta; rewrite ?F1, ?F0; split; try lia; split; intros H;
      try reflexivity; try assumption; try discriminate; try contradiction.
  - intros rs.
    destruct (orchestrator_errors_in_a_row rs (PlaybackOrchestrator.mk playing 0))
      as [I1 I2]; [discriminate | simpl; lia |].
    cbn zeta in *. simpl in I1, I2. split.
    + intros H. destruct (I1 H) as [F E]. split; [exact F|].
      rewrite E. destruct rs; discriminate.
    + exact I2.
Qed.

End PolicyFacts.

(** Half a second of base delay, eight seconds of cap, five attempts. *)
Lemma reconnect_policy_backoff_witness :
  (0 <= 500)%Q /\ (0 <= 8000)%Q /\
  ((ReconnectPolicy.backoff 500 8000 0 == 500)%Q /\
   (ReconnectPolicy.backoff 500 8000 3 == 4000)%Q /\
   (ReconnectPolicy.backoff 500 8000 4 == 8000)%Q /\
   (ReconnectPolicy.backoff 500 8000 9 == 8000)%Q /\
   (ReconnectPolicy.delay 500 8000 3 (1 # 2) == 4500)%Q /\
   ReconnectPolicy.shouldRetry 5 5 = true /\
   ReconnectPolicy.shouldRetry 5 6 = false) /\
  ((ReconnectPolicy.backoff 500 8000 2 <= ReconnectPolicy.backoff 500 8000 5)%Q /\
   (ReconnectPolicy.backoff 500 8000 5 <= 8000)%Q) /\
  (let r := PlaybackOrchestrator.run 500 8000 5
              (PlaybackOrchestrator.mk playing 0)
              (map PlaybackOrchestrator.stream_error
                   [0; 1 # 2; 1; 0; 1 # 3; 1 # 4; 1]%Q) in
   PlaybackOrchestrator.fatals (snd r) = 1 /\
   PlaybackOrchestrator.playbackState (fst r) = stopped).
Proof.
  assert (B : (0 <= 500)%Q) by discriminate.
  assert (C : (0 <= 8000)%Q) by discriminate.
  split; [exact B|]. split; [exact C|]. split; [|split].
  - vm_compute. repeat split.
  - apply (proj1 (proj2 (reconnect_policy_backoff 500 8000 5 B C)) 2 5). lia.
  - apply (proj2 (proj2 (proj2 (proj2 (proj2
             (reconnect_policy_backoff 500 8000 5 B C)))))
             [0; 1 # 2; 1; 0; 1 # 3; 1 # 4; 1]%Q).
    simpl. lia.
Defined.

(** The design document's scenario with a maximum of one: two errors in
    quick succession, each followed by a reconnect, then a third failure
    past the maximum; one fatal error, and the state ends [stopped]. *)
Example orchestrator_scenario :
  let r := PlaybackOrchestrator.run 500 8000 1
             (PlaybackOrchestrator.mk playing 0)
             [PlaybackOrchestrator.stream_error 0;
              PlaybackOrchestrator.connected;
              PlaybackOrchestrator.stream_error 0;
              PlaybackOrchestrator.stream_error 0] in
  PlaybackOrchestrator.playbackState (fst r) = stopped /\
  PlaybackOrchestrator.fatals (snd r) = 1 /\
  List.length (snd r) = 3.
Proof. vm_compute. repeat split. Qed.

(* ================================================================== *)
(** * Part III. Further properties of the code                          *)
(* ================================================================== *)

(** ** Slot labels *)

Lemma split_uint (d : Decimal.uint) :
  JsText.split "-" (NilEmpty.string_of_uint d) = [NilEmpty.string_of_uint d].
Proof.
  induction d; cbn [NilEmpty.string_of_uint]; [reflexivity | ..];
    cbn [JsText.split]; rewrite IHd; reflexivity.
Qed.

Lemma split_toString (n : nat) :
  JsText.split "-" (Js.toString n) = [Js.toString n].
Proof.
  unfold Js.toString, NilZero.string_of_uint.
  destruct (Nat.to_uint n) eqn:E; try (rewrite <- E; apply split_uint).
  reflexivity.
Qed.

Lemma split_no_separator (s : string) :
  (forall c, In c (list_ascii_of_string s) -> c <> "-"%char) ->
  JsText.split "-" s = [s].
Proof.
  induction s as [|c rest IH]; intros H; [reflexivity|].
  cbn [JsText.split]. destruct (Ascii.eqb_spec c "-"%char) as [E|E].
  - exfalso. apply (H c); [left; reflexivity | exact E].
  - rewrite IH; [reflexivity|]. intros x Hx. apply H. right. exact Hx.
Qed.

Lemma split_prompt (s : string) :
  JsText.split "-" s = [s] ->
  JsText.split "-" ("prompt-" ++ s)%string = ["prompt"; s].
Proof. intros H. simpl. rewrite H. reflexivity. Qed.

Lemma slotIndex_prompt (n : nat) (p : Prompt.t) :
  Prompt.promptId p = ("prompt-" ++ Js.toString n)%string ->
  PromptDjMidiView.slotIndex p
  = JsText.add (Js.ofZ (Z.of_nat n)) (Js.Int 1).
Proof.
  intros E. unfold PromptDjMidiView.slotIndex. rewrite E.
  rewrite (split_prompt _ (split_toString n)).
  cbn [nth_error JsText.parseIntOf].
  rewrite parseInt_toString. reflexivity.
Qed.

(** Below 2^53 the label is exactly [n + 1]. *)
Lemma slotIndex_exact (n : nat) (p : Prompt.t) :
  (Z.of_nat n < 2 ^ 53)%Z ->
  Prompt.promptId p = ("prompt-" ++ Js.toString n)%string ->
  PromptDjMidiView.slotIndex p = Js.Int (Z.of_nat n + 1).
Proof.
  intros L E. rewrite (slotIndex_prompt n p E).
  rewrite ofZ_small by lia. cbn [JsText.add].
  destruct (Z.eq_dec (Z.of_nat n + 1) (2 ^ 53)) as [T|T].
  - rewrite T. reflexivity.
  - apply ofZ_small. lia.
Qed.

(** X1. The slot label that [render] computes from a promptId of the form
    [prompt-n], [n] in decimal digits, is the Number value for [n] plus
    one, which is [n + 1] for every [n] below 2^53; from a promptId with
    no dash it is [NaN]. *)
Theorem slotIndex_of_promptId :
  (forall (n : nat) (p : Prompt.t),
      Prompt.promptId p = ("prompt-" ++ Js.toString n)%string ->
      PromptDjMidiView.slotIndex p
      = JsText.add (Js.ofZ (Z.of_nat n)) (Js.Int 1) /\
      ((Z.of_nat n < 2 ^ 53)%Z ->
       PromptDjMidiView.slotIndex p = Js.Int (Z.of_nat n + 1))) /\
  (forall p : Prompt.t,
      (forall c, In c (list_ascii_of_string (Prompt.promptId p)) -> c <> "-"%char) ->
      PromptDjMidiView.slotIndex p = Js.NaN).
Proof.
  split.
  - intros n p E. split; [exact (slotIndex_prompt n p E)|].
    intros L. exact (slotIndex_exact n p L E).
  - intros p H. unfold PromptDjMidiView.slotIndex.
    rewrite (split_no_separator _ H). reflexivity.
Qed.

(** From 2^53 on the label is no longer [n + 1]: slot 9007199254740992
    and slot 9007199254740993 would both be labelled 9007199254740992. *)
Example slotIndex_above_2_53 :
  PromptDjMidiView.slotIndex
    (Prompt.mk "prompt-9007199254740992" "" 0%float 0 "" 0%float [] None)
  = Js.Int 9007199254740992 /\
  PromptDjMidiView.slotIndex
    (Prompt.mk "prompt-9007199254740993" "" 0%float 0 "" 0%float [] None)
  = Js.Int 9007199254740992.
Proof. vm_compute. split; reflexivity. Qed.

(** X2. [handleTempoInput], given the decimal digits of [n], stores the
    Number value for [n] and [main] hands it to the helper; that value is
    [n] itself for every [n] below 2^53, which covers what the tempo
    slider writes with [toString], and it is within [60,200] exactly
    when [n] is. *)
Theorem tempo_round_trip (a : Main.app) (n : nat) :
  let a' := Main.step a (Main.tempo_input (Js.toString n)) in
  PromptDjMidi.tempoBpm (Main.pdjMidi a') = Js.ofZ (Z.of_nat n) /\
  LiveMusicHelper.tempoBpm (Main.liveMusicHelper a')
  = Some (Js.ofZ (Z.of_nat n)) /\
  ((Z.of_nat n < 2 ^ 53)%Z ->
   PromptDjMidi.tempoBpm (Main.pdjMidi a') = Js.Int (Z.of_nat n)) /\
  (tempoInRange (PromptDjMidi.tempoBpm (Main.pdjMidi a')) = true <->
   60 <= n <= 200).
Proof.
  assert (T : PromptDjMidi.tempoBpm
                (Main.pdjMidi (Main.step a (Main.tempo_input (Js.toString n))))
              = Js.ofZ (Z.of_nat n)).
  { cbn. apply parseInt_toString. }
  assert (H : LiveMusicHelper.tempoBpm
                (Main.liveMusicHelper
                   (Main.step a (Main.tempo_input (Js.toString n))))
              = Some (Js.ofZ (Z.of_nat n))).
  { cbn. f_equal. apply parseInt_toString. }
  cbv zeta. rewrite T, H.
  split; [reflexivity|]. split; [reflexivity|]. split.
  - intros L. apply ofZ_small. lia.
  - apply tempoInRange_ofZ.
Qed.

Lemma parseInt_blank (s : string) :
  Js.trimStart s = EmptyString -> Js.parseInt s = Js.NaN.
Proof.
  intros E. unfold Js.parseInt. rewrite E. reflexivity.
Qed.

(** X3. A tempo value that is empty or all white space is not rejected:
    [NaN] is stored as the tempo and handed to the helper. *)
Theorem blank_tempo_is_NaN (a : Main.app) (value : string)
    (Hblank : Js.trimStart value = EmptyString) :
  let a' := Main.step a (Main.tempo_input value) in
  PromptDjMidi.tempoBpm (Main.pdjMidi a') = Js.NaN /\
  LiveMusicHelper.tempoBpm (Main.liveMusicHelper a') = Some Js.NaN /\
  tempoInRange (PromptDjMidi.tempoBpm (Main.pdjMidi a')) = false.
Proof.
  cbn zeta. simpl. rewrite (parseInt_blank value Hblank). repeat split.
Qed.

Lemma blank_tempo_is_NaN_witness :
  let a' := Main.step (Main.main GENRE_LIBRARY) (Main.tempo_input "  ") in
  PromptDjMidi.tempoBpm (Main.pdjMidi a') = Js.NaN /\
  LiveMusicHelper.tempoBpm (Main.liveMusicHelper a') = Some Js.NaN /\
  tempoInRange (PromptDjMidi.tempoBpm (Main.pdjMidi a')) = false.
Proof.
  apply (blank_tempo_is_NaN (Main.main GENRE_LIBRARY) "  ").
  reflexivity.
Defined.

(** ** Learn mode *)

(** X4. In learn mode a control-change message binds the slot to the
    message's controller and channel, leaves learn mode and does not touch
    the weight (the value of the learning message is not applied); a
    following message on that controller, on whatever channel, with a
    value of [0,127] sets the weight to [(value/127)*2]. Each of the two
    messages dispatches one prompt-changed event. *)
Theorem learn_binds_then_controls
    (st : PromptController.state) (m1 m2 : PromptController.ControlChange)
    (Hlearn : PromptController.learnMode st = true)
    (Hsame : PromptController.cc_cc m2 = PromptController.cc_cc m1)
    (Hvalue : (0 <= PromptController.cc_value m2 <= 127)%Z) :
  let '(st1, evs1) := PromptController.onCcMessage st m1 in
  let '(st2, evs2) := PromptController.onCcMessage st1 m2 in
  PromptController.cc st1 = PromptController.cc_cc m1 /\
  PromptController.channel st1 = PromptController.cc_channel m1 /\
  PromptController.learnMode st1 = false /\
  PromptController.weight st1 = PromptController.weight st /\
  evs1 = [PromptController.dispatchPromptChange st1] /\
  PromptController.weight st2
  = PromptController.ccWeight (PromptController.cc_value m2) /\
  weightInRange (PromptController.weight st2) = true /\
  PromptController.cc st2 = PromptController.cc_cc m1 /\
  PromptController.channel st2 = PromptController.cc_channel m1 /\
  evs2 = [PromptController.dispatchPromptChange st2].
Proof.
  unfold PromptController.onCcMessage. rewrite Hlearn.
  cbn [PromptController.learn PromptController.learnMode PromptController.cc].
  rewrite Hsame, Z.eqb_refl.
  assert (R := ccWeight_in_range _ Hvalue).
  simpl. repeat split; assumption.
Qed.

(** A slot in learn mode. *)
Lemma learn_binds_then_controls_witness :
  let st := PromptControllerEdit.toggleLearnMode sampleController in
  let m1 := PromptController.mkCC 2%Z 21%Z 99%Z in
  let m2 := PromptController.mkCC 5%Z 21%Z 127%Z in
  let '(st1, evs1) := PromptController.onCcMessage st m1 in
  let '(st2, evs2) := PromptController.onCcMessage st1 m2 in
  PromptController.cc st1 = PromptController.cc_cc m1 /\
  PromptController.channel st1 = PromptController.cc_channel m1 /\
  PromptController.learnMode st1 = false /\
  PromptController.weight st1 = PromptController.weight st /\
  evs1 = [PromptController.dispatchPromptChange st1] /\
  PromptController.weight st2
  = PromptController.ccWeight (PromptController.cc_value m2) /\
  weightInRange (PromptController.weight st2) = true /\
  PromptController.cc st2 = PromptController.cc_cc m1 /\
  PromptController.channel st2 = PromptController.cc_channel m1 /\
  evs2 = [PromptController.dispatchPromptChange st2].
Proof.
  apply (learn_binds_then_controls
           (PromptControllerEdit.toggleLearnMode sampleController)
           (PromptController.mkCC 2%Z 21%Z 99%Z)
           (PromptController.mkCC 5%Z 21%Z 127%Z)).
  - reflexivity.
  - reflexivity.
  - simpl. lia.
Defined.

(** X5. With learn mode off, a control-change message never changes
    anything of the slot but its weight; a message for another controller
    changes nothing and dispatches nothing; and the channel plays no
    part: two messages that differ only in their channel are handled
    alike. *)
Theorem cc_message_touches_weight_only
    (st : PromptController.state) (m : PromptController.ControlChange)
    (Hlearn : PromptController.learnMode st = false) :
  PromptController.with_weight st
    (PromptController.weight (fst (PromptController.onCcMessage st m)))
  = fst (PromptController.onCcMessage st m) /\
  (PromptController.cc_cc m <> PromptController.cc st ->
   PromptController.onCcMessage st m = (st, [])) /\
  (forall channel' : Z,
      PromptController.onCcMessage st
        (PromptController.mkCC channel' (PromptController.cc_cc m)
                               (PromptController.cc_value m))
      = PromptController.onCcMessage st m).
Proof.
  unfold PromptController.onCcMessage. rewrite Hlearn.
  cbn [PromptController.cc_cc PromptController.cc_value].
  split; [|split].
  - destruct (PromptController.cc_cc m =? PromptController.cc st)%Z;
      destruct st; reflexivity.
  - intros N. apply Z.eqb_neq in N. rewrite N. reflexivity.
  - intros channel'. reflexivity.
Qed.

Lemma cc_message_touches_weight_only_witness :
  let m := PromptController.mkCC 0%Z 7%Z 100%Z in
  PromptController.with_weight sampleController
    (PromptController.weight (fst (PromptController.onCcMessage sampleController m)))
  = fst (PromptController.onCcMessage sampleController m) /\
  (PromptController.cc_cc m <> PromptController.cc sampleController ->
   PromptController.onCcMessage sampleController m = (sampleController, [])) /\
  (forall channel' : Z,
      PromptController.onCcMessage sampleController
        (PromptController.mkCC channel' (PromptController.cc_cc m)
                               (PromptController.cc_value m))
      = PromptController.onCcMessage sampleController m).
Proof.
  apply (cc_message_touches_weight_only sampleController
           (PromptController.mkCC 0%Z 7%Z 100%Z)).
  reflexivity.
Defined.

(** X6. Toggling learn mode twice changes nothing. When the CC display
    has been hidden, [update] leaves learn mode, whatever it was, and
    keeps every other property of the slot; a control-change message for
    another controller that arrives afterwards does not rebind the
    slot. *)
Theorem hiding_cc_cancels_learn :
  (forall st : PromptController.state,
      PromptControllerEdit.toggleLearnMode
        (PromptControllerEdit.toggleLearnMode st) = st) /\
  (forall (c : PromptControllerEdit.t) (changed : list string)
          (m : PromptController.ControlChange),
      In "showCC" changed ->
      PromptController.showCC (PromptControllerEdit.host c) = false ->
      let c' := PromptControllerEdit.update c changed in
      PromptControllerEdit.host c'
      = PromptControllerEdit.with_learnMode (PromptControllerEdit.host c) false /\
      (PromptController.cc_cc m <> PromptController.cc (PromptControllerEdit.host c) ->
       PromptController.onCcMessage (PromptControllerEdit.host c') m
       = (PromptControllerEdit.host c', []))) /\
  (forall (c : PromptControllerEdit.t) (changed : list string),
      ~ In "showCC" changed ->
      PromptControllerEdit.host (PromptControllerEdit.update c changed)
      = PromptControllerEdit.host c).
Proof.
  split; [|split].
  - intros st. destruct st. unfold PromptControllerEdit.toggleLearnMode. simpl.
    rewrite negb_involutive. reflexivity.
  - intros c changed m Hin Hshow c'.
    assert (E : existsb (String.eqb "showCC") changed = true).
    { apply existsb_exists. exists "showCC". split; [exact Hin | reflexivity]. }
    assert (H : PromptControllerEdit.host c'
                = PromptControllerEdit.with_learnMode (PromptControllerEdit.host c) false).
    { unfold c', PromptControllerEdit.update. cbn [PromptControllerEdit.host].
      rewrite E, Hshow. reflexivity. }
    split; [exact H|]. intros N. rewrite H.
    unfold PromptController.onCcMessage. simpl.
    apply Z.eqb_neq in N. rewrite N. reflexivity.
  - intros c changed N. unfold PromptControllerEdit.update.
    cbn [PromptControllerEdit.host].
    destruct (existsb (String.eqb "showCC") changed) eqn:E; [|reflexivity].
    exfalso. apply N. apply existsb_exists in E. destruct E as [x [Hx E]].
    apply String.eqb_eq in E. subst x. exact Hx.
Qed.

(** ** Editing a slot's text *)

(** [trimStart] drops one white-space character and goes on, or stops. *)
Lemma trimStart_step (s : string) :
  Js.trimStart s
  = match Js.afterWhiteSpace s with
    | Some r => Js.trimStart r
    | None => s
    end.
Proof.
  destruct s as [|a [|b [|c r]]]; cbn [Js.trimStart Js.afterWhiteSpace];
    try reflexivity.
  - destruct (Js.isWhiteSpace a); reflexivity.
  - destruct (Js.isWhiteSpace a); [reflexivity|].
    destruct (Js.isWhiteSpace2 a b); reflexivity.
  - destruct (Js.isWhiteSpace a); [reflexivity|].
    destruct (Js.isWhiteSpace2 a b); [reflexivity|].
    destruct (Js.isWhiteSpace3 a b c); reflexivity.
Qed.

Lemma afterWhiteSpace_length (s r : string) :
  Js.afterWhiteSpace s = Some r -> String.length r < String.length s.
Proof.
  destruct s as [|a [|b [|c s]]]; cbn [Js.afterWhiteSpace]; try discriminate.
  - destruct (Js.isWhiteSpace a); intros H; inversion H; subst; simpl; lia.
  - destruct (Js.isWhiteSpace a); [intros H; inversion H; subst; simpl; lia|].
    destruct (Js.isWhiteSpace2 a b); intros H; inversion H; subst; simpl; lia.
  - destruct (Js.isWhiteSpace a); [intros H; inversion H; subst; simpl; lia|].
    destruct (Js.isWhiteSpace2 a b); [intros H; inversion H; subst; simpl; lia|].
    destruct (Js.isWhiteSpace3 a b c); intros H; inversion H; subst; simpl; lia.
Qed.

Lemma afterWhiteSpace_append (p q r : string) :
  Js.afterWhiteSpace p = Some r ->
  Js.afterWhiteSpace (p ++ q)%string = Some (r ++ q)%string.
Proof.
  destruct p as [|a [|b [|c p]]]; cbn [Js.afterWhiteSpace String.append];
    try discriminate.
  - destruct (Js.isWhiteSpace a); intros H; inversion H; reflexivity.
  - destruct (Js.isWhiteSpace a); [intros H; inversion H; reflexivity|].
    destruct (Js.isWhiteSpace2 a b); intros H; inversion H; reflexivity.
  - destruct (Js.isWhiteSpace a); [intros H; inversion H; reflexivity|].
    destruct (Js.isWhiteSpace2 a b); [intros H; inversion H; reflexivity|].
    destruct (Js.isWhiteSpace3 a b c); intros H; inversion H; reflexivity.
Qed.

Lemma trimStart_length (s : string) :
  String.length (Js.trimStart s) <= String.length s.
Proof.
  remember (String.length s) as n eqn:E. revert s E.
  induction n as [n IH] using lt_wf_ind. intros s E.
  rewrite trimStart_step. destruct (Js.afterWhiteSpace s) as [r|] eqn:A; [|lia].
  assert (L := afterWhiteSpace_length s r A).
  assert (H := IH (String.length r) ltac:(lia) r eq_refl). lia.
Qed.

Lemma trimStart_idempotent (s : string) :
  Js.trimStart (Js.trimStart s) = Js.trimStart s.
Proof.
  remember (String.length s) as n eqn:E. revert s E.
  induction n as [n IH] using lt_wf_ind. intros s E.
  rewrite (trimStart_step s). destruct (Js.afterWhiteSpace s) as [r|] eqn:A.
  - apply (IH (String.length r)); [|reflexivity].
    rewrite E. apply afterWhiteSpace_length. exact A.
  - rewrite trimStart_step, A. reflexivity.
Qed.

(** White space in front of a string does not count. *)
Lemma trimStart_append (p q : string) :
  Js.trimStart p = EmptyString ->
  Js.trimStart (p ++ q)%string = Js.trimStart q.
Proof.
  remember (String.length p) as n eqn:E. revert p E.
  induction n as [n IH] using lt_wf_ind. intros p E B.
  rewrite trimStart_step in B.
  destruct (Js.afterWhiteSpace p) as [r|] eqn:A.
  - rewrite trimStart_step, (afterWhiteSpace_append p q r A).
    apply (IH (String.length r)); [|reflexivity | exact B].
    rewrite E. apply afterWhiteSpace_length. exact A.
  - subst p. reflexivity.
Qed.

(** [trimEnd] takes away a run of white-space characters. *)
Lemma trimEnd_suffix (s : string) :
  exists w : string,
    s = (JsText.trimEnd s ++ w)%string /\ Js.trimStart w = EmptyString.
Proof.
  induction s as [|c rest IH].
  - exists EmptyString. split; reflexivity.
  - cbn [JsText.trimEnd].
    destruct (JsText.isEmpty (Js.trimStart (String c rest))) eqn:E.
    + exists (String c rest). split; [reflexivity|].
      destruct (Js.trimStart (String c rest)); [reflexivity | discriminate].
    + destruct IH as [w [Hs Hw]]. exists w. split; [|exact Hw].
      cbn [String.append]. rewrite <- Hs. reflexivity.
Qed.

Lemma isEmpty_true (s : string) : JsText.isEmpty s = true <-> s = EmptyString.
Proof. destruct s; simpl; split; congruence. Qed.

Lemma trimEnd_idempotent (s : string) :
  JsText.trimEnd (JsText.trimEnd s) = JsText.trimEnd s.
Proof.
  induction s as [|c rest IH]; [reflexivity|].
  cbn [JsText.trimEnd].
  destruct (JsText.isEmpty (Js.trimStart (String c rest))) eqn:E; [reflexivity|].
  cbn [JsText.trimEnd]. rewrite IH.
  destruct (JsText.isEmpty (Js.trimStart (String c (JsText.trimEnd rest)))) eqn:F;
    [|reflexivity].
  exfalso. apply isEmpty_true in F.
  destruct (trimEnd_suffix rest) as [w [Hs Hw]].
  assert (T := trimStart_append (String c (JsText.trimEnd rest)) w F).
  cbn [String.append] in T. rewrite <- Hs, Hw in T.
  rewrite T in E. discriminate.
Qed.

(** Taking white space away at the end of a string that starts with none
    leaves a string that starts with none. *)
Lemma trimStart_trimEnd (t : string) :
  Js.trimStart t = t -> Js.trimStart (JsText.trimEnd t) = JsText.trimEnd t.
Proof.
  intros H. rewrite (trimStart_step (JsText.trimEnd t)).
  destruct (Js.afterWhiteSpace (JsText.trimEnd t)) as [r|] eqn:A; [|reflexivity].
  exfalso. destruct (trimEnd_suffix t) as [w [Hs Hw]].
  assert (A' := afterWhiteSpace_append _ w r A). rewrite <- Hs in A'.
  assert (L := afterWhiteSpace_length t _ A').
  assert (M := trimStart_length (r ++ w)%string).
  rewrite trimStart_step, A' in H. rewrite H in M. lia.
Qed.

Lemma trim_idempotent (s : string) : JsText.trim (JsText.trim s) = JsText.trim s.
Proof.
  unfold JsText.trim.
  rewrite (trimStart_trimEnd _ (trimStart_idempotent s)).
  apply trimEnd_idempotent.
Qed.

(** A no-break space, a line separator and a byte-order mark are white
    space, as the ASCII ones are; the letter U+00E0, whose second byte is
    that of the no-break space, is not. *)
Example trim_unicode :
  let nbsp := String (ascii_of_nat 194) (String (ascii_of_nat 160) "") in
  let ls := String (ascii_of_nat 226) (String (ascii_of_nat 128)
              (String (ascii_of_nat 168) "")) in
  let bom := String (ascii_of_nat 239) (String (ascii_of_nat 187)
               (String (ascii_of_nat 191) "")) in
  let agrave := String (ascii_of_nat 195) (String (ascii_of_nat 160) "") in
  JsText.trim nbsp = "" /\
  JsText.trim (nbsp ++ " Acid" ++ ls ++ "House" ++ bom ++ nbsp)%string
  = ("Acid" ++ ls ++ "House")%string /\
  JsText.trim (" " ++ agrave ++ " ")%string = agrave /\
  Js.parseInt (bom ++ "42")%string = Js.Int 42.
Proof. vm_compute. repeat split. Qed.

(** X7. [updateText] either commits or restores. If the span's contents,
    trimmed, are not empty they become the slot's text and the last valid
    text; otherwise the slot's text and the span go back to the last
    valid text. Either way the slot's text equals the last valid text
    afterwards, one prompt-changed event carrying that text is
    dispatched, nothing but the text of the slot changes, a last valid
    text that was trimmed stays trimmed, and a slot whose last valid text
    is not empty never ends up with an empty text. *)
Theorem updateText_commits_or_restores (c : PromptControllerEdit.t) :
  let '(c', evs) := PromptControllerEdit.updateText c in
  let typed := JsText.trim (PromptControllerEdit.textContent c) in
  (typed <> EmptyString ->
   PromptController.text (PromptControllerEdit.host c') = typed /\
   PromptControllerEdit.textContent c' = PromptControllerEdit.textContent c) /\
  (typed = EmptyString ->
   PromptController.text (PromptControllerEdit.host c')
   = PromptControllerEdit.lastValidText c /\
   PromptControllerEdit.textContent c' = PromptControllerEdit.lastValidText c) /\
  PromptControllerEdit.lastValidText c'
  = PromptController.text (PromptControllerEdit.host c') /\
  PromptControllerEdit.host c'
  = PromptControllerEdit.with_text (PromptControllerEdit.host c)
      (PromptController.text (PromptControllerEdit.host c')) /\
  evs = [PromptController.dispatchPromptChange (PromptControllerEdit.host c')] /\
  map Prompt.text evs = [PromptController.text (PromptControllerEdit.host c')] /\
  (trimmed (PromptControllerEdit.lastValidText c) ->
   trimmed (PromptControllerEdit.lastValidText c')) /\
  (PromptControllerEdit.lastValidText c <> EmptyString ->
   PromptController.text (PromptControllerEdit.host c') <> EmptyString).
Proof.
  unfold PromptControllerEdit.updateText. cbn zeta.
  destruct (JsText.isEmpty (JsText.trim (PromptControllerEdit.textContent c))) eqn:E.
  - apply isEmpty_true in E. rewrite E. simpl.
    repeat split; try tauto; try congruence.
  - assert (N : JsText.trim (PromptControllerEdit.textContent c) <> EmptyString).
    { intros H. apply isEmpty_true in H. congruence. }
    simpl. repeat split; try tauto; try congruence.
    intros _. unfold trimmed. apply trim_idempotent.
Qed.

(** X8. The keys of the text span, while it has the focus and the last
    valid text is trimmed. Escape discards what was typed: the slot's
    text, the span and the last valid text are the last valid text from
    before, and one prompt-changed event is dispatched. Enter commits what
    was typed, as [updateText] does. Any other key changes nothing and
    dispatches nothing. In all cases the span loses the focus only on
    Enter and Escape. *)
Theorem text_keys
    (c : PromptControllerEdit.t) (typed : string)
    (Hfocus : PromptControllerEdit.focused c = true)
    (Htrimmed : trimmed (PromptControllerEdit.lastValidText c)) :
  let c0 := PromptControllerEdit.typeText c typed in
  (let '(c', evs) := PromptControllerEdit.onKeyDown c0 "Escape" in
   PromptController.text (PromptControllerEdit.host c')
   = PromptControllerEdit.lastValidText c /\
   PromptControllerEdit.textContent c' = PromptControllerEdit.lastValidText c /\
   PromptControllerEdit.lastValidText c' = PromptControllerEdit.lastValidText c /\
   PromptControllerEdit.focused c' = false /\
   map Prompt.text evs = [PromptControllerEdit.lastValidText c]) /\
  (let '(c', evs) := PromptControllerEdit.onKeyDown c0 "Enter" in
   (JsText.trim typed <> EmptyString ->
    PromptController.text (PromptControllerEdit.host c') = JsText.trim typed /\
    PromptControllerEdit.lastValidText c' = JsText.trim typed) /\
   (JsText.trim typed = EmptyString ->
    PromptController.text (PromptControllerEdit.host c')
    = PromptControllerEdit.lastValidText c) /\
   PromptControllerEdit.focused c' = false /\
   List.length evs = 1) /\
  (forall key : string,
      key <> "Enter" -> key <> "Escape" ->
      PromptControllerEdit.onKeyDown c0 key = (c0, [])).
Proof.
  cbn zeta. split; [|split].
  - unfold PromptControllerEdit.onKeyDown. cbn [String.eqb Ascii.eqb Bool.eqb].
    cbn iota. unfold PromptControllerEdit.blur, PromptControllerEdit.resetText,
      PromptControllerEdit.typeText.
    cbn [PromptControllerEdit.focused PromptControllerEdit.host
         PromptControllerEdit.textContent PromptControllerEdit.lastValidText].
    rewrite Hfocus. unfold PromptControllerEdit.updateText.
    cbn [PromptControllerEdit.textContent]. unfold trimmed in Htrimmed.
    rewrite Htrimmed.
    destruct (JsText.isEmpty (PromptControllerEdit.lastValidText c)) eqn:E;
      simpl; repeat split; reflexivity.
  - unfold PromptControllerEdit.onKeyDown. cbn [String.eqb Ascii.eqb Bool.eqb].
    cbn iota. unfold PromptControllerEdit.blur, PromptControllerEdit.typeText.
    cbn [PromptControllerEdit.focused PromptControllerEdit.host
         PromptControllerEdit.textContent PromptControllerEdit.lastValidText].
    rewrite Hfocus. unfold PromptControllerEdit.updateText.
    cbn [PromptControllerEdit.textContent].
    destruct (JsText.isEmpty (JsText.trim typed)) eqn:E.
    + apply isEmpty_true in E. simpl. repeat split; try tauto; congruence.
    + assert (N : JsText.trim typed <> EmptyString).
      { intros H. apply isEmpty_true in H. congruence. }
      simpl. repeat split; try tauto; congruence.
  - intros key N1 N2. unfold PromptControllerEdit.onKeyDown.
    apply String.eqb_neq in N1, N2. rewrite N1, N2. reflexivity.
Qed.

(** A slot whose text is being edited. *)
Lemma text_keys_witness :
  let c := PromptControllerEdit.focus
             (PromptControllerEdit.firstUpdated
                (PromptControllerEdit.mk sampleController "" false "")) in
  let c0 := PromptControllerEdit.typeText c "  Acid  House " in
  let '(c', evs) := PromptControllerEdit.onKeyDown c0 "Escape" in
  PromptController.text (PromptControllerEdit.host c')
  = PromptControllerEdit.lastValidText c /\
  PromptControllerEdit.textContent c' = PromptControllerEdit.lastValidText c /\
  PromptControllerEdit.lastValidText c' = PromptControllerEdit.lastValidText c /\
  PromptControllerEdit.focused c' = false /\
  map Prompt.text evs = [PromptControllerEdit.lastValidText c].
Proof.
  exact (proj1 (text_keys
                  (PromptControllerEdit.focus
                     (PromptControllerEdit.firstUpdated
                        (PromptControllerEdit.mk sampleController "" false "")))
                  "  Acid  House " eq_refl eq_refl)).
Defined.

(** Typing with white space around it, then Enter. *)
Example text_enter_trims :
  let c := PromptControllerEdit.focus
             (PromptControllerEdit.firstUpdated
                (PromptControllerEdit.mk sampleController "" false "")) in
  let r := PromptControllerEdit.onKeyDown
             (PromptControllerEdit.typeText c "  Acid  House ") "Enter" in
  PromptController.text (PromptControllerEdit.host (fst r)) = "Acid  House" /\
  map Prompt.text (snd r) = ["Acid  House"].
Proof. split; reflexivity. Qed.

(** A span that holds nothing but a no-break space, then Enter: the last
    valid text comes back. *)
Example text_enter_no_break_space :
  let c := PromptControllerEdit.focus
             (PromptControllerEdit.firstUpdated
                (PromptControllerEdit.mk sampleController "" false "")) in
  let nbsp := String (ascii_of_nat 194) (String (ascii_of_nat 160) "") in
  let r := PromptControllerEdit.onKeyDown
             (PromptControllerEdit.typeText c nbsp) "Enter" in
  PromptController.text (PromptControllerEdit.host (fst r)) = "Post Punk" /\
  PromptControllerEdit.textContent (fst r) = "Post Punk" /\
  map Prompt.text (snd r) = ["Post Punk"].
Proof. vm_compute. repeat split. Qed.

(** ** Choosing a genre *)

Lemma find_unique_text (lib : list Genre.t) (g : Genre.t) :
  NoDup (map Genre.text lib) -> In g lib ->
  find (fun x => String.eqb (Genre.text x) (Genre.text g)) lib = Some g.
Proof.
  induction lib as [|x lib IH]; intros ND Hin; [contradiction|].
  simpl in ND. inversion ND as [|? ? Nx ND']; subst.
  cbn [find]. destruct Hin as [->|Hin].
  - rewrite String.eqb_refl. reflexivity.
  - destruct (String.eqb_spec (Genre.text x) (Genre.text g)) as [E|E].
    + exfalso. apply Nx. rewrite E. apply in_map. exact Hin.
    + apply IH; assumption.
Qed.

Lemma find_absent_text (lib : list Genre.t) (s : string) :
  ~ In s (map Genre.text lib) ->
  find (fun x => String.eqb (Genre.text x) s) lib = None.
Proof.
  induction lib as [|x lib IH]; intros N; [reflexivity|].
  cbn [find]. destruct (String.eqb_spec (Genre.text x) s) as [E|E].
  - exfalso. apply N. left. exact E.
  - apply IH. intros H. apply N. right. exact H.
Qed.

(** X9. In a library whose texts are pairwise different, choosing the
    text of a genre of the library gives the slot that genre's text,
    color and instruments, selects the genre's first instrument (the
    empty string when it has none), makes the text the last valid one and
    the span's contents, keeps promptId, weight, cc, density and learn
    mode, and dispatches one prompt-changed event with these values;
    choosing a text that is not in the library changes nothing and
    dispatches nothing. *)
Theorem genre_select_applies_genre
    (lib : list Genre.t) (c : PromptControllerEdit.t)
    (Hunique : NoDup (map Genre.text lib)) :
  (forall g : Genre.t,
      In g lib ->
      let '(c', evs) := PromptControllerEdit.handleGenreSelect lib c (Genre.text g) in
      let st := PromptControllerEdit.host c in
      let st' := PromptControllerEdit.host c' in
      let instruments :=
        match Genre.instruments g with Some l => l | None => [] end in
      PromptController.text st' = Genre.text g /\
      PromptController.color st' = Genre.color g /\
      PromptController.instruments st' = instruments /\
      PromptController.selectedInstrument st' = hd "" instruments /\
      PromptControllerEdit.lastValidText c' = Genre.text g /\
      PromptControllerEdit.textContent c' = Genre.text g /\
      PromptController.promptId st' = PromptController.promptId st /\
      PromptController.weight st' = PromptController.weight st /\
      PromptController.cc st' = PromptController.cc st /\
      PromptController.density st' = PromptController.density st /\
      PromptController.learnMode st' = PromptController.learnMode st /\
      evs = [Prompt.mk (PromptController.promptId st) (Genre.text g)
                       (PromptController.weight st) (PromptController.cc st)
                       (Genre.color g) (PromptController.density st)
                       instruments (Some (hd "" instruments))]) /\
  (forall selectedText : string,
      ~ In selectedText (map Genre.text lib) ->
      PromptControllerEdit.handleGenreSelect lib c selectedText = (c, [])).
Proof.
  split.
  - intros g Hin. unfold PromptControllerEdit.handleGenreSelect.
    rewrite (find_unique_text lib g Hunique Hin).
    destruct (Genre.instruments g) as [[|i l]|]; simpl; repeat split.
  - intros s N. unfold PromptControllerEdit.handleGenreSelect.
    rewrite (find_absent_text lib s N). reflexivity.
Qed.

(** The catalogue of the application, and its genre Techno. *)
Lemma genre_select_applies_genre_witness :
  let c := PromptControllerEdit.firstUpdated
             (PromptControllerEdit.mk sampleController "" false "") in
  NoDup (map Genre.text GENRE_LIBRARY) /\
  PromptControllerEdit.handleGenreSelect GENRE_LIBRARY c "Polka" = (c, []) /\
  let '(c', evs) := PromptControllerEdit.handleGenreSelect GENRE_LIBRARY c "Techno" in
  PromptController.text (PromptControllerEdit.host c') = "Techno" /\
  PromptController.selectedInstrument (PromptControllerEdit.host c') = "FM Lead" /\
  PromptController.weight (PromptControllerEdit.host c')
  = PromptController.weight sampleController /\
  List.length evs = 1.
Proof.
  assert (U : NoDup (map Genre.text GENRE_LIBRARY)).
  { apply nodupb_NoDup. vm_compute. reflexivity. }
  split; [exact U|]. split.
  - apply (proj2 (genre_select_applies_genre GENRE_LIBRARY
                    (PromptControllerEdit.firstUpdated
                       (PromptControllerEdit.mk sampleController "" false ""))
                    U) "Polka").
    vm_compute. intuition discriminate.
  - vm_compute. repeat split.
Defined.

(** ** Entries and their keys *)

Lemma Forall_set_key (P : string * Heap.loc -> Prop) (m : JsMap.t)
    (k : string) (l : Heap.loc) :
  Forall P m -> P (k, l) -> Forall P (JsMap.set m k l).
Proof.
  intros F Pl. induction m as [|[k0 l0] m IH]; simpl.
  - constructor; [exact Pl | constructor].
  - inversion F; subst.
    destruct (String.eqb_spec k0 k) as [->|N0]; constructor; auto.
Qed.

Lemma wf_bound (h : Heap.t) (m : JsMap.t) (k : string) (l : Heap.loc) :
  wf h m -> In (k, l) m -> l < List.length h.
Proof.
  intros (_ & _ & B) H. rewrite Forall_forall in B. apply (B _ H).
Qed.

(** The store and the map after [handlePromptChanged] has found the key:
    what each key now resolves to. *)
Lemma found_lookups (h : Heap.t) (m : JsMap.t) (k : string) (l : Heap.loc)
    (d : Prompt.t) :
  wf h m -> JsMap.get m k = Some l ->
  let h' := Heap.store h l d ++ [d] in
  let m' := JsMap.set m k (List.length h) in
  JsMap.lookup h' m' k = Some d /\
  (forall k', k' <> k -> JsMap.lookup h' m' k' = JsMap.lookup h m k').
Proof.
  intros W E h' m'. assert (Hl := wf_bound h m k l W (get_Some_In _ _ _ E)).
  split.
  - unfold JsMap.lookup, m', h'. rewrite get_set_same.
    unfold Heap.deref. rewrite nth_error_app2; rewrite length_store; [|lia].
    rewrite Nat.sub_diag. reflexivity.
  - intros k' Nk. unfold JsMap.lookup, m', h'.
    rewrite get_set_other by exact Nk.
    destruct (JsMap.get m k') as [l0|] eqn:E0; [|reflexivity].
    assert (Hl0 := wf_bound h m k' l0 W (get_Some_In _ _ _ E0)).
    assert (Nl : l <> l0).
    { intros ->. apply Nk. destruct W as (_ & S & _).
      apply (NoDup_snd_inj _ _ _ l0 S);
        [apply get_Some_In, E0 | apply get_Some_In, E]. }
    unfold Heap.deref. rewrite nth_error_app1 by (rewrite length_store; lia).
    apply deref_store_other. exact Nl.
Qed.

Lemma keyed_In (h : Heap.t) (m : JsMap.t) (k : string) (l : Heap.loc) :
  keyed h m -> In (k, l) m ->
  exists p, Heap.deref h l = Some p /\ Prompt.promptId p = k.
Proof.
  intros K H. unfold keyed in K. rewrite Forall_forall in K. apply (K _ H).
Qed.

Lemma keyed_lookup (h : Heap.t) (m : JsMap.t) (k : string) (p : Prompt.t) :
  keyed h m -> JsMap.lookup h m k = Some p -> Prompt.promptId p = k.
Proof.
  intros K L. unfold JsMap.lookup in L.
  destruct (JsMap.get m k) as [l|] eqn:E; [|discriminate].
  destruct (keyed_In h m k l K (get_Some_In _ _ _ E)) as [q [D Q]].
  congruence.
Qed.

(** Writing an object with the same promptId in place keeps the entries
    keyed. *)
Lemma keyed_store (h : Heap.t) (m : JsMap.t) (l : Heap.loc) (p p' : Prompt.t) :
  keyed h m -> Heap.deref h l = Some p ->
  Prompt.promptId p' = Prompt.promptId p ->
  keyed (Heap.store h l p') m.
Proof.
  intros K D E. unfold keyed. apply Forall_forall. intros [k0 l0] H.
  destruct (keyed_In h m k0 l0 K H) as [q [Dq Q]]. cbn [fst snd] in *.
  destruct (Nat.eq_dec l l0) as [<-|N].
  - exists p'. split.
    + apply deref_store_same. apply nth_error_Some. unfold Heap.deref in D.
      congruence.
    + congruence.
  - exists q. split; [|exact Q]. rewrite deref_store_other by exact N. exact Dq.
Qed.

Lemma keyed_found (h : Heap.t) (m : JsMap.t) (d : Prompt.t) (l : Heap.loc) :
  wf h m -> keyed h m -> JsMap.get m (Prompt.promptId d) = Some l ->
  keyed (Heap.store h l d ++ [d])
        (JsMap.set m (Prompt.promptId d) (List.length h)).
Proof.
  intros W K E. assert (Hin := get_Some_In _ _ _ E).
  assert (Hl := wf_bound _ _ _ _ W Hin).
  unfold keyed. apply Forall_set_key.
  - apply Forall_forall. intros [k0 l0] H. cbn [fst snd].
    destruct (keyed_In h m k0 l0 K H) as [q [Dq Q]].
    assert (Hl0 := wf_bound _ _ _ _ W H).
    unfold Heap.deref. rewrite nth_error_app1 by (rewrite length_store; lia).
    destruct (Nat.eq_dec l l0) as [<-|N].
    + exists d. split; [apply deref_store_same; exact Hl|].
      destruct W as (_ & S & _).
      apply (NoDup_snd_inj m _ _ l S Hin H).
    + exists q. split; [|exact Q].
      change (Heap.deref (Heap.store h l d) l0 = Some q).
      rewrite deref_store_other by exact N. exact Dq.
  - exists d. cbn [fst snd]. split; [|reflexivity].
    unfold Heap.deref. rewrite nth_error_app2; rewrite length_store; [|lia].
    rewrite Nat.sub_diag. reflexivity.
Qed.

(** What an edit can do to a well-formed, keyed map: nothing at all, or a
    dispatch of the new map, which is again well formed and keyed and has
    the same keys. *)
Lemma handlePromptChanged_edit (h : Heap.t) (st : PromptDjMidi.state)
    (detail : Prompt.t) :
  wf h (PromptDjMidi.prompts st) -> keyed h (PromptDjMidi.prompts st) ->
  let '(h', st', evs) := PromptDjMidi.handlePromptChanged h st detail in
  (h' = h /\ st' = st /\ evs = []) \/
  (evs = [PromptDjMidi.prompts_changed (PromptDjMidi.prompts st')] /\
   wf h' (PromptDjMidi.prompts st') /\
   keyed h' (PromptDjMidi.prompts st') /\
   JsMap.keys (PromptDjMidi.prompts st') = JsMap.keys (PromptDjMidi.prompts st) /\
   exists m', st' = PromptDjMidi.with_prompts st m').
Proof.
  intros W K. assert (P := wf_handlePromptChanged h st detail W).
  destruct (JsMap.get (PromptDjMidi.prompts st) (Prompt.promptId detail))
    as [l|] eqn:E.
  - assert (K' := keyed_found h _ detail l W K E).
    rewrite (handlePromptChanged_found h st detail l W E) in *.
    cbn zeta. simpl in P. right. split; [reflexivity|].
    destruct P as [W' KS]. repeat split; try apply W'; try exact KS.
    + exact K'.
    + eexists. reflexivity.
  - rewrite (handlePromptChanged_missing h st detail E). left. tauto.
Qed.

Lemma handleInstrumentChange_found (h : Heap.t) (st : PromptDjMidi.state)
    (promptId value : string) (p : Prompt.t) :
  wf h (PromptDjMidi.prompts st) -> keyed h (PromptDjMidi.prompts st) ->
  JsMap.lookup h (PromptDjMidi.prompts st) promptId = Some p ->
  exists l,
    JsMap.get (PromptDjMidi.prompts st) promptId = Some l /\
    let p' := Prompt.setSelectedInstrument p value in
    let h1 := Heap.store h l p' in
    let m' := JsMap.set (PromptDjMidi.prompts st) promptId (List.length h) in
    wf h1 (PromptDjMidi.prompts st) /\
    keyed h1 (PromptDjMidi.prompts st) /\
    PromptDjMidi.handleInstrumentChange h st promptId value
    = (Heap.store h1 l p' ++ [p'], PromptDjMidi.with_prompts st m',
       [PromptDjMidi.prompts_changed m']).
Proof.
  intros W K L. unfold JsMap.lookup in L.
  destruct (JsMap.get (PromptDjMidi.prompts st) promptId) as [l|] eqn:E;
    [|discriminate].
  exists l. split; [reflexivity|]. cbn zeta.
  assert (Id : Prompt.promptId p = promptId).
  { destruct (keyed_In _ _ _ _ K (get_Some_In _ _ _ E)) as [q [D Q]]. congruence. }
  set (p' := Prompt.setSelectedInstrument p value).
  assert (W1 := wf_store h _ l p' W).
  assert (K1 : keyed (Heap.store h l p') (PromptDjMidi.prompts st)).
  { apply (keyed_store h _ l p p' K L). reflexivity. }
  split; [exact W1|]. split; [exact K1|].
  unfold PromptDjMidi.handleInstrumentChange. rewrite E, L. fold p'.
  assert (E' : JsMap.get (PromptDjMidi.prompts st) (Prompt.promptId p') = Some l).
  { unfold p'. simpl. rewrite Id. exact E. }
  rewrite (handlePromptChanged_found _ st p' l W1 E'). cbn zeta.
  rewrite length_store. unfold p' at 3 5. simpl Prompt.promptId.
  rewrite Id. reflexivity.
Qed.

Lemma handleInstrumentChange_edit (h : Heap.t) (st : PromptDjMidi.state)
    (promptId value : string) :
  wf h (PromptDjMidi.prompts st) -> keyed h (PromptDjMidi.prompts st) ->
  let '(h', st', evs) :=
    PromptDjMidi.handleInstrumentChange h st promptId value in
  (h' = h /\ st' = st /\ evs = []) \/
  (evs = [PromptDjMidi.prompts_changed (PromptDjMidi.prompts st')] /\
   wf h' (PromptDjMidi.prompts st') /\
   keyed h' (PromptDjMidi.prompts st') /\
   JsMap.keys (PromptDjMidi.prompts st') = JsMap.keys (PromptDjMidi.prompts st) /\
   exists m', st' = PromptDjMidi.with_prompts st m').
Proof.
  intros W K.
  destruct (JsMap.lookup h (PromptDjMidi.prompts st) promptId) as [p|] eqn:L.
  - destruct (handleInstrumentChange_found h st promptId value p W K L)
      as [l [E (W1 & K1 & R)]].
    rewrite R. right. split; [reflexivity|].
    set (p' := Prompt.setSelectedInstrument p value) in *.
    assert (Id : Prompt.promptId p' = promptId).
    { unfold p'. simpl. apply (keyed_lookup h _ _ _ K L). }
    assert (E' : JsMap.get (PromptDjMidi.prompts st) (Prompt.promptId p') = Some l)
      by (rewrite Id; exact E).
    assert (P := wf_handlePromptChanged _ st p' W1).
    rewrite (handlePromptChanged_found _ st p' l W1 E') in P.
    cbn zeta in P. rewrite length_store, Id in P. simpl in P.
    assert (K' := keyed_found _ _ p' l W1 K1 E').
    rewrite length_store, Id in K'.
    simpl. repeat split; try apply P; try exact K'.
    eexists; reflexivity.
  - unfold PromptDjMidi.handleInstrumentChange.
    unfold JsMap.lookup in L.
    destruct (JsMap.get (PromptDjMidi.prompts st) promptId) as [l|];
      [rewrite L|]; left; tauto.
Qed.

(** ** The application after any inputs *)

Lemma main_keyed (shuffled : list Genre.t) :
  keyed (fst (buildInitialPrompts shuffled)) (snd (buildInitialPrompts shuffled)).
Proof.
  rewrite buildInitialPrompts_eq. cbn [fst snd]. unfold keyed.
  change (combine slotIds (seq 0 16))
    with (map (fun i => (("prompt-" ++ Js.toString i)%string, i)) (seq 0 16)).
  apply Forall_forall. intros [k l] H. apply in_map_iff in H.
  destruct H as [i [E Hi]]. injection E as <- <-. apply in_seq in Hi.
  exists (initialPrompt (firstn 3 shuffled) i). cbn [fst snd]. split.
  - unfold Heap.deref. rewrite nth_error_map.
    rewrite (nth_error_nth' (seq 0 16) 0) by (rewrite length_seq; lia).
    rewrite seq_nth by lia. reflexivity.
  - reflexivity.
Qed.

Lemma main_inv2 (shuffled : list Genre.t) : app_inv2 (Main.main shuffled).
Proof.
  assert (W := main_wf shuffled). assert (K := main_keyed shuffled).
  unfold Main.main.
  destruct (buildInitialPrompts shuffled) as [h m] eqn:E.
  assert (Ks : JsMap.keys m = slotIds).
  { rewrite buildInitialPrompts_eq in E. injection E as <- <-. reflexivity. }
  cbn [fst snd] in W, K. unfold app_inv2; simpl. repeat split; try apply W; auto.
Qed.

Lemma step_inv2 (a : Main.app) (i : Main.input) :
  app_inv2 a -> app_inv2 (Main.step a i).
Proof.
  intros I. assert (I' := I). destruct I' as (W & K & Ks & H & L & T).
  destruct (isEdit i) eqn:E.
  - assert (C : Main.step a i = a \/
                exists h' st',
                  wf h' (PromptDjMidi.prompts st') /\
                  keyed h' (PromptDjMidi.prompts st') /\
                  JsMap.keys (PromptDjMidi.prompts st')
                  = JsMap.keys (PromptDjMidi.prompts (Main.pdjMidi a)) /\
                  (exists m', st' = PromptDjMidi.with_prompts (Main.pdjMidi a) m') /\
                  Main.step a i
                  = Main.on_pdj_event (Main.with_pdjMidi a h' st')
                      (PromptDjMidi.prompts_changed (PromptDjMidi.prompts st'))).
    { destruct i as [detail|promptId value| | | | | | |]; try discriminate; simpl.
      - assert (C := handlePromptChanged_edit (Main.heap a) (Main.pdjMidi a)
                       detail W K).
        destruct (PromptDjMidi.handlePromptChanged (Main.heap a) (Main.pdjMidi a)
                    detail) as [[h' st'] evs].
        destruct C as [(-> & -> & ->) | (-> & W' & K' & Ks' & M)].
        + left. simpl. apply app_eta.
        + right. exists h', st'.
          split; [exact W'|]. split; [exact K'|]. split; [exact Ks'|].
          split; [exact M|]. reflexivity.
      - assert (C := handleInstrumentChange_edit (Main.heap a) (Main.pdjMidi a)
                       promptId value W K).
        destruct (PromptDjMidi.handleInstrumentChange (Main.heap a) (Main.pdjMidi a)
                    promptId value) as [[h' st'] evs].
        destruct C as [(-> & -> & ->) | (-> & W' & K' & Ks' & M)].
        + left. simpl. apply app_eta.
        + right. exists h', st'.
          split; [exact W'|]. split; [exact K'|]. split; [exact Ks'|].
          split; [exact M|]. reflexivity. }
    destruct C as [-> | (h' & st' & W' & K' & Ks' & [m' M] & ->)]; [exact I|].
    unfold app_inv2. simpl. repeat split; try apply W'; try exact K'.
    + congruence.
    + apply last_last.
    + subst st'. destruct (Main.pdjMidi a). exact T.
  - destruct (step_other_frame a i E) as (F1 & F2 & F3 & F4).
    destruct (step_effects a i) as (_ & _ & _ & T1 & T2).
    unfold app_inv2. rewrite F1, F2, F3, F4, T1, T2.
    repeat split; try apply W; auto.
    destruct i; try discriminate; try exact T. reflexivity.
Qed.

Lemma run_inv2 (a : Main.app) (inputs : list Main.input) :
  app_inv2 a -> app_inv2 (Main.run a inputs).
Proof.
  revert a. induction inputs as [|i inputs IH]; intros a I; simpl.
  - exact I.
  - apply IH, step_inv2, I.
Qed.

Lemma In_slotIds (k : string) :
  In k slotIds -> exists i, i < 16 /\ k = ("prompt-" ++ Js.toString i)%string.
Proof.
  unfold slotIds. intros H. apply in_map_iff in H. destruct H as [i [E Hi]].
  apply in_seq in Hi. exists i. split; [lia | congruence].
Qed.

Lemma In_activePrompts (h : Heap.t) (st : PromptDjMidi.state) (p : Prompt.t) :
  In p (PromptDjMidiView.activePrompts h st) <->
  (exists k l, In (k, l) (PromptDjMidi.prompts st) /\ Heap.deref h l = Some p) /\
  PrimFloat.ltb 0 (Prompt.weight p) = true.
Proof.
  unfold PromptDjMidiView.activePrompts, JsMap.values. rewrite in_flat_map.
  split.
  - intros [o [Ho Hp]]. apply in_map_iff in Ho. destruct Ho as [[k l] [E Hkl]].
    destruct o as [q|]; [|contradiction].
    destruct (PrimFloat.ltb 0 (Prompt.weight q)) eqn:A; [|contradiction].
    destruct Hp as [->|[]]. split; [|exact A]. exists k, l. split; assumption.
  - intros [[k [l [Hkl D]]] A]. exists (Some p). split.
    + apply in_map_iff. exists (k, l). split; assumption.
    + rewrite A. left. reflexivity.
Qed.

(** X10. After any inputs every one of the sixteen slot ids resolves to a
    prompt whose promptId is that id, no other key resolves to anything,
    and the slot label that [render] computes for an active prompt is a
    number from 1 to 16, the slot's place in the grid. *)
Theorem slots_stay_keyed (shuffled : list Genre.t) (inputs : list Main.input) :
  let a := Main.run (Main.main shuffled) inputs in
  let lookup := JsMap.lookup (Main.heap a) (PromptDjMidi.prompts (Main.pdjMidi a)) in
  (forall i : nat, i < 16 ->
     exists p, lookup ("prompt-" ++ Js.toString i)%string = Some p /\
               Prompt.promptId p = ("prompt-" ++ Js.toString i)%string) /\
  (forall (k : string) (p : Prompt.t),
      lookup k = Some p -> Prompt.promptId p = k /\ In k slotIds) /\
  (forall p : Prompt.t,
      In p (PromptDjMidiView.activePrompts (Main.heap a) (Main.pdjMidi a)) ->
      exists i : nat,
        i < 16 /\
        Prompt.promptId p = ("prompt-" ++ Js.toString i)%string /\
        PromptDjMidiView.slotIndex p = Js.Int (Z.of_nat i + 1)).
Proof.
  intros a lookup.
  destruct (run_inv2 _ inputs (main_inv2 shuffled)) as (W & K & Ks & _).
  fold a in W, K, Ks. split; [|split].
  - intros i Hi.
    assert (Hin : In ("prompt-" ++ Js.toString i)%string
                     (JsMap.keys (PromptDjMidi.prompts (Main.pdjMidi a)))).
    { rewrite Ks. unfold slotIds. apply in_map_iff. exists i.
      split; [reflexivity | apply in_seq; lia]. }
    unfold lookup, JsMap.lookup.
    destruct (JsMap.get (PromptDjMidi.prompts (Main.pdjMidi a))
                ("prompt-" ++ Js.toString i)%string) as [l|] eqn:E.
    + apply (keyed_In _ _ _ _ K (get_Some_In _ _ _ E)).
    + apply get_None_keys in E. contradiction.
  - intros k p L. split; [apply (keyed_lookup _ _ _ _ K L)|].
    rewrite <- Ks. unfold lookup, JsMap.lookup in L.
    destruct (JsMap.get (PromptDjMidi.prompts (Main.pdjMidi a)) k) as [l|] eqn:E;
      [|discriminate].
    apply get_Some_In in E. apply (in_map fst) in E. exact E.
  - intros p Hp. apply In_activePrompts in Hp.
    destruct Hp as [[k [l [Hkl D]]] _].
    destruct (keyed_In _ _ _ _ K Hkl) as [q [Dq Q]].
    assert (q = p) by congruence. subst q.
    assert (Hk : In k slotIds).
    { rewrite <- Ks. apply (in_map fst) in Hkl. exact Hkl. }
    destruct (In_slotIds k Hk) as [i [Hi E]].
    exists i. split; [exact Hi|]. split; [congruence|].
    apply slotIndex_exact; [|congruence].
    assert (16 < 2 ^ 53)%Z by reflexivity. lia.
Qed.

(** X11. The helper is kept in step with the grid: after any inputs the
    map it was last given is the grid's current map, its tempo, once
    given, is the grid's (before that the grid shows 120), and
    [playPause()] has been called once per click on the play/pause
    button. *)
Theorem helper_mirrors_grid (shuffled : list Genre.t) (inputs : list Main.input) :
  let a := Main.run (Main.main shuffled) inputs in
  LiveMusicHelper.weightedPrompts (Main.liveMusicHelper a)
  = PromptDjMidi.prompts (Main.pdjMidi a) /\
  match LiveMusicHelper.tempoBpm (Main.liveMusicHelper a) with
  | Some v => PromptDjMidi.tempoBpm (Main.pdjMidi a) = v
  | None => PromptDjMidi.tempoBpm (Main.pdjMidi a) = Js.Int 120
  end /\
  LiveMusicHelper.playPauseCalls (Main.liveMusicHelper a)
  = List.length (filter (fun i => match i with
                                  | Main.play_pause_click => true
                                  | _ => false
                                  end) inputs).
Proof.
  intros a.
  destruct (run_inv2 _ inputs (main_inv2 shuffled)) as (_ & _ & _ & H & L & T).
  fold a in H, L, T. repeat split; try assumption.
  assert (G : forall (inputs : list Main.input) (a0 : Main.app),
             LiveMusicHelper.playPauseCalls (Main.liveMusicHelper (Main.run a0 inputs))
             = LiveMusicHelper.playPauseCalls (Main.liveMusicHelper a0)
               + List.length (filter (fun i => match i with
                                               | Main.play_pause_click => true
                                               | _ => false
                                               end) inputs)).
  { clear. induction inputs as [|i inputs IH]; intros a0; [simpl; lia|].
    cbn [Main.run fold_left]. change (fold_left Main.step inputs (Main.step a0 i))
      with (Main.run (Main.step a0 i) inputs).
    rewrite IH. destruct (step_effects a0 i) as (_ & _ & P & _). rewrite P.
    destruct i; simpl; lia. }
  unfold a. rewrite G. unfold Main.main.
  destruct (buildInitialPrompts shuffled). reflexivity.
Qed.

(** ** Changing a slot's instrument *)

(** X12. In a well-formed, keyed prompt map, [handleInstrumentChange] on a
    key that resolves to a prompt makes that entry the same prompt with
    the selected instrument set to the given value, keeps every other
    entry and the keys, and dispatches the new map; on a key that
    resolves to nothing it changes nothing and dispatches nothing. *)
Theorem instrument_change_sets_instrument
    (h : Heap.t) (st : PromptDjMidi.state) (promptId value : string)
    (W : wf h (PromptDjMidi.prompts st))
    (K : keyed h (PromptDjMidi.prompts st)) :
  let '(h', st', evs) :=
    PromptDjMidi.handleInstrumentChange h st promptId value in
  (forall p : Prompt.t,
      JsMap.lookup h (PromptDjMidi.prompts st) promptId = Some p ->
      JsMap.lookup h' (PromptDjMidi.prompts st') promptId
      = Some (Prompt.setSelectedInstrument p value) /\
      (forall k : string, k <> promptId ->
         JsMap.lookup h' (PromptDjMidi.prompts st') k
         = JsMap.lookup h (PromptDjMidi.prompts st) k) /\
      JsMap.keys (PromptDjMidi.prompts st') = JsMap.keys (PromptDjMidi.prompts st) /\
      evs = [PromptDjMidi.prompts_changed (PromptDjMidi.prompts st')]) /\
  (JsMap.lookup h (PromptDjMidi.prompts st) promptId = None ->
   h' = h /\ st' = st /\ evs = []).
Proof.
  destruct (JsMap.lookup h (PromptDjMidi.prompts st) promptId) as [p|] eqn:L.
  - destruct (handleInstrumentChange_found h st promptId value p W K L)
      as [l [E (W1 & K1 & R)]].
    rewrite R. cbn zeta. split; [|discriminate].
    intros q Q. injection Q as <-.
    set (p' := Prompt.setSelectedInstrument p value) in *.
    destruct (found_lookups _ _ promptId l p' W1 E) as [F1 F2].
    cbn zeta in F1, F2. rewrite length_store in F1, F2.
    cbn [PromptDjMidi.prompts PromptDjMidi.with_prompts].
    split; [exact F1|]. split; [|split; [|reflexivity]].
    + intros k Nk. rewrite (F2 k Nk). unfold JsMap.lookup.
      destruct (JsMap.get (PromptDjMidi.prompts st) k) as [l0|] eqn:E0;
        [|reflexivity].
      apply deref_store_other. intros ->. apply Nk.
      destruct W as (_ & S & _).
      apply (NoDup_snd_inj _ _ _ l0 S);
        [apply get_Some_In, E0 | apply get_Some_In, E].
    + apply keys_set_present.
      destruct (in_dec string_dec promptId (JsMap.keys (PromptDjMidi.prompts st)))
        as [i|n]; [exact i|].
      apply get_None_keys in n. congruence.
  - unfold PromptDjMidi.handleInstrumentChange. unfold JsMap.lookup in L.
    destruct (JsMap.get (PromptDjMidi.prompts st) promptId) as [l|];
      [rewrite L|]; (split; [discriminate | tauto]).
Qed.

Lemma instrument_change_sets_instrument_witness :
  wf sampleHeap (PromptDjMidi.prompts sampleGrid) /\
  keyed sampleHeap (PromptDjMidi.prompts sampleGrid) /\
  let '(h', st', evs) :=
    PromptDjMidi.handleInstrumentChange sampleHeap sampleGrid "prompt-0" "Flute" in
  (forall p : Prompt.t,
      JsMap.lookup sampleHeap (PromptDjMidi.prompts sampleGrid) "prompt-0" = Some p ->
      JsMap.lookup h' (PromptDjMidi.prompts st') "prompt-0"
      = Some (Prompt.setSelectedInstrument p "Flute") /\
      (forall k : string, k <> "prompt-0" ->
         JsMap.lookup h' (PromptDjMidi.prompts st') k
         = JsMap.lookup sampleHeap (PromptDjMidi.prompts sampleGrid) k) /\
      JsMap.keys (PromptDjMidi.prompts st')
      = JsMap.keys (PromptDjMidi.prompts sampleGrid) /\
      evs = [PromptDjMidi.prompts_changed (PromptDjMidi.prompts st')]) /\
  (JsMap.lookup sampleHeap (PromptDjMidi.prompts sampleGrid) "prompt-0" = None ->
   h' = sampleHeap /\ st' = sampleGrid /\ evs = []).
Proof.
  assert (W : wf sampleHeap (PromptDjMidi.prompts sampleGrid))
    by exact (main_wf GENRE_LIBRARY).
  assert (K : keyed sampleHeap (PromptDjMidi.prompts sampleGrid))
    by exact (main_keyed GENRE_LIBRARY).
  split; [exact W|]. split; [exact K|].
  exact (instrument_change_sets_instrument sampleHeap sampleGrid
           "prompt-0" "Flute" W K).
Defined.

(** ** From a control-change message to the list of active styles *)

Lemma ccWeight_active (value : Z) :
  (0 <= value <= 127)%Z ->
  (PrimFloat.ltb 0 (PromptController.ccWeight value) = true <-> (0 < value)%Z).
Proof.
  intros H.
  assert (A : forallb (fun n =>
                         Bool.eqb (PrimFloat.ltb 0 (PromptController.ccWeight (Z.of_nat n)))
                                  (0 <? n))
                      (seq 0 128) = true) by (vm_compute; reflexivity).
  rewrite forallb_forall in A.
  specialize (A (Z.to_nat value)). rewrite Z2Nat.id in A by lia.
  assert (Hin : In (Z.to_nat value) (seq 0 128)) by (apply in_seq; lia).
  apply A in Hin. apply Bool.eqb_prop in Hin. rewrite Hin.
  rewrite Nat.ltb_lt. lia.
Qed.

(** X13. A control-change message on a slot's controller (learn mode off,
    value in [0,127]), once its prompt-changed event has been handled by
    the grid, leaves the slot's entry with the weight [(value/127)*2];
    the slot is among the active styles that [render] lists exactly when
    the value is not 0. *)
Theorem cc_message_reaches_grid
    (h : Heap.t) (grid : PromptDjMidi.state)
    (st : PromptController.state) (m : PromptController.ControlChange)
    (W : wf h (PromptDjMidi.prompts grid))
    (Hkey : In (PromptController.promptId st)
               (JsMap.keys (PromptDjMidi.prompts grid)))
    (Hlearn : PromptController.learnMode st = false)
    (Hcc : PromptController.cc_cc m = PromptController.cc st)
    (Hvalue : (0 <= PromptController.cc_value m <= 127)%Z) :
  let d := PromptController.dispatchPromptChange
             (fst (PromptController.onCcMessage st m)) in
  snd (PromptController.onCcMessage st m) = [d] /\
  let '(h', grid', evs) := PromptDjMidi.handlePromptChanged h grid d in
  JsMap.lookup h' (PromptDjMidi.prompts grid') (PromptController.promptId st)
  = Some d /\
  Prompt.weight d = PromptController.ccWeight (PromptController.cc_value m) /\
  (In d (PromptDjMidiView.activePrompts h' grid') <->
   (0 < PromptController.cc_value m)%Z) /\
  evs = [PromptDjMidi.prompts_changed (PromptDjMidi.prompts grid')].
Proof.
  unfold PromptController.onCcMessage. rewrite Hlearn, Hcc, Z.eqb_refl.
  cbn [fst snd]. cbn zeta. split; [reflexivity|].
  set (d := PromptController.dispatchPromptChange
              (PromptController.with_weight st
                 (PromptController.ccWeight (PromptController.cc_value m)))).
  assert (Id : Prompt.promptId d = PromptController.promptId st) by reflexivity.
  assert (Wd : Prompt.weight d
               = PromptController.ccWeight (PromptController.cc_value m))
    by reflexivity.
  destruct (JsMap.get (PromptDjMidi.prompts grid) (Prompt.promptId d))
    as [l|] eqn:E.
  2: { apply get_None_keys in E. rewrite Id in E. contradiction. }
  rewrite (handlePromptChanged_found h grid d l W E). cbn zeta.
  destruct (found_lookups h _ _ l d W E) as [F1 _]. cbn zeta in F1.
  cbn [PromptDjMidi.prompts PromptDjMidi.with_prompts].
  rewrite <- Id. split; [exact F1|]. split; [exact Wd|].
  split; [|reflexivity].
  rewrite In_activePrompts. rewrite Wd, (ccWeight_active _ Hvalue).
  cbn [PromptDjMidi.prompts PromptDjMidi.with_prompts].
  split; [tauto|]. intros P. split; [|exact P].
  unfold JsMap.lookup in F1.
  destruct (JsMap.get (JsMap.set (PromptDjMidi.prompts grid) (Prompt.promptId d)
                                 (List.length h)) (Prompt.promptId d))
    as [l'|] eqn:E'; [|discriminate].
  exists (Prompt.promptId d), l'. split; [apply get_Some_In, E' | exact F1].
Qed.

Lemma cc_message_reaches_grid_witness :
  let m := PromptController.mkCC 0%Z 3%Z 64%Z in
  let d := PromptController.dispatchPromptChange
             (fst (PromptController.onCcMessage sampleController m)) in
  snd (PromptController.onCcMessage sampleController m) = [d] /\
  let '(h', grid', evs) :=
    PromptDjMidi.handlePromptChanged sampleHeap sampleGrid d in
  JsMap.lookup h' (PromptDjMidi.prompts grid')
               (PromptController.promptId sampleController) = Some d /\
  Prompt.weight d = PromptController.ccWeight (PromptController.cc_value m) /\
  (In d (PromptDjMidiView.activePrompts h' grid') <->
   (0 < PromptController.cc_value m)%Z) /\
  evs = [PromptDjMidi.prompts_changed (PromptDjMidi.prompts grid')].
Proof.
  apply (cc_message_reaches_grid sampleHeap sampleGrid sampleController
           (PromptController.mkCC 0%Z 3%Z 64%Z)).
  - exact (main_wf GENRE_LIBRARY).
  - vm_compute. tauto.
  - reflexivity.
  - reflexivity.
  - simpl. lia.
Defined.

(** ** The set of filtered prompts and the toast *)

Lemma In_Set_add (s : list string) (y x : string) :
  In x (PromptDjMidi.Set_add s y) <-> In x s \/ x = y.
Proof.
  unfold PromptDjMidi.Set_add.
  destruct (existsb (String.eqb y) s) eqn:E.
  - split; [tauto|]. intros [H | ->]; [exact H|].
    apply existsb_exists in E. destruct E as [z [Hz E]].
    apply String.eqb_eq in E. subst z. exact Hz.
  - rewrite in_app_iff. simpl. intuition congruence.
Qed.

Lemma NoDup_Set_add (s : list string) (y : string) :
  NoDup s -> NoDup (PromptDjMidi.Set_add s y).
Proof.
  intros ND. unfold PromptDjMidi.Set_add.
  destruct (existsb (String.eqb y) s) eqn:E; [exact ND|].
  apply NoDup_app; [exact ND | repeat constructor; intros [] |].
  intros x Hx [Ex|[]]. subst x.
  assert (T : existsb (String.eqb y) s = true).
  { apply existsb_exists. exists y. split; [exact Hx | apply String.eqb_refl]. }
  congruence.
Qed.

Lemma run_filtered (inputs : list Main.input) (a : Main.app) :
  NoDup (PromptDjMidi.filteredPrompts (Main.pdjMidi a)) ->
  NoDup (PromptDjMidi.filteredPrompts (Main.pdjMidi (Main.run a inputs))) /\
  (forall x : string,
      In x (PromptDjMidi.filteredPrompts (Main.pdjMidi (Main.run a inputs))) <->
      In x (PromptDjMidi.filteredPrompts (Main.pdjMidi a)) \/
      In x (filteredTexts inputs)).
Proof.
  revert a. induction inputs as [|i inputs IH]; intros a ND.
  - simpl. split; [exact ND | intros x; tauto].
  - cbn [Main.run fold_left]. change (fold_left Main.step inputs (Main.step a i))
      with (Main.run (Main.step a i) inputs).
    destruct (step_effects a i) as (_ & F & _).
    assert (ND' : NoDup (PromptDjMidi.filteredPrompts (Main.pdjMidi (Main.step a i)))).
    { rewrite F. destruct i; try exact ND. apply NoDup_Set_add, ND. }
    destruct (IH _ ND') as [N I]. split; [exact N|].
    intros x. rewrite I, F. unfold filteredTexts. cbn [flat_map].
    rewrite in_app_iff.
    destruct i; cbn [In]; try tauto.
    rewrite In_Set_add. intuition congruence.
Qed.

(** X14. After any inputs the grid's set of filtered prompts holds each
    text once, and a text is in it exactly when a filtered-prompt notice
    for that text arrived at some point; so a slot is drawn as filtered
    exactly when its current text was ever filtered, and further inputs
    never take a text out of the set. *)
Theorem filtered_set_records_notices
    (shuffled : list Genre.t) (inputs : list Main.input) :
  let a := Main.run (Main.main shuffled) inputs in
  let set := PromptDjMidi.filteredPrompts (Main.pdjMidi a) in
  NoDup set /\
  (forall x : string, In x set <-> In x (filteredTexts inputs)) /\
  (forall p : Prompt.t,
      PromptDjMidiView.filteredFlag (Main.pdjMidi a) p = true <->
      In (Prompt.text p) (filteredTexts inputs)) /\
  (forall (more : list Main.input) (x : string),
      In x set ->
      In x (PromptDjMidi.filteredPrompts (Main.pdjMidi (Main.run a more)))).
Proof.
  intros a set.
  assert (E0 : PromptDjMidi.filteredPrompts (Main.pdjMidi (Main.main shuffled)) = []).
  { unfold Main.main. destruct (buildInitialPrompts shuffled). reflexivity. }
  assert (ND0 : NoDup (PromptDjMidi.filteredPrompts (Main.pdjMidi (Main.main shuffled)))).
  { rewrite E0. constructor. }
  destruct (run_filtered inputs _ ND0) as [N I]. fold a in N, I. fold set in N, I.
  assert (I' : forall x, In x set <-> In x (filteredTexts inputs)).
  { intros x. rewrite I, E0. simpl. tauto. }
  split; [exact N|]. split; [exact I'|]. split.
  - intros p. unfold PromptDjMidiView.filteredFlag. fold set. rewrite <- I'.
    rewrite existsb_exists. split.
    + intros [y [Hy E]]. apply String.eqb_eq in E. subst y. exact Hy.
    + intros H. exists (Prompt.text p). split; [exact H | apply String.eqb_refl].
  - intros more x H. apply (run_filtered more a N). left. exact H.
Qed.

Lemma run_toast (inputs : list Main.input) (a : Main.app) :
  Main.toastMessage (Main.run a inputs) = Main.toastMessage a ++ toasted inputs.
Proof.
  revert a. induction inputs as [|i inputs IH]; intros a.
  - simpl. rewrite app_nil_r. reflexivity.
  - cbn [Main.run fold_left]. change (fold_left Main.step inputs (Main.step a i))
      with (Main.run (Main.step a i) inputs).
    rewrite IH. destruct (step_effects a i) as (T & _). rewrite T.
    rewrite <- app_assoc. f_equal.
    unfold toasted. cbn [flat_map]. rewrite app_nil_r. reflexivity.
Qed.

(** X15. After any inputs the toast has been shown, in order, the reason
    of every filtered-prompt notice and the message of every error, of
    the helper or of the grid (a request for MIDI access that failed),
    each as it arrived, and nothing else. *)
Theorem toast_shows_notices_and_errors
    (shuffled : list Genre.t) (inputs : list Main.input) :
  Main.toastMessage (Main.run (Main.main shuffled) inputs) = toasted inputs.
Proof.
  rewrite run_toast. unfold Main.main.
  destruct (buildInitialPrompts shuffled). reflexivity.
Qed.

(** ** Edits and the rest keep apart *)

(** X16. Inputs that edit prompts (prompt-changed events and instrument
    changes) never change the tempo of the grid or of the helper, the
    playback state, the analyser, the toast, the set of filtered prompts
    or the play/pause count; inputs of every other kind never change the
    object store or the prompt map and never make [main] hand the helper
    a prompt update. *)
Theorem edits_and_other_inputs_are_separate
    (a : Main.app) (inputs : list Main.input) :
  let a' := Main.run a inputs in
  (forallb isEdit inputs = true ->
   PromptDjMidi.tempoBpm (Main.pdjMidi a') = PromptDjMidi.tempoBpm (Main.pdjMidi a) /\
   LiveMusicHelper.tempoBpm (Main.liveMusicHelper a')
   = LiveMusicHelper.tempoBpm (Main.liveMusicHelper a) /\
   PromptDjMidi.playbackState (Main.pdjMidi a')
   = PromptDjMidi.playbackState (Main.pdjMidi a) /\
   Main.audioAnalyser a' = Main.audioAnalyser a /\
   Main.analyserCalls a' = Main.analyserCalls a /\
   Main.toastMessage a' = Main.toastMessage a /\
   PromptDjMidi.filteredPrompts (Main.pdjMidi a')
   = PromptDjMidi.filteredPrompts (Main.pdjMidi a) /\
   LiveMusicHelper.playPauseCalls (Main.liveMusicHelper a')
   = LiveMusicHelper.playPauseCalls (Main.liveMusicHelper a)) /\
  (forallb (fun i => negb (isEdit i)) inputs = true ->
   Main.heap a' = Main.heap a /\
   PromptDjMidi.prompts (Main.pdjMidi a') = PromptDjMidi.prompts (Main.pdjMidi a) /\
   LiveMusicHelper.updates (Main.liveMusicHelper a')
   = LiveMusicHelper.updates (Main.liveMusicHelper a) /\
   LiveMusicHelper.weightedPrompts (Main.liveMusicHelper a')
   = LiveMusicHelper.weightedPrompts (Main.liveMusicHelper a)).
Proof.
  cbn zeta. split.
  - revert a. induction inputs as [|i inputs IH]; intros a A.
    + simpl. repeat split.
    + simpl in A. apply andb_true_iff in A. destruct A as [E A].
      cbn [Main.run fold_left].
      change (fold_left Main.step inputs (Main.step a i))
        with (Main.run (Main.step a i) inputs).
      destruct (IH (Main.step a i) A) as (I1 & I2 & I3 & I4 & I5 & I6 & I7 & I8).
      rewrite I1, I2, I3, I4, I5, I6, I7, I8.
      destruct (step_edit_frame a i E) as (h' & m' & lm' & -> & T & P).
      simpl. rewrite T, P. repeat split.
  - revert a. induction inputs as [|i inputs IH]; intros a A.
    + simpl. repeat split.
    + simpl in A. apply andb_true_iff in A. destruct A as [E A].
      apply negb_true_iff in E.
      cbn [Main.run fold_left].
      change (fold_left Main.step inputs (Main.step a i))
        with (Main.run (Main.step a i) inputs).
      destruct (IH (Main.step a i) A) as (I1 & I2 & I3 & I4).
      rewrite I1, I2, I3, I4. apply step_other_frame, E.
Qed.

(** ** A sequence of edits *)

Lemma find_append {A : Type} (f : A -> bool) (l1 l2 : list A) :
  find f (l1 ++ l2)
  = match find f l1 with Some x => Some x | None => find f l2 end.
Proof.
  induction l1 as [|x l1 IH]; [reflexivity|].
  simpl. destruct (f x); [reflexivity | exact IH].
Qed.

(** One prompt-changed event, seen through the keys of the map. *)
Lemma step_prompt_changed (a : Main.app) (d : Prompt.t) :
  wf (Main.heap a) (PromptDjMidi.prompts (Main.pdjMidi a)) ->
  let a' := Main.step a (Main.prompt_changed d) in
  wf (Main.heap a') (PromptDjMidi.prompts (Main.pdjMidi a')) /\
  JsMap.keys (PromptDjMidi.prompts (Main.pdjMidi a'))
  = JsMap.keys (PromptDjMidi.prompts (Main.pdjMidi a)) /\
  (forall k : string,
      In k (JsMap.keys (PromptDjMidi.prompts (Main.pdjMidi a))) ->
      JsMap.lookup (Main.heap a') (PromptDjMidi.prompts (Main.pdjMidi a')) k
      = if String.eqb (Prompt.promptId d) k then Some d
        else JsMap.lookup (Main.heap a) (PromptDjMidi.prompts (Main.pdjMidi a)) k).
Proof.
  intros W. cbn zeta. cbn [Main.step].
  assert (P := wf_handlePromptChanged (Main.heap a) (Main.pdjMidi a) d W).
  destruct (JsMap.get (PromptDjMidi.prompts (Main.pdjMidi a)) (Prompt.promptId d))
    as [l|] eqn:E.
  - rewrite (handlePromptChanged_found _ _ d l W E) in *. cbn zeta in *.
    simpl in P. destruct P as [W' Ks]. simpl.
    split; [exact W'|]. split; [exact Ks|]. intros k Hk.
    destruct (found_lookups _ _ _ l d W E) as [F1 F2]. cbn zeta in F1, F2.
    destruct (String.eqb_spec (Prompt.promptId d) k) as [<-|N].
    + exact F1.
    + apply F2. congruence.
  - rewrite (handlePromptChanged_missing _ _ d E). cbv beta iota zeta.
    cbn [fold_left]. rewrite app_eta.
    split; [exact W|]. split; [reflexivity|]. intros k Hk.
    destruct (String.eqb_spec (Prompt.promptId d) k) as [<-|N]; [|reflexivity].
    apply get_None_keys in E. contradiction.
Qed.

Lemma run_edits (details : list Prompt.t) (a : Main.app) (k : string) :
  wf (Main.heap a) (PromptDjMidi.prompts (Main.pdjMidi a)) ->
  In k (JsMap.keys (PromptDjMidi.prompts (Main.pdjMidi a))) ->
  let a' := Main.run a (map Main.prompt_changed details) in
  JsMap.lookup (Main.heap a') (PromptDjMidi.prompts (Main.pdjMidi a')) k
  = match lastFor k details with
    | Some d => Some d
    | None => JsMap.lookup (Main.heap a) (PromptDjMidi.prompts (Main.pdjMidi a)) k
    end.
Proof.
  revert a. induction details as [|d ds IH]; intros a W Hk; [reflexivity|].
  cbn zeta. cbn [map Main.run fold_left].
  change (fold_left Main.step (map Main.prompt_changed ds)
            (Main.step a (Main.prompt_changed d)))
    with (Main.run (Main.step a (Main.prompt_changed d))
                   (map Main.prompt_changed ds)).
  destruct (step_prompt_changed a d W) as (W' & Ks & L).
  rewrite (IH _ W') by (rewrite Ks; exact Hk).
  unfold lastFor. cbn [rev]. rewrite find_append. cbn [find].
  destruct (find (fun d0 => String.eqb (Prompt.promptId d0) k) (rev ds));
    [reflexivity|].
  rewrite (L k Hk). destruct (String.eqb (Prompt.promptId d) k); reflexivity.
Qed.

(** X17. The last edit wins. After [main] and any sequence of
    prompt-changed events, each slot holds the record of the last event
    sent for its id and, when none was sent for it, its initial prompt;
    events for other ids do not disturb it. *)
Theorem last_edit_wins
    (shuffled : list Genre.t) (details : list Prompt.t) (k : string)
    (Hk : In k slotIds) :
  let a0 := Main.main shuffled in
  let a := Main.run a0 (map Main.prompt_changed details) in
  JsMap.lookup (Main.heap a) (PromptDjMidi.prompts (Main.pdjMidi a)) k
  = match lastFor k details with
    | Some d => Some d
    | None => JsMap.lookup (Main.heap a0) (PromptDjMidi.prompts (Main.pdjMidi a0)) k
    end.
Proof.
  destruct (main_inv2 shuffled) as (W & _ & Ks & _).
  apply run_edits; [exact W | rewrite Ks; exact Hk].
Qed.

Lemma last_edit_wins_witness :
  In "prompt-3" slotIds /\
  let details :=
    [sampleDetail;
     Prompt.mk "prompt-5" "Funk" 2%float 5%Z "#2af6de" 0.5%float [] None;
     Prompt.mk "prompt-99" "Nowhere" 1%float 0%Z "" 0.5%float [] None;
     Prompt.mk "prompt-3" "Post Punk" 0.25%float 3%Z "#2af6de" 0.5%float
               ["Chorus Guitar"] (Some "Chorus Guitar")] in
  let a0 := Main.main GENRE_LIBRARY in
  let a := Main.run a0 (map Main.prompt_changed details) in
  JsMap.lookup (Main.heap a) (PromptDjMidi.prompts (Main.pdjMidi a)) "prompt-3"
  = match lastFor "prompt-3" details with
    | Some d => Some d
    | None => JsMap.lookup (Main.heap a0) (PromptDjMidi.prompts (Main.pdjMidi a0))
                           "prompt-3"
    end.
Proof.
  assert (H : In "prompt-3" slotIds) by (vm_compute; tauto).
  split; [exact H|].
  exact (last_edit_wins GENRE_LIBRARY _ "prompt-3" H).
Defined.

(** ** The styles listed at startup *)

Lemma initial_values (startOn : list Genre.t) :
  JsMap.values (map (initialPrompt startOn) (seq 0 16))
               (combine slotIds (seq 0 16))
  = map (fun i => Some (initialPrompt startOn i)) (seq 0 16).
Proof. reflexivity. Qed.

Lemma active_initialPrompt (startOn : list Genre.t) (i : nat) :
  PrimFloat.ltb 0 (Prompt.weight (initialPrompt startOn i))
  = existsb (fun x => Genre.eqb x (slotGenre i)) startOn.
Proof.
  unfold initialPrompt, Prompt.weight. fold (slotGenre i).
  destruct (existsb (fun x => Genre.eqb x (slotGenre i)) startOn); reflexivity.
Qed.

(** X18. Right after [main] the list of active styles that [render]
    computes has at most three entries, in slot order; each has weight 1
    and is the initial prompt of a slot whose genre is one of the three
    genres drawn. *)
Theorem initial_active_styles (shuffled : list Genre.t) :
  let a := Main.main shuffled in
  let active := PromptDjMidiView.activePrompts (Main.heap a) (Main.pdjMidi a) in
  List.length active <= 3 /\
  active = filter (fun p => PrimFloat.ltb 0 (Prompt.weight p))
                  (map (initialPrompt (firstn 3 shuffled)) (seq 0 16)) /\
  (forall p : Prompt.t,
      In p active ->
      Prompt.weight p = 1%float /\
      In (Prompt.text p) (map Genre.text (firstn 3 shuffled))).
Proof.
  cbn zeta. unfold Main.main. rewrite buildInitialPrompts_eq.
  cbn [Main.heap Main.pdjMidi PromptDjMidi.new].
  unfold PromptDjMidiView.activePrompts.
  cbn [PromptDjMidi.prompts]. rewrite initial_values.
  assert (L3 : List.length (firstn 3 shuffled) <= 3)
    by (rewrite length_firstn; lia).
  revert L3. generalize (firstn 3 shuffled) as startOn.
  intros startOn L3.
  assert (E : forall l : list nat,
             flat_map (fun o => match o with
                                | Some p => if PrimFloat.ltb 0 (Prompt.weight p)
                                            then [p] else []
                                | None => []
                                end)
                      (map (fun i => Some (initialPrompt startOn i)) l)
             = filter (fun p => PrimFloat.ltb 0 (Prompt.weight p))
                      (map (initialPrompt startOn) l)).
  { induction l as [|i l IH]; [reflexivity|].
    cbn [map flat_map filter]. rewrite IH.
    destruct (PrimFloat.ltb 0 (Prompt.weight (initialPrompt startOn i)));
      reflexivity. }
  rewrite E. split; [|split; [reflexivity|]].
  - assert (C : forall l : list nat,
               List.length (filter (fun p => PrimFloat.ltb 0 (Prompt.weight p))
                                   (map (initialPrompt startOn) l))
               = List.length
                   (filter (fun g => existsb (fun x => Genre.eqb x g) startOn)
                           (map slotGenre l))).
    { induction l as [|i l IH]; [reflexivity|].
      cbn [map filter]. rewrite active_initialPrompt.
      destruct (existsb (fun x => Genre.eqb x (slotGenre i)) startOn);
        cbn [List.length]; rewrite IH; reflexivity. }
    rewrite C. etransitivity; [|exact L3].
    apply included_count_le.
    change (map slotGenre (seq 0 16)) with (firstn 16 GENRE_LIBRARY).
    apply (NoDup_map_inv Genre.text). apply nodupb_NoDup.
    vm_compute. reflexivity.
  - intros p Hp. apply filter_In in Hp. destruct Hp as [Hp A].
    apply in_map_iff in Hp. destruct Hp as [i [<- Hi]].
    rewrite active_initialPrompt in A. apply includes_In in A.
    destruct (initialPrompt_weight startOn i) as [_ Wt]. split.
    + apply Wt. exact A.
    + unfold initialPrompt, Prompt.text. fold (slotGenre i).
      apply in_map. exact A.
Qed.

(** ** Asking for MIDI access *)

(** X19. [setShowMidi(false)] switches the MIDI panel off, dispatches
    nothing and keeps the known inputs. [setShowMidi(true)] with access
    granted leaves the panel on and stores the input ids and the active
    input; with access denied it switches the panel off again and
    dispatches an error event with the exception's message, which [main]
    shows in the toast as it is. In no case are the prompts, the tempo,
    the playback state or the set of filtered prompts changed. *)
Theorem show_midi_failure_is_reported (g : PromptDjMidiAccess.t) :
  (forall outcome : PromptDjMidiAccess.access,
      let r := PromptDjMidiAccess.setShowMidi g false outcome in
      PromptDjMidi.showMidi (PromptDjMidiAccess.grid (fst r)) = false /\
      PromptDjMidiAccess.midiInputIds (fst r) = PromptDjMidiAccess.midiInputIds g /\
      snd r = []) /\
  (forall (inputIds : list string) (active : option string),
      let r := PromptDjMidiAccess.setShowMidi g true
                 (PromptDjMidiAccess.granted inputIds active) in
      PromptDjMidi.showMidi (PromptDjMidiAccess.grid (fst r)) = true /\
      PromptDjMidiAccess.midiInputIds (fst r) = inputIds /\
      PromptDjMidiAccess.activeMidiInputId (fst r) = active /\
      snd r = []) /\
  (forall (message : string) (a : Main.app),
      let r := PromptDjMidiAccess.setShowMidi g true
                 (PromptDjMidiAccess.denied message) in
      let a' := fold_left Main.on_pdj_event (snd r) a in
      PromptDjMidi.showMidi (PromptDjMidiAccess.grid (fst r)) = false /\
      PromptDjMidiAccess.midiInputIds (fst r) = PromptDjMidiAccess.midiInputIds g /\
      Main.toastMessage a' = Main.toastMessage a ++ [message] /\
      Main.heap a' = Main.heap a /\
      Main.pdjMidi a' = Main.pdjMidi a /\
      Main.liveMusicHelper a' = Main.liveMusicHelper a) /\
  (forall (show : bool) (outcome : PromptDjMidiAccess.access),
      PromptDjMidiAccess.with_showMidi
        (PromptDjMidiAccess.grid
           (fst (PromptDjMidiAccess.setShowMidi g show outcome)))
        (PromptDjMidi.showMidi (PromptDjMidiAccess.grid g))
      = PromptDjMidiAccess.grid g).
Proof.
  split; [|split; [|split]].
  - intros outcome. simpl. repeat split.
  - intros inputIds active. simpl. repeat split.
  - intros message a. simpl. repeat split.
  - intros show outcome. destruct g as [[m s p l t f] ids act].
    destruct show, outcome; reflexivity.
Qed.
